(** * Passport Photo Pro: geometric compliance and sheet-layout engine

    A shallow embedding of the numeric core of the repository:

    - [src/data/passportStandards.ts]: the standard and sheet catalogues,
      [calculatePhotosPerSheet], [mmToPixels], [pixelsToMm];
    - [src/hooks/useFaceDetection.ts]: [validateFace] and
      [calculateAutoPosition];
    - [src/components/PhotoEditor.tsx]: the placement rule of [drawCanvas];
    - [src/components/SheetPreview.tsx]: the grid loops of [drawSheet] and
      [handleDownload].

    JavaScript's [number] is modelled by exact rationals extended with
    [+Infinity], [-Infinity] and [NaN]: the special values and the way the
    arithmetic operators and comparisons produce and propagate them are
    those of the language, while binary64 rounding, overflow and the sign
    of zero are not modelled (every finite result is the exact one). *)

From Stdlib Require Import QArith Qround Qabs ZArith Lia Lqa.
From Stdlib Require Import String List Bool.
Import ListNotations.

(* ================================================================== *)
(** * JavaScript numbers *)
(* ================================================================== *)

Module JSNumber.

Inductive number : Type :=
| Num (q : Q)
| PosInf
| NegInf
| NaN.

Coercion Num : Q >-> number.

Definition isFinite (a : number) : bool :=
  match a with Num _ => true | _ => false end.

(** The infinity whose sign is that of [c], a comparison with zero;
    [NaN] when there is no sign to take. *)
Definition signedInf (c : comparison) : number :=
  match c with Gt => PosInf | Lt => NegInf | Eq => NaN end.

Definition flip (c : comparison) : comparison := CompOpp c.

Definition neg (a : number) : number :=
  match a with
  | Num p => Num (- p)
  | PosInf => NegInf
  | NegInf => PosInf
  | NaN => NaN
  end.

Definition add (a b : number) : number :=
  match a, b with
  | NaN, _ | _, NaN => NaN
  | Num p, Num q => Num (p + q)
  | PosInf, NegInf | NegInf, PosInf => NaN
  | PosInf, _ | _, PosInf => PosInf
  | NegInf, _ | _, NegInf => NegInf
  end.

Definition sub (a b : number) : number := add a (neg b).

Definition mul (a b : number) : number :=
  match a, b with
  | NaN, _ | _, NaN => NaN
  | Num p, Num q => Num (p * q)
  | PosInf, Num q | Num q, PosInf => signedInf (q ?= 0)
  | NegInf, Num q | Num q, NegInf => signedInf (flip (q ?= 0))
  | PosInf, PosInf | NegInf, NegInf => PosInf
  | PosInf, NegInf | NegInf, PosInf => NegInf
  end.

(** Division never raises: a zero divisor gives an infinity of the sign
    of the dividend, and [0 / 0] is [NaN]. *)
Definition div (a b : number) : number :=
  match a, b with
  | NaN, _ | _, NaN => NaN
  | Num p, Num q =>
      if Qeq_bool q 0 then signedInf (p ?= 0) else Num (p / q)
  | Num _, (PosInf | NegInf) => Num 0
  | PosInf, Num q => if Qle_bool 0 q then PosInf else NegInf
  | NegInf, Num q => if Qle_bool 0 q then NegInf else PosInf
  | (PosInf | NegInf), (PosInf | NegInf) => NaN
  end.

(** [Math.abs], [Math.floor] and [Math.round] (ties go up, so
    [Math.round x] is the floor of [x + 0.5]). *)
Definition Math_abs (a : number) : number :=
  match a with
  | Num p => Num (Qabs p)
  | PosInf | NegInf => PosInf
  | NaN => NaN
  end.

Definition Math_floor (a : number) : number :=
  match a with
  | Num p => Num (inject_Z (Qfloor p))
  | _ => a
  end.

Definition Math_round (a : number) : number :=
  match a with
  | Num p => Num (inject_Z (Qfloor (p + 0.5)))
  | _ => a
  end.

(** Relational operators: every comparison with [NaN] is [false]. *)
Definition ltb (a b : number) : bool :=
  match a, b with
  | NaN, _ | _, NaN => false
  | Num p, Num q => match p ?= q with Lt => true | _ => false end
  | NegInf, NegInf | PosInf, _ => false
  | NegInf, _ => true
  | Num _, PosInf => true
  | Num _, NegInf => false
  end.

Definition leb (a b : number) : bool :=
  match a, b with
  | NaN, _ | _, NaN => false
  | Num p, Num q => Qle_bool p q
  | NegInf, _ | _, PosInf => true
  | PosInf, _ | _, NegInf => false
  end.

Definition gtb (a b : number) : bool := ltb b a.
Definition geb (a b : number) : bool := leb b a.

(** Sameness of two numbers as values: rationals up to [Qeq], the special
    values up to identity. *)
Definition same (a b : number) : Prop :=
  match a, b with
  | Num p, Num q => p == q
  | PosInf, PosInf | NegInf, NegInf | NaN, NaN => True
  | _, _ => False
  end.

Definition sameb (a b : number) : bool :=
  match a, b with
  | Num p, Num q => Qeq_bool p q
  | PosInf, PosInf | NegInf, NegInf | NaN, NaN => true
  | _, _ => false
  end.

End JSNumber.
Import JSNumber.

Declare Scope js_scope.
Delimit Scope js_scope with js.
Bind Scope js_scope with number.
Infix "+" := add : js_scope.
Infix "-" := sub : js_scope.
Infix "*" := mul : js_scope.
Infix "/" := div : js_scope.
Notation "- x" := (neg x) : js_scope.
Infix "<?" := ltb : js_scope.
Infix "<=?" := leb : js_scope.
Infix ">?" := gtb : js_scope.
Infix ">=?" := geb : js_scope.
Infix "===" := same (at level 70, no associativity) : js_scope.

Open Scope Q_scope.
Open Scope js_scope.

(* ================================================================== *)
(** * Completions of a call *)
(* ================================================================== *)

(** The error kinds the specification names (its section 7).  No function
    modelled below contains a [throw] statement, and arithmetic on
    [number] never raises, so every call completes with [Returns]. *)
Inductive ErrorKind : Type :=
| InvalidArgument
| NoSubjectDetected
| ModelUnavailable
| DegenerateGeometry.

Inductive outcome (A : Type) : Type :=
| Returns (a : A)
| Throws (e : ErrorKind).
Arguments Returns {A} a.
Arguments Throws {A} e.

Definition bind {A B : Type} (m : outcome A) (k : A -> outcome B) : outcome B :=
  match m with
  | Returns a => k a
  | Throws e => Throws e
  end.

Notation "'let*' x ':=' m 'in' k" := (bind m (fun x => k))
  (at level 10, x name, m at level 100, k at level 200).

Definition throws {A : Type} (m : outcome A) : bool :=
  match m with Throws _ => true | Returns _ => false end.

(** A parameter with a default value: [undefined] (here [None]) is replaced
    by the default when the function is entered. *)
Definition orDefault (d : number) (a : option number) : number :=
  match a with Some v => v | None => d end.

(* ================================================================== *)
(** * src/data/passportStandards.ts *)
(* ================================================================== *)

Module PassportStandard.
(** The [flag] field, an emoji glyph used for display only, is left out. *)
Record t : Type := mk {
  id : string;
  country : string;
  countryCode : string;
  width : number;              (* in mm *)
  height : number;             (* in mm *)
  headHeightMin : number;      (* percentage of total height *)
  headHeightMax : number;
  eyeLineFromBottom : number;  (* percentage from bottom *)
  backgroundColor : string;
  notes : list string
}.
End PassportStandard.
Abbreviation PassportStandard := PassportStandard.t.

Module SheetSize.
Record t : Type := mk {
  id : string;
  name : string;
  width : number;   (* in mm *)
  height : number;  (* in mm *)
  dpi : number
}.
End SheetSize.
Abbreviation SheetSize := SheetSize.t.

Definition passportStandards : list PassportStandard :=
  [ PassportStandard.mk "us" "United States" "US" 51 51 50 69 56 "#FFFFFF"
      [ "Head must be centered"; "Neutral expression required";
        "Eyes must be open and visible" ];
    PassportStandard.mk "uk" "United Kingdom" "GB" 35 45 66 75 55 "#FFFFFF"
      [ "Plain cream or light grey background accepted"; "Mouth closed";
        "No glasses with tinted lenses" ];
    PassportStandard.mk "eu" "European Union (Schengen)" "EU" 35 45 70 80 60
      "#F0F0F0"
      [ "ICAO compliant"; "Light background required";
        "Face must be clearly visible" ];
    PassportStandard.mk "india" "India" "IN" 35 45 50 70 55 "#FFFFFF"
      [ "White background only"; "80% face coverage";
        "No border around photo" ];
    PassportStandard.mk "china" "China" "CN" 33 48 62 73 50 "#FFFFFF"
      [ "Ears must be visible"; "No head covering";
        "Natural complexion required" ];
    PassportStandard.mk "canada" "Canada" "CA" 50 70 45 56 55 "#FFFFFF"
      [ "White or light-colored background"; "Neutral expression";
        "Both eyes clearly visible" ];
    PassportStandard.mk "australia" "Australia" "AU" 35 45 60 75 55 "#FFFFFF"
      [ "Plain light background"; "Head centered in frame";
        "Glasses allowed if eyes visible" ];
    PassportStandard.mk "japan" "Japan" "JP" 35 45 60 70 55 "#FFFFFF"
      [ "White background only"; "No shadows on face";
        "Hair should not cover forehead" ];
    PassportStandard.mk "germany" "Germany" "DE" 35 45 70 80 60 "#F5F5F5"
      [ "Light grey background preferred"; "Biometric compliant";
        "Face 70-80% of photo height" ];
    PassportStandard.mk "france" "France" "FR" 35 45 70 80 60 "#E8E8E8"
      [ "Light blue-grey background accepted"; "Neutral expression required";
        "No smiling" ] ]%string.

(** The inch mark of the two imperial sheet names. *)
Definition inchMark : string := String (Ascii.ascii_of_nat 34) EmptyString.

Definition sheetSizes : list SheetSize :=
  [ SheetSize.mk "4x6" ("4" ++ inchMark ++ " × 6" ++ inchMark) 101.6 152.4 300;
    SheetSize.mk "5x7" ("5" ++ inchMark ++ " × 7" ++ inchMark) 127 177.8 300;
    SheetSize.mk "a4" "A4" 210 297 300;
    SheetSize.mk "letter" "US Letter" 215.9 279.4 300;
    SheetSize.mk "a5" "A5" 148 210 300 ]%string.

Definition findStandard (key : string) : option PassportStandard :=
  find (fun s => String.eqb (PassportStandard.id s) key) passportStandards.

Definition findSheet (key : string) : option SheetSize :=
  find (fun s => String.eqb (SheetSize.id s) key) sheetSizes.

Record PhotosPerSheet : Type := mkPhotosPerSheet {
  columns : number;
  rows : number;
  total : number
}.

Definition calculatePhotosPerSheet
    (photoWidth photoHeight : number) (sheet : SheetSize)
    (marginMm gapMm : option number) : outcome PhotosPerSheet :=
  let marginMm := orDefault 5 marginMm in
  let gapMm := orDefault 2 gapMm in
  let usableWidth := SheetSize.width sheet - 2 * marginMm in
  let usableHeight := SheetSize.height sheet - 2 * marginMm in
  let columns := Math_floor ((usableWidth + gapMm) / (photoWidth + gapMm)) in
  let rows := Math_floor ((usableHeight + gapMm) / (photoHeight + gapMm)) in
  Returns (mkPhotosPerSheet columns rows (columns * rows)).

Definition mmToPixels (mm : number) (dpi : option number) : outcome number :=
  let dpi := orDefault 300 dpi in
  Returns (Math_round ((mm / 25.4) * dpi)).

Definition pixelsToMm (pixels : number) (dpi : option number) : outcome number :=
  let dpi := orDefault 300 dpi in
  Returns ((pixels * 25.4) / dpi).

(* ================================================================== *)
(** * src/hooks/useFaceDetection.ts *)
(* ================================================================== *)

Record FaceBox : Type := mkFaceBox {
  xmin : number;
  ymin : number;
  xmax : number;
  ymax : number
}.

Record DetectedFace : Type := mkDetectedFace {
  box : FaceBox;
  score : number
}.

Record FaceValidation : Type := mkFaceValidation {
  isValid : bool;
  headHeightValid : bool;
  eyeLineValid : bool;
  centeredValid : bool;
  headHeightPercent : number;
  eyeLinePercent : number;
  centerOffset : number;
  messages : list string
}.

(** The state cells of the hook ([useState]). *)
Record HookState : Type := mkHookState {
  isLoading : bool;
  isModelLoading : bool;
  loadingProgress : number;
  detectedFace : option DetectedFace;
  validation : option FaceValidation;
  error : option string
}.

Definition setValidation (v : FaceValidation) (s : HookState) : HookState :=
  mkHookState (isLoading s) (isModelLoading s) (loadingProgress s)
    (detectedFace s) (Some v) (error s).

Definition msgTooSmall : string := "Face is too small. Zoom in or move closer.".
Definition msgTooLarge : string := "Face is too large. Zoom out or move back.".
Definition msgEyesLow : string := "Eyes are too low. Move the photo up.".
Definition msgEyesHigh : string := "Eyes are too high. Move the photo down.".
Definition msgNotCentered : string := "Face is not centered. Adjust horizontally.".
Definition msgSuccess : string := "Photo meets passport requirements!".

(** [messages.push(m)] *)
Definition push (messages : list string) (m : string) : list string :=
  messages ++ [m].

Definition validateFace
    (face : DetectedFace) (imageWidth imageHeight : number)
    (standard : PassportStandard) (st : HookState)
    : outcome (FaceValidation * HookState) :=
  let box := box face in
  let faceHeight := ymax box - ymin box in
  let faceCenterX := (xmin box + xmax box) / 2 in
  (* Calculate head height as percentage of image height *)
  let headHeightPercent := (faceHeight / imageHeight) * 100 in
  (* Estimate eye line position (approximately 35% from top of face) *)
  let eyeY := ymin box + faceHeight * 0.35 in
  let eyeLinePercent := ((imageHeight - eyeY) / imageHeight) * 100 in
  (* Calculate center offset as percentage *)
  let imageCenterX := imageWidth / 2 in
  let centerOffset :=
    Math_abs (faceCenterX - imageCenterX) / imageWidth * 100 in
  (* Validate against standard *)
  let headHeightValid :=
    (headHeightPercent >=? PassportStandard.headHeightMin standard * 0.8)
    && (headHeightPercent <=? PassportStandard.headHeightMax standard * 1.2) in
  let eyeLineValid :=
    Math_abs (eyeLinePercent - PassportStandard.eyeLineFromBottom standard)
    <=? 15 in
  let centeredValid := centerOffset <=? 10 in
  let messages : list string := [] in
  let messages :=
    if negb headHeightValid then
      if headHeightPercent <? PassportStandard.headHeightMin standard * 0.8
      then push messages msgTooSmall
      else push messages msgTooLarge
    else messages in
  let messages :=
    if negb eyeLineValid then
      if eyeLinePercent <? PassportStandard.eyeLineFromBottom standard
      then push messages msgEyesLow
      else push messages msgEyesHigh
    else messages in
  let messages :=
    if negb centeredValid then push messages msgNotCentered else messages in
  let messages :=
    if Nat.eqb (length messages) 0 then push messages msgSuccess
    else messages in
  let result :=
    mkFaceValidation (headHeightValid && eyeLineValid && centeredValid)
      headHeightValid eyeLineValid centeredValid
      headHeightPercent eyeLinePercent centerOffset messages in
  Returns (result, setValidation result st).

Record Point : Type := mkPoint { x : number; y : number }.

Record AutoPosition : Type := mkAutoPosition {
  scale : number;
  position : Point
}.

Definition calculateAutoPosition
    (face : DetectedFace) (imageWidth imageHeight : number)
    (canvasWidth canvasHeight : number) (standard : PassportStandard)
    : outcome AutoPosition :=
  let box := box face in
  let faceHeight := ymax box - ymin box in
  let faceCenterX := (xmin box + xmax box) / 2 in
  (* Target head height (middle of the allowed range) *)
  let targetHeadPercent :=
    (PassportStandard.headHeightMin standard
     + PassportStandard.headHeightMax standard) / 2 / 100 in
  let targetHeadHeight := canvasHeight * targetHeadPercent in
  (* Calculate scale needed to fit face to target size *)
  let scale := targetHeadHeight / faceHeight in
  (* Calculate position to center face and align eye line *)
  let scaledImageWidth := imageWidth * scale in
  let scaledImageHeight := imageHeight * scale in
  (* Position face center at canvas center horizontally *)
  let scaledFaceCenterX := faceCenterX * scale in
  let targetCenterX := canvasWidth / 2 in
  let offsetX := targetCenterX - scaledFaceCenterX in
  (* Position eye line at the required percentage from bottom *)
  let eyeY := ymin box + faceHeight * 0.35 in
  let scaledEyeY := eyeY * scale in
  let targetEyeY :=
    canvasHeight * (1 - PassportStandard.eyeLineFromBottom standard / 100) in
  let offsetY := targetEyeY - scaledEyeY in
  (* Adjust for canvas centering *)
  let baseX := (canvasWidth - scaledImageWidth) / 2 in
  let baseY := (canvasHeight - scaledImageHeight) / 2 in
  Returns
    (mkAutoPosition scale
       (mkPoint (offsetX - baseX + (canvasWidth - scaledImageWidth) / 2)
                (offsetY - baseY + (canvasHeight - scaledImageHeight) / 2))).

(* ================================================================== *)
(** * src/components/PhotoEditor.tsx *)
(* ================================================================== *)

Definition canvasSize : number := 400.

Definition aspectRatio (standard : PassportStandard) : number :=
  PassportStandard.width standard / PassportStandard.height standard.

Definition canvasWidth (standard : PassportStandard) : number :=
  if aspectRatio standard >=? 1 then canvasSize
  else canvasSize * aspectRatio standard.

Definition canvasHeight (standard : PassportStandard) : number :=
  if aspectRatio standard >=? 1 then canvasSize / aspectRatio standard
  else canvasSize.

(** Where [drawCanvas] puts the image: the top-left corner handed to
    [ctx.drawImage], for a canvas of the given size and the current [scale]
    and [position] of the editor. *)
Definition drawCanvas_origin
    (canvas_width canvas_height image_width image_height : number)
    (scale : number) (position : Point) : Point :=
  let imgWidth := image_width * scale in
  let imgHeight := image_height * scale in
  mkPoint ((canvas_width - imgWidth) / 2 + x position)
          ((canvas_height - imgHeight) / 2 + y position).

(** The canvas point at which an image pixel [(u, v)] is drawn, as
    [drawCanvas] computes it for the corners of the face box
    ([x + box.xmin * scale], [y + box.ymin * scale]). *)
Definition drawCanvas_point (origin : Point) (scale u v : number) : Point :=
  mkPoint (x origin + u * scale) (y origin + v * scale).

(** [handleAutoCenter] followed by [drawCanvas]: the canvas point at which
    the image pixel [(u, v)] appears once the solver's scale and position
    have been stored in the editor. *)
Definition autoCentered_point
    (face : DetectedFace) (image_width image_height : number)
    (canvas_width canvas_height : number) (standard : PassportStandard)
    (u v : number) : outcome Point :=
  let* autoPos :=
    calculateAutoPosition face image_width image_height
      canvas_width canvas_height standard in
  Returns
    (drawCanvas_point
       (drawCanvas_origin canvas_width canvas_height image_width image_height
          (scale autoPos) (position autoPos))
       (scale autoPos) u v).

(* ================================================================== *)
(** * src/components/SheetPreview.tsx *)
(* ================================================================== *)

Definition previewScale : number := 0.5.
Definition marginMm : number := 5.
Definition gapMm : number := 2.

(** The values taken by [i] in [for (let i = 0; i < n; i++)]: none when [n]
    is not above zero or is [NaN], [0 .. ceil(n) - 1] for a finite [n], and
    no result ([None]) for [+Infinity], where the loop does not end. *)
Definition loopIndices (n : number) : option (list Z) :=
  match n with
  | Num q => Some (map Z.of_nat (seq 0 (Z.to_nat (Qceiling q))))
  | NegInf | NaN => Some []
  | PosInf => None
  end.

(** A [for] loop whose body appends to a drawing list; the body may itself
    not end. *)
Fixpoint collect {A : Type} (indices : list Z) (body : Z -> option (list A))
    : option (list A) :=
  match indices with
  | [] => Some []
  | i :: rest =>
      match body i with
      | Some first =>
          match collect rest body with
          | Some others => Some (first ++ others)
          | None => None
          end
      | None => None
      end
  end.

Definition forLoop {A : Type} (n : number) (body : Z -> option (list A))
    : option (list A) :=
  match loopIndices n with
  | Some indices => collect indices body
  | None => None
  end.

(** One [ctx.drawImage(img, x, y, photoWidthPx, photoHeightPx)] of the grid. *)
Record Cell : Type := mkCell {
  cellCol : Z;
  cellRow : Z;
  cellX : number;
  cellY : number;
  cellWidth : number;
  cellHeight : number
}.

(** The layout the component computes once, at render, for both modes. *)
Definition sheetLayout (standard : PassportStandard) (sheet : SheetSize)
    : outcome PhotosPerSheet :=
  calculatePhotosPerSheet
    (PassportStandard.width standard) (PassportStandard.height standard)
    sheet (Some marginMm) (Some gapMm).

(** The photo grid of [drawSheet(exportMode)]: the cells in drawing order,
    row by row; [None] when a loop does not end. *)
Definition drawSheet
    (standard : PassportStandard) (sheet : SheetSize) (exportMode : bool)
    : outcome (option (list Cell)) :=
  let* layout := sheetLayout standard sheet in
  let dpi := SheetSize.dpi sheet in
  let scale := if exportMode then Num 1 else previewScale in
  let* photoWidthRaw := mmToPixels (PassportStandard.width standard) (Some dpi) in
  let* photoHeightRaw := mmToPixels (PassportStandard.height standard) (Some dpi) in
  let* marginRaw := mmToPixels marginMm (Some dpi) in
  let* gapRaw := mmToPixels gapMm (Some dpi) in
  let photoWidthPx := photoWidthRaw * scale in
  let photoHeightPx := photoHeightRaw * scale in
  let marginPx := marginRaw * scale in
  let gapPx := gapRaw * scale in
  Returns
    (forLoop (rows layout) (fun row =>
     forLoop (columns layout) (fun col =>
       let x := marginPx + Num (inject_Z col) * (photoWidthPx + gapPx) in
       let y := marginPx + Num (inject_Z row) * (photoHeightPx + gapPx) in
       Some [mkCell col row x y photoWidthPx photoHeightPx]))).

(** The grid topology of a drawing: which (column, row) cells it fills. *)
Definition topology (cells : list Cell) : list (Z * Z) :=
  map (fun c => (cellCol c, cellRow c)) cells.

(** The photo grid of [handleDownload], the high-resolution export: the
    same loops over the same [rows] and [columns], on pixel values that are
    not scaled. *)
Definition handleDownload
    (standard : PassportStandard) (sheet : SheetSize)
    : outcome (option (list Cell)) :=
  let* layout := sheetLayout standard sheet in
  let dpi := SheetSize.dpi sheet in
  let* photoWidthPx := mmToPixels (PassportStandard.width standard) (Some dpi) in
  let* photoHeightPx := mmToPixels (PassportStandard.height standard) (Some dpi) in
  let* marginPx := mmToPixels marginMm (Some dpi) in
  let* gapPx := mmToPixels gapMm (Some dpi) in
  Returns
    (forLoop (rows layout) (fun row =>
     forLoop (columns layout) (fun col =>
       let x := marginPx + Num (inject_Z col) * (photoWidthPx + gapPx) in
       let y := marginPx + Num (inject_Z row) * (photoHeightPx + gapPx) in
       Some [mkCell col row x y photoWidthPx photoHeightPx]))).

Definition topologyOf (drawing : outcome (option (list Cell)))
    : outcome (option (list (Z * Z))) :=
  let* cells := drawing in
  Returns (option_map topology cells).

(** The (column, row) pairs visited by the two nested loops of the grid. *)
Definition gridIndices (rows columns : number) : option (list (Z * Z)) :=
  forLoop rows (fun row => forLoop columns (fun col => Some [(col, row)])).

(** The first entry of the catalogue, the default selection of the page. *)
Definition usStandard : PassportStandard :=
  hd (PassportStandard.mk EmptyString EmptyString EmptyString 0 0 0 0 0
        EmptyString [])
     passportStandards.

(** The A4 entry of the sheet catalogue. *)
Definition a4Sheet : SheetSize :=
  nth 2 sheetSizes (SheetSize.mk EmptyString EmptyString 0 0 0).

(** What clamping the layout would mean for one call: it returns, its three
    counts are at least zero, and a usable width below the photo width
    gives no column and no photo. *)
Definition layoutClamped
    (photoWidth photoHeight : number) (sheet : SheetSize)
    (margin gap : number) : Prop :=
  exists r : PhotosPerSheet,
    calculatePhotosPerSheet photoWidth photoHeight sheet
      (Some margin) (Some gap) = Returns r
    /\ (columns r >=? 0) = true
    /\ (rows r >=? 0) = true
    /\ (total r >=? 0) = true
    /\ ((SheetSize.width sheet - 2 * margin <? photoWidth) = true ->
        columns r === 0 /\ total r === 0).

(** What a dpi precondition would mean for one pair of calls: both
    converters fail with [InvalidArgument]. *)
Definition rejectsDpi (mm pixels dpi : number) : Prop :=
  mmToPixels mm (Some dpi) = Throws InvalidArgument
  /\ pixelsToMm pixels (Some dpi) = Throws InvalidArgument.

(** The two image points the solver aims: the centre of the face box and
    the eye line, 35% down from its top. *)
Definition faceCenterX (face : DetectedFace) : number :=
  (xmin (box face) + xmax (box face)) / 2.

Definition eyeLineY (face : DetectedFace) : number :=
  ymin (box face) + (ymax (box face) - ymin (box face)) * 0.35.

(** Where the alignment is meant to put them on the canvas. *)
Definition targetCenterX (canvas_width : number) : number := canvas_width / 2.

Definition targetEyeY (canvas_height : number) (standard : PassportStandard)
    : number :=
  canvas_height * (1 - PassportStandard.eyeLineFromBottom standard / 100).

(** The alignment reaches its target: after [handleAutoCenter], [drawCanvas]
    shows the face centre and the eye line at the target point. *)
Definition landsOnTarget
    (face : DetectedFace) (image_width image_height : number)
    (canvas_width canvas_height : number) (standard : PassportStandard)
    : Prop :=
  exists p : Point,
    autoCentered_point face image_width image_height
      canvas_width canvas_height standard (faceCenterX face) (eyeLineY face)
    = Returns p
    /\ x p === targetCenterX canvas_width
    /\ y p === targetEyeY canvas_height standard.

(** What a guard on degenerate boxes would mean for one call. *)
Definition rejectsDegenerate
    (face : DetectedFace) (image_width image_height : number)
    (canvas_width canvas_height : number) (standard : PassportStandard)
    : Prop :=
  calculateAutoPosition face image_width image_height
    canvas_width canvas_height standard
  = Throws DegenerateGeometry.

(** The invariant of a standard in the data model:
    [0 < headHeightMin < headHeightMax <= 100] and
    [0 < eyeLineFromBottom < 100], with a positive width and height. *)
Definition validStandard (standard : PassportStandard) : bool :=
  (0 <? PassportStandard.headHeightMin standard)
  && (PassportStandard.headHeightMin standard
      <? PassportStandard.headHeightMax standard)
  && (PassportStandard.headHeightMax standard <=? 100)
  && (0 <? PassportStandard.eyeLineFromBottom standard)
  && (PassportStandard.eyeLineFromBottom standard <? 100)
  && (0 <? PassportStandard.width standard)
  && (0 <? PassportStandard.height standard).

(** Sample detections in a 200 x 200 image: a face box 100 pixels high,
    and one of height zero. *)
Definition sampleFace : DetectedFace :=
  mkDetectedFace (mkFaceBox 50 20 150 120) 0.9.

Definition flatFace : DetectedFace :=
  mkDetectedFace (mkFaceBox 50 20 150 20) 0.9.

(* ================================================================== *)
(** * Further code of the same files *)
(* ================================================================== *)

(** [Math.max] and [Math.min] of two arguments: [NaN] when either is. *)
Definition Math_max (a b : number) : number :=
  match a, b with
  | NaN, _ | _, NaN => NaN
  | _, _ => if a <? b then b else a
  end.

Definition Math_min (a b : number) : number :=
  match a, b with
  | NaN, _ | _, NaN => NaN
  | _, _ => if b <? a then b else a
  end.

(** [handleChange] of [CountrySelector] and of [SheetSizeSelector], with
    [onChange] bound to the setter of the page's selection: the entry found
    under the id becomes the selection, and an id that is not found leaves
    it as it was. *)
Definition CountrySelector_handleChange
    (id : string) (selectedStandard : PassportStandard) : PassportStandard :=
  match findStandard id with
  | Some standard => standard
  | None => selectedStandard
  end.

Definition SheetSizeSelector_handleChange
    (id : string) (selectedSheet : SheetSize) : SheetSize :=
  match findSheet id with
  | Some sheet => sheet
  | None => selectedSheet
  end.

(** ** useFaceDetection.ts: loading the detector and detecting a face *)

Module Detection.
(** One entry of the detector's result list. *)
Record t : Type := mk {
  box : FaceBox;
  label : string;
  score : number
}.
End Detection.
Abbreviation Detection := Detection.t.

(** The detector the pipeline resolves to: called on an image source, it
    gives its list of detections or fails. *)
Definition Detector : Type := string -> outcome (list Detection).

Definition setIsLoading (b : bool) (s : HookState) : HookState :=
  mkHookState b (isModelLoading s) (loadingProgress s)
    (detectedFace s) (validation s) (error s).

Definition setIsModelLoading (b : bool) (s : HookState) : HookState :=
  mkHookState (isLoading s) b (loadingProgress s)
    (detectedFace s) (validation s) (error s).

Definition setLoadingProgress (p : number) (s : HookState) : HookState :=
  mkHookState (isLoading s) (isModelLoading s) p
    (detectedFace s) (validation s) (error s).

Definition setDetectedFace (f : option DetectedFace) (s : HookState)
    : HookState :=
  mkHookState (isLoading s) (isModelLoading s) (loadingProgress s)
    f (validation s) (error s).

Definition setError (e : option string) (s : HookState) : HookState :=
  mkHookState (isLoading s) (isModelLoading s) (loadingProgress s)
    (detectedFace s) (validation s) e.

Definition msgNoFace : string :=
  "No face detected. Please ensure your face is clearly visible.".
Definition msgDetectFailed : string :=
  "Failed to detect face. Please try again.".

(** [getDetector]: the module-level [detectorPromise] ([None] for [null],
    otherwise the settled promise) is created on the first call from what
    the pipeline gives, [pipelineResult], and returned as it is on every
    later call.  The value is what awaiting the returned promise gives.
    The progress callbacks, which only move [loadingProgress] while the
    model loads, are left out: the [finally] block sets it to 100. *)
Definition getDetector
    (pipelineResult : outcome Detector)
    (detectorPromise : option (outcome Detector)) (st : HookState)
    : outcome Detector * option (outcome Detector) * HookState :=
  match detectorPromise with
  | None =>
      let st := setIsModelLoading true st in
      let st := setLoadingProgress 0 st in
      let detectorPromise := Some pipelineResult in
      let st := setIsModelLoading false st in
      let st := setLoadingProgress 100 st in
      (pipelineResult, detectorPromise, st)
  | Some promise => (promise, detectorPromise, st)
  end.

(** Estimate of the face region from a person detection (upper portion). *)
Definition estimateFaceBox (personBox : FaceBox) : FaceBox :=
  mkFaceBox
    (xmin personBox + (xmax personBox - xmin personBox) * 0.2)
    (ymin personBox)
    (xmax personBox - (xmax personBox - xmin personBox) * 0.2)
    (ymin personBox + (ymax personBox - ymin personBox) * 0.4).

(** [array.reduce(f)] without an initial value, on an array that is not
    empty. *)
Definition reduce {A : Type} (f : A -> A -> A) (first : A) (rest : list A) : A :=
  fold_left f rest first.

(** The filter of [detectFace]: a "person" detection scoring above 0.7. *)
Definition isConfidentPerson (r : Detection) : bool :=
  String.eqb (Detection.label r) "person" && (Detection.score r >? 0.7).

(** The body of [detectFace] once the detector has answered. *)
Definition selectFace (results : list Detection) (st : HookState)
    : option DetectedFace * HookState :=
  (* Find person detections (DETR detects "person" class) *)
  let personDetections :=
    filter
      (fun r => String.eqb (Detection.label r) "person"
                && (Detection.score r >? 0.7))
      results in
  match personDetections with
  | [] =>
      (* Fallback: look for any high-confidence detection *)
      match find (fun r => Detection.score r >? 0.5) results with
      | Some anyDetection =>
          let face :=
            mkDetectedFace (Detection.box anyDetection)
              (Detection.score anyDetection) in
          (Some face, setDetectedFace (Some face) st)
      | None => (None, setError (Some msgNoFace) st)
      end
  | first :: rest =>
      (* Use the highest confidence person detection *)
      let bestPerson :=
        reduce
          (fun a b => if Detection.score a >? Detection.score b then a else b)
          first rest in
      let face :=
        mkDetectedFace (estimateFaceBox (Detection.box bestPerson))
          (Detection.score bestPerson) in
      (Some face, setDetectedFace (Some face) st)
  end.

(** What the two awaits of [detectFace] give: the detector, then its
    answer on the image. *)
Definition detectorAnswer
    (pipelineResult : outcome Detector)
    (detectorPromise : option (outcome Detector)) (imageSrc : string)
    : outcome (list Detection) :=
  let* detector :=
    match detectorPromise with
    | None => pipelineResult
    | Some promise => promise
    end in
  detector imageSrc.

Definition detectFace
    (pipelineResult : outcome Detector) (imageSrc : string)
    (detectorPromise : option (outcome Detector)) (st : HookState)
    : option DetectedFace * option (outcome Detector) * HookState :=
  let st := setIsLoading true st in
  let st := setError None st in
  let '(awaited, detectorPromise, st) :=
    getDetector pipelineResult detectorPromise st in
  let '(face, st) :=
    match (let* detector := awaited in detector imageSrc) with
    | Returns results => selectFace results st
    | Throws _ => (None, setError (Some msgDetectFailed) st)
    end in
  (face, detectorPromise, setIsLoading false st).

(** Sample data: a hook that has done nothing yet, a person and a cat as
    the detector might report them, and detectors that answer with them. *)
Definition idleState : HookState := mkHookState false false 0 None None None.

Definition samplePerson : Detection :=
  Detection.mk (mkFaceBox 100 40 300 540) "person" 0.98.

Definition faintPerson : Detection :=
  Detection.mk (mkFaceBox 120 50 280 500) "person" 0.75.

Definition sampleCat : Detection :=
  Detection.mk (mkFaceBox 10 10 60 60) "cat" 0.6.

Definition personDetector : Detector :=
  fun _ => Returns [sampleCat; faintPerson; samplePerson].

Definition catDetector : Detector := fun _ => Returns [sampleCat].

Definition failingDetector : Detector := fun _ => Throws ModelUnavailable.

(** ** Measurements of the validator and drawing of the face box *)

(** The three measurements of [validateFace] for a finite face box in an
    image of finite size, as rational expressions. *)
Definition headHeightPercentOf (top bottom imageHeight : Q) : Q :=
  (bottom - top) / imageHeight * 100.

Definition eyeLinePercentOf (top bottom imageHeight : Q) : Q :=
  (imageHeight - (top + (bottom - top) * 0.35)) / imageHeight * 100.

Definition centerOffsetOf (left right imageWidth : Q) : Q :=
  Qabs ((left + right) / 2 - imageWidth / 2) / imageWidth * 100.

(** The rectangle [drawCanvas] strokes for the detected face: the box of
    the detection mapped through the placement of the image. *)
Record Rect : Type := mkRect {
  rectX : number;
  rectY : number;
  rectWidth : number;
  rectHeight : number
}.

Definition drawCanvas_faceBox (origin : Point) (scale : number) (box : FaceBox)
    : Rect :=
  let boxX := x origin + xmin box * scale in
  let boxY := y origin + ymin box * scale in
  let boxWidth := (xmax box - xmin box) * scale in
  let boxHeight := (ymax box - ymin box) * scale in
  mkRect boxX boxY boxWidth boxHeight.

(** The face box as [drawCanvas] shows it after [handleAutoCenter].  The
    solver is given [canvasWidth] and [canvasHeight] as the component
    computes them; [drawCanvas] reads [canvas.width] and [canvas.height]
    of the canvas element, which holds whole numbers and so differs from
    them when they are not whole. *)
Definition autoCentered_faceBox
    (face : DetectedFace) (image_width image_height : number)
    (canvas_width canvas_height : number)
    (element_width element_height : number) (standard : PassportStandard)
    : outcome Rect :=
  let* autoPos :=
    calculateAutoPosition face image_width image_height
      canvas_width canvas_height standard in
  Returns
    (drawCanvas_faceBox
       (drawCanvas_origin element_width element_height
          image_width image_height (scale autoPos) (position autoPos))
       (scale autoPos) (box face)).


Definition scaleFace (k : number) (face : DetectedFace) : DetectedFace :=
  mkDetectedFace
    (mkFaceBox (k * xmin (box face)) (k * ymin (box face))
       (k * xmax (box face)) (k * ymax (box face)))
    (score face).

(** ** PhotoEditor.tsx: the state of the editor and its handlers *)

Module Image.
(** The loaded [HTMLImageElement], by its size in pixels. *)
Record t : Type := mk {
  width : number;
  height : number
}.
End Image.
Abbreviation Image := Image.t.

Module Editor.
Record t : Type := mk {
  image : option Image;
  scale : number;
  position : Point;
  isDragging : bool;
  dragStart : Point;
  showFaceBox : bool
}.
End Editor.
Abbreviation Editor := Editor.t.

(** The state before the image has loaded ([useState] initial values). *)
Definition initialEditor : Editor :=
  Editor.mk None 1 (mkPoint 0 0) false (mkPoint 0 0) false.

Definition initialScale (standard : PassportStandard) (img : Image) : number :=
  let scaleX := canvasWidth standard / Image.width img in
  let scaleY := canvasHeight standard / Image.height img in
  Math_max scaleX scaleY * 1.2.

(** [img.onload] of the loading effect. *)
Definition onload (standard : PassportStandard) (img : Image) (e : Editor)
    : Editor :=
  Editor.mk (Some img) (initialScale standard img) (mkPoint 0 0)
    (Editor.isDragging e) (Editor.dragStart e) (Editor.showFaceBox e).


(** The pointer handlers; [client] is [(e.clientX, e.clientY)], or the
    first touch for the touch handlers, which do the same. *)
Definition handleMouseDown (client : Point) (e : Editor) : Editor :=
  Editor.mk (Editor.image e) (Editor.scale e) (Editor.position e) true
    (mkPoint (x client - x (Editor.position e))
             (y client - y (Editor.position e)))
    (Editor.showFaceBox e).

Definition handleMouseMove (client : Point) (e : Editor) : Editor :=
  if negb (Editor.isDragging e) then e
  else
    Editor.mk (Editor.image e) (Editor.scale e)
      (mkPoint (x client - x (Editor.dragStart e))
               (y client - y (Editor.dragStart e)))
      (Editor.isDragging e) (Editor.dragStart e) (Editor.showFaceBox e).

Definition handleMouseUp (e : Editor) : Editor :=
  Editor.mk (Editor.image e) (Editor.scale e) (Editor.position e) false
    (Editor.dragStart e) (Editor.showFaceBox e).

(** The zoom buttons and the slider. *)
Definition setScale (f : number -> number) (e : Editor) : Editor :=
  Editor.mk (Editor.image e) (f (Editor.scale e)) (Editor.position e)
    (Editor.isDragging e) (Editor.dragStart e) (Editor.showFaceBox e).

Definition zoomOut (e : Editor) : Editor :=
  setScale (fun s => Math_max 0.5 (s - 0.1)) e.

Definition zoomIn (e : Editor) : Editor :=
  setScale (fun s => Math_min 3 (s + 0.1)) e.


(** A drag gesture: the button goes down at one point, the pointer moves
    through some others, and the button may come up. *)
Definition dragThrough (down : Point) (moves : list Point) (e : Editor)
    : Editor :=
  fold_left (fun ed client => handleMouseMove client ed) moves
    (handleMouseDown down e).

(** ** SheetPreview.tsx: relations between drawings *)

(** The integers from 0 up to, and without, [n]. *)
Definition range (n : Z) : list Z := map Z.of_nat (seq 0 (Z.to_nat n)).

(** Cell [a] is cell [b] drawn [k] times as large: same grid place, and
    every pixel value multiplied by [k]. *)
Definition scaledCell (k : Q) (a b : Cell) : Prop :=
  cellCol a = cellCol b /\ cellRow a = cellRow b
  /\ cellX a === Num k * cellX b /\ cellY a === Num k * cellY b
  /\ cellWidth a === Num k * cellWidth b
  /\ cellHeight a === Num k * cellHeight b.

(** Two cells with finite pixel values whose rectangles have no inner
    point in common: one ends where, or before, the other begins. *)
Definition apart (a b : Cell) : Prop :=
  exists ax ay aw ah bx by' bw bh : Q,
    cellX a = Num ax /\ cellY a = Num ay
    /\ cellWidth a = Num aw /\ cellHeight a = Num ah
    /\ cellX b = Num bx /\ cellY b = Num by'
    /\ cellWidth b = Num bw /\ cellHeight b = Num bh
    /\ (ax + aw <= bx \/ bx + bw <= ax \/ ay + ah <= by' \/ by' + bh <= ay).

(** A cell with finite pixel values that lies on a sheet of the given
    pixel size. *)
Definition onSheet (sheetWidthPx sheetHeightPx : Q) (a : Cell) : Prop :=
  exists ax ay aw ah : Q,
    cellX a = Num ax /\ cellY a = Num ay
    /\ cellWidth a = Num aw /\ cellHeight a = Num ah
    /\ 0 <= ax /\ ax + aw <= sheetWidthPx
    /\ 0 <= ay /\ ay + ah <= sheetHeightPx.

(** The pixel count [mmToPixels] gives for a finite length and dpi. *)
Definition pixelsOf (mm dpi : Q) : Q := inject_Z (Qfloor (mm / 25.4 * dpi + 0.5)).

(** The cell of the grid at a column and row, for given pixel sizes. *)
Definition gridCell (marginPx photoWidthPx photoHeightPx gapPx : Q)
    (col row : Z) : Cell :=
  mkCell col row
    (Num (marginPx + inject_Z col * (photoWidthPx + gapPx)))
    (Num (marginPx + inject_Z row * (photoHeightPx + gapPx)))
    (Num photoWidthPx) (Num photoHeightPx).

Definition gridCells (marginPx photoWidthPx photoHeightPx gapPx : Q)
    (columns rows : Z) : list Cell :=
  flat_map
    (fun row =>
       flat_map
         (fun col => [gridCell marginPx photoWidthPx photoHeightPx gapPx col row])
         (range columns))
    (range rows).

(** ** useBackgroundRemoval.ts *)

Definition MAX_IMAGE_DIMENSION : number := 1024.

(** [resizeImageIfNeeded]: the size given to the canvas on which the image
    is drawn for the segmentation model, and whether the image was
    resized. *)
Definition resizeImageIfNeeded (image : Image) : bool * Image :=
  let width := Image.width image in
  let height := Image.height image in
  if (width >? MAX_IMAGE_DIMENSION) || (height >? MAX_IMAGE_DIMENSION) then
    if width >? height then
      let height := Math_round ((height * MAX_IMAGE_DIMENSION) / width) in
      let width := MAX_IMAGE_DIMENSION in
      (true, Image.mk width height)
    else
      let width := Math_round ((width * MAX_IMAGE_DIMENSION) / height) in
      let height := MAX_IMAGE_DIMENSION in
      (true, Image.mk width height)
  else (false, Image.mk width height).

(** Rounding to the nearest integer, ties to the even one, as a store into
    a [Uint8ClampedArray] rounds. *)
Definition roundHalfEven (q : Q) : Z :=
  let f := Qfloor q in
  match (q - inject_Z f ?= 0.5)%Q with
  | Lt => f
  | Gt => (f + 1)%Z
  | Eq => if Z.even f then f else (f + 1)%Z
  end.

(** A store into a [Uint8ClampedArray] ([ImageData.data]): [NaN] becomes
    0, everything else is clamped to 0 .. 255 and rounded. *)
Definition toUint8Clamped (v : number) : Z :=
  match v with
  | NaN | NegInf => 0
  | PosInf => 255
  | Num q =>
      if Qle_bool q 0 then 0
      else if Qle_bool 255 q then 255
      else roundHalfEven q
  end.

(** The alpha byte written for one value of the mask:
    [maskImageData.data[i * 4 + 3] = Math.round(mask.data[i] * 255)]. *)
Definition maskAlpha (maskValue : number) : Z :=
  toUint8Clamped (Math_round (maskValue * 255)).

(** ** The page (Index): the three steps and their handlers *)

Inductive Step : Type := upload | edit | export.

Module Page.
Record t : Type := mk {
  step : Step;
  originalImage : option string;
  croppedImage : option string;
  selectedStandard : PassportStandard;
  selectedSheet : SheetSize
}.
End Page.
Abbreviation Page := Page.t.

(** The page as it is first rendered; the catalogues are not empty, so
    their first entries exist. *)
Definition initialPage : Page :=
  Page.mk upload None None usStandard
    (hd a4Sheet sheetSizes).

(** [preview] is the [reader.result] that the uploader hands over when
    the read of the file has ended: the data URL, or [null] after a read
    that failed. *)
Definition handleImageSelect (preview : option string) (p : Page) : Page :=
  Page.mk edit preview (Page.croppedImage p)
    (Page.selectedStandard p) (Page.selectedSheet p).

Definition handleCropComplete (cropped : string) (p : Page) : Page :=
  Page.mk export (Page.originalImage p) (Some cropped)
    (Page.selectedStandard p) (Page.selectedSheet p).

Definition handleBack (p : Page) : Page :=
  match Page.step p with
  | edit =>
      Page.mk upload None (Page.croppedImage p)
        (Page.selectedStandard p) (Page.selectedSheet p)
  | export =>
      Page.mk edit (Page.originalImage p) None
        (Page.selectedStandard p) (Page.selectedSheet p)
  | upload => p
  end.

Definition handleStartOver (p : Page) : Page :=
  Page.mk upload None None (Page.selectedStandard p) (Page.selectedSheet p).

Definition setSelectedStandard (s : PassportStandard) (p : Page) : Page :=
  Page.mk (Page.step p) (Page.originalImage p) (Page.croppedImage p)
    s (Page.selectedSheet p).

Definition setSelectedSheet (s : SheetSize) (p : Page) : Page :=
  Page.mk (Page.step p) (Page.originalImage p) (Page.croppedImage p)
    (Page.selectedStandard p) s.

(** A string as a condition: the empty string is false. *)
Definition truthy (s : option string) : bool :=
  match s with
  | Some (String _ _) => true
  | _ => false
  end.

(** What can happen next: each event with the page it leads to.  A click
    is there when the element that takes it is rendered: the editor in the
    edit step with an image, Back outside the upload step, the sheet
    selector in the export step, "Create Another Set" besides the sheet
    preview, and the country selector always.  [handleImageSelect] is
    called from [reader.onloadend] of the uploader, when a read that was
    started in the upload step ends: with the data URL or, after a failed
    read, with [null], and whatever the step is by then. *)
Inductive action : Page -> Page -> Prop :=
| ImageSelect (preview : option string) (p : Page) :
    action p (handleImageSelect preview p)
| CropComplete (cropped : string) (p : Page) :
    Page.step p = edit -> truthy (Page.originalImage p) = true ->
    action p (handleCropComplete cropped p)
| Back (p : Page) :
    Page.step p <> upload -> action p (handleBack p)
| StartOver (p : Page) :
    Page.step p = export -> truthy (Page.croppedImage p) = true ->
    action p (handleStartOver p)
| SelectCountry (id : string) (p : Page) :
    action p
      (setSelectedStandard
         (CountrySelector_handleChange id (Page.selectedStandard p)) p)
| SelectSheet (id : string) (p : Page) :
    Page.step p = export ->
    action p
      (setSelectedSheet
         (SheetSizeSelector_handleChange id (Page.selectedSheet p)) p).

Inductive reachable : Page -> Prop :=
| reachable_initial : reachable initialPage
| reachable_action (p q : Page) : reachable p -> action p q -> reachable q.

(** What every page keeps: no original image in the upload step, an
    original image (not empty) and a cropped image in the export step, and
    selections from the catalogues. *)
Definition pageInvariant (p : Page) : Prop :=
  match Page.step p with
  | upload => Page.originalImage p = None
  | edit => True
  | export =>
      truthy (Page.originalImage p) = true /\ Page.croppedImage p <> None
  end
  /\ In (Page.selectedStandard p) passportStandards
  /\ In (Page.selectedSheet p) sheetSizes.

(** ** PhotoEditor.tsx: the two detection buttons *)

Definition setShowFaceBox (b : bool) (e : Editor) : Editor :=
  Editor.mk (Editor.image e) (Editor.scale e) (Editor.position e)
    (Editor.isDragging e) (Editor.dragStart e) b.

(** A call of [validateFace] whose report the handler does not use. *)
Definition revalidate
    (face : DetectedFace) (image : Image) (standard : PassportStandard)
    (st : HookState) : HookState :=
  match validateFace face (Image.width image) (Image.height image) standard st with
  | Returns (_, st') => st'
  | Throws _ => st
  end.

(** [handleAutoDetect]: detect, and validate what was detected.  The
    toasts are left out. *)
Definition handleAutoDetect
    (pipelineResult : outcome Detector) (imageSrc : string)
    (standard : PassportStandard)
    (e : Editor) (detectorPromise : option (outcome Detector)) (st : HookState)
    : Editor * option (outcome Detector) * HookState :=
  match Editor.image e with
  | None => (e, detectorPromise, st)
  | Some image =>
      let '(face, detectorPromise, st) :=
        detectFace pipelineResult imageSrc detectorPromise st in
      match face with
      | Some face =>
          let e := setShowFaceBox true e in
          (e, detectorPromise, revalidate face image standard st)
      | None => (e, detectorPromise, st)
      end
  end.

(** [handleAutoCenter]: take the face of the hook state, or detect one;
    move the picture to the solver's scale and position; validate again
    (the callback of [setTimeout], run here at once). *)
Definition handleAutoCenter
    (pipelineResult : outcome Detector) (imageSrc : string)
    (standard : PassportStandard)
    (e : Editor) (detectorPromise : option (outcome Detector)) (st : HookState)
    : Editor * option (outcome Detector) * HookState :=
  match Editor.image e with
  | None => (e, detectorPromise, st)
  | Some image =>
      let '(face, detectorPromise, st) :=
        match detectedFace st with
        | Some face => (Some face, detectorPromise, st)
        | None => detectFace pipelineResult imageSrc detectorPromise st
        end in
      match face with
      | Some face =>
          match
            calculateAutoPosition face (Image.width image) (Image.height image)
              (canvasWidth standard) (canvasHeight standard) standard
          with
          | Returns autoPos =>
              let e :=
                Editor.mk (Editor.image e) (scale autoPos) (position autoPos)
                  (Editor.isDragging e) (Editor.dragStart e)
                  (Editor.showFaceBox e) in
              let e := setShowFaceBox true e in
              (e, detectorPromise, revalidate face image standard st)
          | Throws _ => (e, detectorPromise, st)
          end
      | None => (e, detectorPromise, st)
      end
  end.

(* ================================================================== *)
(** * Facts about [number] *)
(* ================================================================== *)

Section NumberFacts.

Lemma div_finite (p q : Q) : ~ q == 0 -> Num p / Num q = Num (p / q).
Proof.
  intros Hq. unfold div.
  destruct (Qeq_bool q 0) eqn:E; [ | reflexivity ].
  apply Qeq_bool_eq in E. contradiction.
Qed.

Lemma div_by_zero (p q : Q) : q == 0 -> Num p / Num q = signedInf (p ?= 0).
Proof.
  intros Hq. unfold div.
  destruct (Qeq_bool q 0) eqn:E; [ reflexivity | ].
  apply Qeq_bool_neq in E. contradiction.
Qed.

Lemma leb_finite (p q : Q) : (Num p <=? Num q) = true <-> p <= q.
Proof. apply Qle_bool_iff. Qed.

Lemma ltb_finite (p q : Q) : (Num p <? Num q) = true <-> p < q.
Proof.
  unfold ltb. rewrite Qlt_alt. destruct (p ?= q); split; congruence.
Qed.

Lemma geb_finite (p q : Q) : (Num p >=? Num q) = true <-> q <= p.
Proof. apply leb_finite. Qed.

Lemma leb_finite_false (p q : Q) : (Num p <=? Num q) = false <-> q < p.
Proof.
  split; intros H.
  - apply Qnot_le_lt. intros Hle. apply leb_finite in Hle. congruence.
  - destruct (Num p <=? Num q) eqn:E; [ | reflexivity ].
    apply leb_finite in E. lra.
Qed.

Lemma signedInf_not_finite (c : comparison) : isFinite (signedInf c) = false.
Proof. destruct c; reflexivity. Qed.

Lemma same_refl (a : number) : a === a.
Proof. destruct a; simpl; auto. reflexivity. Qed.

Lemma same_sym (a b : number) : a === b -> b === a.
Proof. destruct a, b; simpl; auto. intros H; symmetry; exact H. Qed.

Lemma same_trans (a b c : number) : a === b -> b === c -> a === c.
Proof.
  destruct a, b, c; simpl; auto; try contradiction.
  intros H1 H2. rewrite H1. exact H2.
Qed.

Lemma sameb_same (a b : number) : sameb a b = true <-> a === b.
Proof.
  destruct a, b; simpl; try (split; [ discriminate | contradiction ]);
    try (split; auto).
  - apply Qeq_bool_eq.
  - apply Qeq_eq_bool.
Qed.

(** The floor of a quotient with a positive divisor. *)
Lemma Qfloor_div_nonneg (a b : Q) : 0 < b -> 0 <= a -> (0 <= Qfloor (a / b))%Z.
Proof.
  intros Hb Ha.
  replace 0%Z with (Qfloor 0) by reflexivity.
  apply Qfloor_resp_le.
  apply Qle_shift_div_l; [ exact Hb | lra ].
Qed.

Lemma Qfloor_div_neg (a b : Q) : 0 < b -> a < 0 -> (Qfloor (a / b) < 0)%Z.
Proof.
  intros Hb Ha.
  assert (H : a / b < 0).
  { apply Qlt_shift_div_r; [ exact Hb | lra ]. }
  pose proof (Qfloor_le (a / b)) as Hf.
  assert (Hz : inject_Z (Qfloor (a / b)) < inject_Z 0)
    by (change (inject_Z 0) with 0; lra).
  rewrite <- Zlt_Qlt in Hz. exact Hz.
Qed.

Lemma Qfloor_div_small (a b : Q) : 0 <= a -> a < b -> Qfloor (a / b) = 0%Z.
Proof.
  intros Ha Hab.
  assert (Hb : 0 < b) by lra.
  pose proof (Qfloor_div_nonneg a b Hb Ha) as Hlo.
  assert (H1 : a / b < 1).
  { apply Qlt_shift_div_r; [ exact Hb | lra ]. }
  pose proof (Qfloor_le (a / b)) as Hf.
  assert (Hz : inject_Z (Qfloor (a / b)) < inject_Z 1)
    by (change (inject_Z 1) with 1; lra).
  rewrite <- Zlt_Qlt in Hz. lia.
Qed.

(** Rounding to the nearest integer moves a number by at most one half. *)
Lemma round_error (p : Q) : Qabs (inject_Z (Qfloor (p + 0.5)) - p) <= 0.5.
Proof.
  pose proof (Qfloor_le (p + 0.5)) as Hlo.
  pose proof (Qlt_floor (p + 0.5)) as Hhi.
  rewrite inject_Z_plus in Hhi. change (inject_Z 1) with 1 in Hhi.
  apply Qabs_Qle_condition. split; lra.
Qed.

End NumberFacts.

(* ================================================================== *)
(** * Sheet layout *)
(* ================================================================== *)

Section SheetLayout.

(** The layout of finite inputs whose photo-plus-gap extents are not zero:
    both counts are the floors the source writes, and the total is their
    product. *)
Lemma calculatePhotosPerSheet_finite
    (sheet : SheetSize) (w h pw ph m g : Q) :
  SheetSize.width sheet = Num w -> SheetSize.height sheet = Num h ->
  ~ pw + g == 0 -> ~ ph + g == 0 ->
  calculatePhotosPerSheet pw ph sheet (Some (Num m)) (Some (Num g)) =
  Returns
    (mkPhotosPerSheet
       (Num (inject_Z (Qfloor ((w - 2 * m + g) / (pw + g)))))
       (Num (inject_Z (Qfloor ((h - 2 * m + g) / (ph + g)))))
       (Num (inject_Z (Qfloor ((w - 2 * m + g) / (pw + g)))
             * inject_Z (Qfloor ((h - 2 * m + g) / (ph + g)))))).
Proof.
  intros Hw Hh Hpw Hph.
  unfold calculatePhotosPerSheet, orDefault. rewrite Hw, Hh.
  cbn [add sub mul neg].
  rewrite (div_finite _ _ Hpw), (div_finite _ _ Hph).
  reflexivity.
Qed.

(** None of the modelled functions has a failing path, whatever the
    inputs are, [NaN] and the infinities included. *)
Lemma calculatePhotosPerSheet_returns
    (pw ph : number) (sheet : SheetSize) (m g : option number) :
  throws (calculatePhotosPerSheet pw ph sheet m g) = false.
Proof. reflexivity. Qed.

Lemma mmToPixels_returns (mm : number) (dpi : option number) :
  throws (mmToPixels mm dpi) = false.
Proof. reflexivity. Qed.

Lemma pixelsToMm_returns (pixels : number) (dpi : option number) :
  throws (pixelsToMm pixels dpi) = false.
Proof. reflexivity. Qed.

Lemma validateFace_returns
    (face : DetectedFace) (iw ih : number) (standard : PassportStandard)
    (st : HookState) :
  throws (validateFace face iw ih standard st) = false.
Proof. reflexivity. Qed.

Lemma calculateAutoPosition_returns
    (face : DetectedFace) (iw ih cw ch : number) (standard : PassportStandard) :
  throws (calculateAutoPosition face iw ih cw ch standard) = false.
Proof. reflexivity. Qed.

(** C9: a 35mm x 45mm photo on the catalogue's A4 sheet (210mm x 297mm)
    with margin 5mm and gap 2mm gives 5 columns, 6 rows and 30 photos in
    total, with the margin and gap passed explicitly or left to their
    defaults. *)
Theorem C9_a4_sheet_layout :
  exists a4 : SheetSize,
    findSheet "a4" = Some a4
    /\ SheetSize.width a4 = Num 210 /\ SheetSize.height a4 = Num 297
    /\ calculatePhotosPerSheet 35 45 a4 (Some (Num 5)) (Some (Num 2))
       = Returns (mkPhotosPerSheet 5 6 30)
    /\ calculatePhotosPerSheet 35 45 a4 None None
       = Returns (mkPhotosPerSheet 5 6 30).
Proof.
  eexists. split; [ reflexivity | ].
  repeat split; vm_compute; reflexivity.
Qed.

(** Loops whose bodies agree draw the same list, and mapping over the
    drawing of a loop is mapping inside its body. *)
Lemma collect_ext {A : Type} (indices : list Z)
    (body1 body2 : Z -> option (list A)) :
  (forall i, body1 i = body2 i) -> collect indices body1 = collect indices body2.
Proof.
  intros Hb. induction indices as [ | i rest IH ]; [ reflexivity | ].
  cbn [collect]. rewrite Hb, IH. reflexivity.
Qed.

Lemma collect_map {A B : Type} (f : A -> B) (indices : list Z)
    (body : Z -> option (list A)) :
  option_map (map f) (collect indices body)
  = collect indices (fun i => option_map (map f) (body i)).
Proof.
  induction indices as [ | i rest IH ]; [ reflexivity | ].
  cbn [collect]. rewrite <- IH.
  destruct (body i) as [first | ]; [ | reflexivity ].
  destruct (collect rest body) as [others | ]; [ | reflexivity ].
  cbn [option_map]. rewrite map_app. reflexivity.
Qed.

Lemma forLoop_ext {A : Type} (n : number) (body1 body2 : Z -> option (list A)) :
  (forall i, body1 i = body2 i) -> forLoop n body1 = forLoop n body2.
Proof.
  intros Hb. unfold forLoop.
  destruct (loopIndices n); [ apply collect_ext, Hb | reflexivity ].
Qed.

Lemma forLoop_map {A B : Type} (f : A -> B) (n : number)
    (body : Z -> option (list A)) :
  option_map (map f) (forLoop n body)
  = forLoop n (fun i => option_map (map f) (body i)).
Proof.
  unfold forLoop. destruct (loopIndices n); [ apply collect_map | reflexivity ].
Qed.

(** The cells [drawSheet] fills depend on the layout only: not on the mode,
    and not on the sheet's dpi; [handleDownload] fills the same ones. *)
Lemma drawSheet_topology_grid
    (standard : PassportStandard) (sheet : SheetSize) (exportMode : bool) :
  topologyOf (drawSheet standard sheet exportMode)
  = let* layout := sheetLayout standard sheet in
    Returns (gridIndices (rows layout) (columns layout)).
Proof.
  unfold topologyOf, drawSheet, sheetLayout, calculatePhotosPerSheet,
    mmToPixels, bind, gridIndices, topology.
  cbv zeta. f_equal.
  rewrite forLoop_map. apply forLoop_ext. intros row.
  rewrite forLoop_map. apply forLoop_ext. intros col.
  reflexivity.
Qed.

Lemma handleDownload_topology_grid
    (standard : PassportStandard) (sheet : SheetSize) :
  topologyOf (handleDownload standard sheet)
  = let* layout := sheetLayout standard sheet in
    Returns (gridIndices (rows layout) (columns layout)).
Proof.
  unfold topologyOf, handleDownload, sheetLayout, calculatePhotosPerSheet,
    mmToPixels, bind, gridIndices, topology.
  cbv zeta. f_equal.
  rewrite forLoop_map. apply forLoop_ext. intros row.
  rewrite forLoop_map. apply forLoop_ext. intros col.
  reflexivity.
Qed.

(** C10: two sheets that agree on width and height in millimetres, whatever
    their dpi, id and name, give the same columns, rows and total; and the
    preview drawing (scale 0.5) of the one fills the same grid cells as the
    export drawing (scale 1) and the high-resolution download of the
    other. *)
Theorem C10_layout_independent_of_dpi
    (photoWidth photoHeight : number) (margin gap : option number)
    (standard : PassportStandard) (s1 s2 : SheetSize) :
  SheetSize.width s1 = SheetSize.width s2 ->
  SheetSize.height s1 = SheetSize.height s2 ->
  calculatePhotosPerSheet photoWidth photoHeight s1 margin gap
  = calculatePhotosPerSheet photoWidth photoHeight s2 margin gap
  /\ topologyOf (drawSheet standard s1 false)
     = topologyOf (drawSheet standard s2 true)
  /\ topologyOf (drawSheet standard s1 false)
     = topologyOf (handleDownload standard s2).
Proof.
  intros Hw Hh.
  assert (Hcalc : forall pw ph m g,
             calculatePhotosPerSheet pw ph s1 m g
             = calculatePhotosPerSheet pw ph s2 m g).
  { intros. unfold calculatePhotosPerSheet. rewrite Hw, Hh. reflexivity. }
  split; [ apply Hcalc | ].
  rewrite !drawSheet_topology_grid, handleDownload_topology_grid.
  unfold sheetLayout. rewrite Hcalc. split; reflexivity.
Qed.

(** A sheet of the catalogue and a copy of it at another dpi and under
    another name: same layout, and the grid that is drawn is the full
    3 x 5 grid of the US photo on A4 in both modes. *)
Lemma C10_witness :
  (calculatePhotosPerSheet 35 45 (SheetSize.mk "a4" "A4" 210 297 300)
     (Some (Num 5)) (Some (Num 2))
   = calculatePhotosPerSheet 35 45 (SheetSize.mk "a4-600" "A4 fine" 210 297 600)
       (Some (Num 5)) (Some (Num 2))
   /\ topologyOf (drawSheet usStandard (SheetSize.mk "a4" "A4" 210 297 300) false)
      = topologyOf
          (drawSheet usStandard (SheetSize.mk "a4-600" "A4 fine" 210 297 600) true)
   /\ topologyOf (drawSheet usStandard (SheetSize.mk "a4" "A4" 210 297 300) false)
      = topologyOf
          (handleDownload usStandard
             (SheetSize.mk "a4-600" "A4 fine" 210 297 600)))
  /\ topologyOf (drawSheet usStandard (SheetSize.mk "a4" "A4" 210 297 300) false)
     = Returns (Some (flat_map (fun r => map (fun c => (c, r)) [0; 1; 2]%Z)
                        [0; 1; 2; 3; 4]%Z)).
Proof.
  split.
  - apply (C10_layout_independent_of_dpi 35 45 (Some (Num 5)) (Some (Num 2))
             usStandard (SheetSize.mk "a4" "A4" 210 297 300)
             (SheetSize.mk "a4-600" "A4 fine" 210 297 600));
      reflexivity.
  - vm_compute. reflexivity.
Defined.

(** C2, refuted as stated: on the A4 sheet with a 110mm margin the usable
    width is -10mm, below the 35mm photo width, and the function returns
    -1 column and -1 photo in total. *)
Lemma C2_negative_count :
  calculatePhotosPerSheet 35 45 a4Sheet (Some (Num 110)) (Some (Num 2))
  = Returns (mkPhotosPerSheet (-1) 1 (-1))
  /\ ~ layoutClamped 35 45 a4Sheet 110 2.
Proof.
  assert (E : calculatePhotosPerSheet 35 45 a4Sheet (Some (Num 110)) (Some (Num 2))
              = Returns (mkPhotosPerSheet (-1) 1 (-1)))
    by (vm_compute; reflexivity).
  split; [ exact E | ].
  intros (r & Hr & Hc & _). rewrite E in Hr. injection Hr as <-.
  vm_compute in Hc. discriminate.
Qed.

(** C2, amended: the function never throws and does not clamp.  For finite
    inputs with photo width and height above zero and a gap of at least
    zero, columns and rows are the floors of (usable + gap) / (photo + gap)
    and the total is their product; a count is at least zero exactly when
    its usable extent plus the gap is, so all three are at least zero when
    both usable extents plus the gap are; and a usable width that lies
    between minus the gap and the photo width gives 0 columns and a total
    of 0. *)
Theorem C2_layout_counts
    (sheet : SheetSize) (w h photoWidth photoHeight margin gap : Q) :
  SheetSize.width sheet = Num w -> SheetSize.height sheet = Num h ->
  0 < photoWidth -> 0 < photoHeight -> 0 <= gap ->
  exists c r : Z,
    calculatePhotosPerSheet photoWidth photoHeight sheet
      (Some (Num margin)) (Some (Num gap))
    = Returns (mkPhotosPerSheet (Num (inject_Z c)) (Num (inject_Z r))
                 (Num (inject_Z c * inject_Z r)))
    /\ c = Qfloor ((w - 2 * margin + gap) / (photoWidth + gap))
    /\ r = Qfloor ((h - 2 * margin + gap) / (photoHeight + gap))
    /\ (0 <= w - 2 * margin + gap <-> (0 <= c)%Z)
    /\ (0 <= h - 2 * margin + gap <-> (0 <= r)%Z)
    /\ (0 <= w - 2 * margin + gap -> 0 <= h - 2 * margin + gap ->
        (0 <= c * r)%Z)
    /\ (0 <= w - 2 * margin + gap -> w - 2 * margin < photoWidth ->
        c = 0%Z /\ (c * r)%Z = 0%Z).
Proof.
  intros Hw Hh Hpw Hph Hg.
  assert (Hpw' : 0 < photoWidth + gap) by lra.
  assert (Hph' : 0 < photoHeight + gap) by lra.
  exists (Qfloor ((w - 2 * margin + gap) / (photoWidth + gap))),
         (Qfloor ((h - 2 * margin + gap) / (photoHeight + gap))).
  split.
  { apply calculatePhotosPerSheet_finite; auto; lra. }
  assert (Hsign : forall a b, 0 < b -> (0 <= a <-> (0 <= Qfloor (a / b))%Z)).
  { intros a b Hb. split; intros H.
    - apply Qfloor_div_nonneg; assumption.
    - destruct (Qlt_le_dec a 0) as [Hneg | Hpos]; [ | exact Hpos ].
      pose proof (Qfloor_div_neg a b Hb Hneg). lia. }
  split; [ reflexivity | ]. split; [ reflexivity | ].
  split; [ apply Hsign, Hpw' | ]. split; [ apply Hsign, Hph' | ].
  split.
  - intros H1 H2. apply Z.mul_nonneg_nonneg;
      [ apply Hsign, H1; exact Hpw' | apply Hsign, H2; exact Hph' ].
  - intros H1 H2.
    rewrite (Qfloor_div_small _ _ H1) by lra.
    split; reflexivity.
Qed.

(** The amended statement at the A4 sheet with its default margin and gap. *)
Lemma C2_witness :
  exists c r : Z,
    calculatePhotosPerSheet 35 45 a4Sheet (Some (Num 5)) (Some (Num 2))
    = Returns (mkPhotosPerSheet (Num (inject_Z c)) (Num (inject_Z r))
                 (Num (inject_Z c * inject_Z r)))
    /\ (0 <= c)%Z /\ (0 <= r)%Z.
Proof.
  destruct (C2_layout_counts a4Sheet 210 297 35 45 5 2)
    as (c & r & Hcall & _ & _ & Hc & Hr & _);
    [ reflexivity | reflexivity | reflexivity | reflexivity
    | discriminate | ].
  exists c, r. split; [ exact Hcall | ].
  split; [ apply Hc; discriminate | apply Hr; discriminate ].
Defined.

End SheetLayout.

(* ================================================================== *)
(** * Unit converter *)
(* ================================================================== *)

Section UnitConverter.

Lemma inch_nonzero : ~ 25.4 == 0.
Proof. intros H. discriminate H. Qed.

Lemma mmToPixels_finite (mm dpi : Q) :
  mmToPixels mm (Some (Num dpi))
  = Returns (Num (inject_Z (Qfloor (mm / 25.4 * dpi + 0.5)))).
Proof.
  unfold mmToPixels, orDefault. rewrite (div_finite _ _ inch_nonzero).
  reflexivity.
Qed.

Lemma pixelsToMm_finite (pixels dpi : Q) :
  ~ dpi == 0 ->
  pixelsToMm pixels (Some (Num dpi)) = Returns (Num (pixels * 25.4 / dpi)).
Proof.
  intros Hd. unfold pixelsToMm, orDefault. cbn [mul].
  rewrite (div_finite _ _ Hd). reflexivity.
Qed.

(** C4, refuted as stated: at dpi -300 and at dpi 0 both converters return
    a number; one inch is -300 pixels at -300 dpi, and 300 pixels are
    [+Infinity] millimetres at 0 dpi. *)
Lemma C4_nonpositive_dpi_returns :
  mmToPixels 25.4 (Some (Num (-300))) = Returns (Num (-300))
  /\ (exists v : number,
        pixelsToMm 300 (Some (Num (-300))) = Returns v /\ v === Num (-25.4))
  /\ mmToPixels 25.4 (Some (Num 0)) = Returns (Num 0)
  /\ pixelsToMm 300 (Some (Num 0)) = Returns PosInf
  /\ ~ rejectsDpi 25.4 300 (-300)
  /\ ~ rejectsDpi 25.4 300 0.
Proof.
  split; [ vm_compute; reflexivity | ].
  split; [ eexists; split; [ reflexivity | vm_compute; reflexivity ] | ].
  split; [ vm_compute; reflexivity | ].
  split; [ vm_compute; reflexivity | ].
  split; intros [H _]; vm_compute in H; discriminate H.
Qed.

(** C4, amended: the converters have no precondition on dpi and never
    fail.  For every finite dpi at or below zero, [mmToPixels] returns the
    rounded product [round(mm / 25.4 * dpi)], a finite integer, and
    [pixelsToMm] returns [pixels * 25.4 / dpi] when dpi is below zero and
    an infinity or [NaN] when dpi is zero. *)
Theorem C4_converters_return_for_nonpositive_dpi (mm pixels dpi : Q) :
  dpi <= 0 ->
  mmToPixels mm (Some (Num dpi))
  = Returns (Num (inject_Z (Qfloor (mm / 25.4 * dpi + 0.5))))
  /\ exists v : number,
       pixelsToMm pixels (Some (Num dpi)) = Returns v
       /\ (dpi < 0 -> v = Num (pixels * 25.4 / dpi))
       /\ (dpi == 0 -> isFinite v = false).
Proof.
  intros Hd. split; [ apply mmToPixels_finite | ].
  destruct (Qeq_dec dpi 0) as [Hz | Hnz].
  - exists (signedInf (pixels * 25.4 ?= 0)). split.
    + unfold pixelsToMm, orDefault. cbn [mul].
      apply f_equal, div_by_zero, Hz.
    + split; [ intros Hlt; lra | intros _; apply signedInf_not_finite ].
  - exists (Num (pixels * 25.4 / dpi)). split.
    + apply pixelsToMm_finite, Hnz.
    + split; [ reflexivity | intros Hz; contradiction ].
Qed.

Lemma C4_witness :
  mmToPixels 25.4 (Some (Num (-300)))
  = Returns (Num (inject_Z (Qfloor (25.4 / 25.4 * (-300) + 0.5))))
  /\ exists v : number,
       pixelsToMm 300 (Some (Num (-300))) = Returns v
       /\ (-300 < 0 -> v = Num (300 * 25.4 / (-300)))
       /\ (-300 == 0 -> isFinite v = false).
Proof.
  apply (C4_converters_return_for_nonpositive_dpi 25.4 300 (-300)).
  discriminate.
Defined.

(** [Math.round] of a whole number is that number. *)
Lemma round_integer (n : Z) (q : Q) :
  q == inject_Z n -> Qfloor (q + 0.5) = n.
Proof.
  intros Hq.
  pose proof (Qfloor_le (q + 0.5)) as Hlo.
  pose proof (Qlt_floor (q + 0.5)) as Hhi.
  rewrite inject_Z_plus in Hhi. change (inject_Z 1) with 1 in Hhi.
  assert (H1 : inject_Z (Qfloor (q + 0.5)) < inject_Z (n + 1)).
  { rewrite inject_Z_plus. change (inject_Z 1) with 1. lra. }
  assert (H2 : inject_Z n < inject_Z (Qfloor (q + 0.5) + 1)).
  { rewrite inject_Z_plus. change (inject_Z 1) with 1. lra. }
  rewrite <- Zlt_Qlt in H1, H2. lia.
Qed.

(** No whole number is nearer to [p] than [Math.round] of it. *)
Lemma round_nearest (p : Q) (m : Z) :
  Qabs (inject_Z (Qfloor (p + 0.5)) - p) <= Qabs (inject_Z m - p).
Proof.
  pose proof (Qfloor_le (p + 0.5)) as Hlo.
  pose proof (Qlt_floor (p + 0.5)) as Hhi.
  rewrite inject_Z_plus in Hhi. change (inject_Z 1) with 1 in Hhi.
  set (n := Qfloor (p + 0.5)) in *.
  destruct (Z.lt_trichotomy m n) as [Hm | [Hm | Hm]].
  - assert (H : inject_Z (m + 1) <= inject_Z n) by (rewrite <- Zle_Qle; lia).
    rewrite inject_Z_plus in H. change (inject_Z 1) with 1 in H.
    apply Qle_trans with (0.5)%Q; [ apply Qabs_Qle_condition; split; lra | ].
    apply Qle_trans with (- (inject_Z m - p))%Q; [ lra | ].
    rewrite <- Qabs_opp. apply Qle_Qabs.
  - subst m. apply Qle_refl.
  - assert (H : inject_Z (n + 1) <= inject_Z m) by (rewrite <- Zle_Qle; lia).
    rewrite inject_Z_plus in H. change (inject_Z 1) with 1 in H.
    apply Qle_trans with (0.5)%Q; [ apply Qabs_Qle_condition; split; lra | ].
    apply Qle_trans with (inject_Z m - p)%Q; [ lra | apply Qle_Qabs ].
Qed.

(** C5: for every mm at or above zero and every dpi above zero, converting
    to pixels and back moves the length by at most 25.4 / dpi millimetres.
    The forward direction rounds to the nearest integer pixel: the result
    is the whole number [n] with [n - 1/2 <= mm / 25.4 * dpi < n + 1/2],
    not below zero, and no whole number is nearer.  The reverse is exact:
    [pixelsToMm] of [n] is [n * 25.4 / dpi], and converting that to pixels
    gives [n] again. *)
Theorem C5_round_trip_bound (mm dpi : Q) :
  0 <= mm -> 0 < dpi ->
  exists (n : Z) (back : Q),
    mmToPixels mm (Some (Num dpi)) = Returns (Num (inject_Z n))
    /\ (0 <= n)%Z
    /\ inject_Z n - 0.5 <= mm / 25.4 * dpi
    /\ mm / 25.4 * dpi < inject_Z n + 0.5
    /\ (forall m : Z,
          Qabs (inject_Z n - mm / 25.4 * dpi)
          <= Qabs (inject_Z m - mm / 25.4 * dpi))
    /\ pixelsToMm (Num (inject_Z n)) (Some (Num dpi)) = Returns (Num back)
    /\ back == inject_Z n * 25.4 / dpi
    /\ mmToPixels (Num back) (Some (Num dpi)) = Returns (Num (inject_Z n))
    /\ Qabs (back - mm) <= 25.4 / dpi.
Proof.
  intros Hmm Hd.
  set (p := (mm / 25.4 * dpi)%Q).
  exists (Qfloor (p + 0.5)), (inject_Z (Qfloor (p + 0.5)) * 25.4 / dpi)%Q.
  pose proof (Qfloor_le (p + 0.5)) as Hlo.
  pose proof (Qlt_floor (p + 0.5)) as Hhi.
  rewrite inject_Z_plus in Hhi. change (inject_Z 1) with 1 in Hhi.
  assert (Hp : 0 <= p).
  { unfold p. apply Qmult_le_0_compat; [ | lra ].
    apply Qle_shift_div_l; lra. }
  split; [ apply mmToPixels_finite | ].
  split.
  { assert (H : inject_Z (-1) < inject_Z (Qfloor (p + 0.5))).
    { change (inject_Z (-1)) with (-1 # 1). lra. }
    rewrite <- Zlt_Qlt in H. lia. }
  split; [ lra | ]. split; [ lra | ].
  split; [ intros m; apply round_nearest | ].
  split; [ apply pixelsToMm_finite; lra | ].
  split; [ reflexivity | ].
  split.
  { rewrite mmToPixels_finite. do 3 f_equal.
    apply round_integer. field. lra. }
  pose proof (round_error p) as Herr.
  apply Qabs_Qle_condition in Herr. destruct Herr as [Hlo' Hhi'].
  set (e := (inject_Z (Qfloor (p + 0.5)) - p)%Q) in *.
  assert (Hk : 0 < 25.4 / dpi).
  { apply Qlt_shift_div_l; [ exact Hd | lra ]. }
  assert (Heq : (inject_Z (Qfloor (p + 0.5)) * 25.4 / dpi - mm == e * (25.4 / dpi))%Q).
  { unfold e, p. field. lra. }
  rewrite Heq. apply Qabs_Qle_condition.
  assert (H1 : e * (25.4 / dpi) <= 0.5 * (25.4 / dpi)).
  { apply Qmult_le_compat_r; lra. }
  assert (H2 : (- 0.5) * (25.4 / dpi) <= e * (25.4 / dpi)).
  { apply Qmult_le_compat_r; lra. }
  split; lra.
Qed.

(** A photo 35mm wide at the catalogue's 300 dpi: 413 pixels. *)
Lemma C5_witness :
  exists (n : Z) (back : Q),
    mmToPixels 35 (Some (Num 300)) = Returns (Num (inject_Z n))
    /\ (0 <= n)%Z
    /\ inject_Z n - 0.5 <= 35 / 25.4 * 300
    /\ 35 / 25.4 * 300 < inject_Z n + 0.5
    /\ (forall m : Z,
          Qabs (inject_Z n - 35 / 25.4 * 300)
          <= Qabs (inject_Z m - 35 / 25.4 * 300))
    /\ pixelsToMm (Num (inject_Z n)) (Some (Num 300)) = Returns (Num back)
    /\ back == inject_Z n * 25.4 / 300
    /\ mmToPixels (Num back) (Some (Num 300)) = Returns (Num (inject_Z n))
    /\ Qabs (back - 35) <= 25.4 / 300.
Proof.
  apply (C5_round_trip_bound 35 300); [ discriminate | reflexivity ].
Defined.

End UnitConverter.

(* ================================================================== *)
(** * Compliance validator *)
(* ================================================================== *)

Section Validator.

Variables (face : DetectedFace) (imageWidth imageHeight : number).
Variables (standard : PassportStandard) (st : HookState).

(** The report of [validateFace], field by field: the call always returns,
    stores the report in the hook state, and builds its message list from
    the three checks. *)
Lemma validateFace_report :
  exists r : FaceValidation,
    validateFace face imageWidth imageHeight standard st
    = Returns (r, setValidation r st)
    /\ headHeightPercent r
       = (ymax (box face) - ymin (box face)) / imageHeight * 100
    /\ headHeightValid r
       = (headHeightPercent r >=? PassportStandard.headHeightMin standard * 0.8)
         && (headHeightPercent r <=? PassportStandard.headHeightMax standard * 1.2)
    /\ isValid r = headHeightValid r && eyeLineValid r && centeredValid r
    /\ messages r
       = (let failing :=
            (if headHeightValid r then []
             else if headHeightPercent r
                     <? PassportStandard.headHeightMin standard * 0.8
                  then [msgTooSmall] else [msgTooLarge])
            ++ (if eyeLineValid r then []
                else if eyeLinePercent r
                        <? PassportStandard.eyeLineFromBottom standard
                     then [msgEyesLow] else [msgEyesHigh])
            ++ (if centeredValid r then [] else [msgNotCentered]) in
          match failing with [] => [msgSuccess] | _ => failing end).
Proof.
  eexists. split; [ reflexivity | ].
  cbn [headHeightPercent headHeightValid isValid eyeLineValid centeredValid
       eyeLinePercent messages].
  repeat split.
  set (hh := (ymax (box face) - ymin (box face)) / imageHeight * 100).
  set (el := (imageHeight - (ymin (box face)
              + (ymax (box face) - ymin (box face)) * 0.35)) / imageHeight * 100).
  destruct ((hh >=? PassportStandard.headHeightMin standard * 0.8)
            && (hh <=? PassportStandard.headHeightMax standard * 1.2));
    destruct (Math_abs (el - PassportStandard.eyeLineFromBottom standard) <=? 15);
    destruct (Math_abs ((xmin (box face) + xmax (box face)) / 2 - imageWidth / 2)
              / imageWidth * 100 <=? 10);
    destruct (hh <? PassportStandard.headHeightMin standard * 0.8);
    destruct (el <? PassportStandard.eyeLineFromBottom standard);
    reflexivity.
Qed.

(** C7: for every input, [validateFace] emits exactly one directional
    message per failing check, in the order head height, eye line,
    centering; when all three checks pass the list is exactly the one
    success message; the list is never empty.  The checks and the
    directions are those of the input: the head-height check fails when
    the face height, as a percentage of the image height, is not inside
    [0.8 * headHeightMin, 1.2 * headHeightMax], with the too-small message
    below the band and the too-large one otherwise; the eye-line check
    fails when the eye line is not within 15 of [eyeLineFromBottom], with
    the too-low message below it and the too-high one otherwise; the
    centring check fails when the offset is not within 10. *)
Theorem C7_message_list :
  let faceHeight := ymax (box face) - ymin (box face) in
  let headHeightPercent := faceHeight / imageHeight * 100 in
  let eyeY := ymin (box face) + faceHeight * 0.35 in
  let eyeLinePercent := (imageHeight - eyeY) / imageHeight * 100 in
  let centerOffset :=
    Math_abs ((xmin (box face) + xmax (box face)) / 2 - imageWidth / 2)
    / imageWidth * 100 in
  let headFails :=
    negb ((headHeightPercent >=? PassportStandard.headHeightMin standard * 0.8)
          && (headHeightPercent
              <=? PassportStandard.headHeightMax standard * 1.2)) in
  let eyeFails :=
    negb (Math_abs (eyeLinePercent
                    - PassportStandard.eyeLineFromBottom standard) <=? 15) in
  let centerFails := negb (centerOffset <=? 10) in
  let headMsgs :=
    if headFails
    then [if headHeightPercent <? PassportStandard.headHeightMin standard * 0.8
          then msgTooSmall else msgTooLarge]
    else [] in
  let eyeMsgs :=
    if eyeFails
    then [if eyeLinePercent <? PassportStandard.eyeLineFromBottom standard
          then msgEyesLow else msgEyesHigh]
    else [] in
  let centerMsgs := if centerFails then [msgNotCentered] else [] in
  exists (r : FaceValidation) (st' : HookState),
    validateFace face imageWidth imageHeight standard st = Returns (r, st')
    /\ headHeightValid r = negb headFails
    /\ eyeLineValid r = negb eyeFails
    /\ centeredValid r = negb centerFails
    /\ isValid r = headHeightValid r && eyeLineValid r && centeredValid r
    /\ messages r
       = (if isValid r then [msgSuccess]
          else headMsgs ++ eyeMsgs ++ centerMsgs)
    /\ messages r <> []
    /\ length (messages r)
       = Nat.max 1
           (Nat.b2n headFails + Nat.b2n eyeFails + Nat.b2n centerFails)
    /\ (In msgSuccess (messages r) <-> isValid r = true).
Proof.
  cbv zeta.
  eexists. eexists. split; [ reflexivity | ].
  unfold validateFace, push.
  cbn [headHeightValid eyeLineValid centeredValid isValid messages].
  set (hh := (ymax (box face) - ymin (box face)) / imageHeight * 100).
  set (el := (imageHeight - (ymin (box face)
                + (ymax (box face) - ymin (box face)) * 0.35))
             / imageHeight * 100).
  destruct (hh >=? PassportStandard.headHeightMin standard * 0.8);
    destruct (hh <=? PassportStandard.headHeightMax standard * 1.2);
    destruct (Math_abs (el - PassportStandard.eyeLineFromBottom standard) <=? 15);
    destruct (Math_abs ((xmin (box face) + xmax (box face)) / 2 - imageWidth / 2)
              / imageWidth * 100 <=? 10);
    destruct (hh <? PassportStandard.headHeightMin standard * 0.8);
    destruct (el <? PassportStandard.eyeLineFromBottom standard);
    cbn;
    (repeat split; try reflexivity; try discriminate;
     try (intros _; left; reflexivity);
     try (intros H; exfalso; repeat destruct H as [H | H];
          try discriminate H; exact H)).
Qed.

End Validator.

Section HeadHeightBand.

Variables (face : DetectedFace) (imageWidth : number) (st : HookState).
Variables (imageHeight top bottom : Q).
Hypothesis face_top : ymin (box face) = Num top.
Hypothesis face_bottom : ymax (box face) = Num bottom.
Hypothesis imageHeight_pos : 0 < imageHeight.

(** The head height of a finite face box in an image of positive height. *)
Lemma headHeightPercent_finite (standard : PassportStandard) :
  exists r : FaceValidation,
    validateFace face imageWidth (Num imageHeight) standard st
    = Returns (r, setValidation r st)
    /\ headHeightPercent r = Num ((bottom - top) / imageHeight * 100)
    /\ headHeightValid r
       = (headHeightPercent r >=? PassportStandard.headHeightMin standard * 0.8)
         && (headHeightPercent r <=? PassportStandard.headHeightMax standard * 1.2)
    /\ (headHeightValid r = false ->
        (headHeightPercent r <? PassportStandard.headHeightMin standard * 0.8)
        = true ->
        hd_error (messages r) = Some msgTooSmall).
Proof.
  destruct (validateFace_report face imageWidth (Num imageHeight) standard st)
    as (r & Hcall & Hpct & Hvalid & _ & Hmsgs).
  exists r. split; [ exact Hcall | ].
  split.
  - rewrite Hpct, face_top, face_bottom. cbn [sub add neg].
    rewrite div_finite by lra. reflexivity.
  - split; [ exact Hvalid | ].
    intros Hv Hlt. rewrite Hmsgs, Hv, Hlt. reflexivity.
Qed.

(** C6: for every face box, image height above zero and standard,
    [headHeightValid] is true exactly when
    [headHeightPercent = (ymax - ymin) / imageHeight * 100] lies in the
    inclusive interval from [headHeightMin * 0.8] to [headHeightMax * 1.2];
    under the US standard (50 and 69) a face at 60% of the image height is
    valid, and one at 30% is invalid and its first message is the
    too-small one. *)
Theorem C6_head_height_band :
  (forall (standard : PassportStandard) (hmin hmax : Q),
      PassportStandard.headHeightMin standard = Num hmin ->
      PassportStandard.headHeightMax standard = Num hmax ->
      exists (r : FaceValidation) (st' : HookState),
        validateFace face imageWidth (Num imageHeight) standard st
        = Returns (r, st')
        /\ headHeightPercent r = Num ((bottom - top) / imageHeight * 100)
        /\ (headHeightValid r = true <->
            hmin * 0.8 <= (bottom - top) / imageHeight * 100 <= hmax * 1.2))
  /\ findStandard "us" = Some usStandard
  /\ PassportStandard.headHeightMin usStandard = Num 50
  /\ PassportStandard.headHeightMax usStandard = Num 69
  /\ ((bottom - top) / imageHeight * 100 == 60 ->
      exists (r : FaceValidation) (st' : HookState),
        validateFace face imageWidth (Num imageHeight) usStandard st
        = Returns (r, st')
        /\ headHeightValid r = true)
  /\ ((bottom - top) / imageHeight * 100 == 30 ->
      exists (r : FaceValidation) (st' : HookState),
        validateFace face imageWidth (Num imageHeight) usStandard st
        = Returns (r, st')
        /\ headHeightValid r = false
        /\ hd_error (messages r) = Some msgTooSmall
        /\ In msgTooSmall (messages r)).
Proof.
  assert (Hband : forall (standard : PassportStandard) (hmin hmax : Q),
      PassportStandard.headHeightMin standard = Num hmin ->
      PassportStandard.headHeightMax standard = Num hmax ->
      exists r : FaceValidation,
        validateFace face imageWidth (Num imageHeight) standard st
        = Returns (r, setValidation r st)
        /\ headHeightPercent r = Num ((bottom - top) / imageHeight * 100)
        /\ (headHeightValid r = true <->
            hmin * 0.8 <= (bottom - top) / imageHeight * 100 <= hmax * 1.2)
        /\ ((bottom - top) / imageHeight * 100 < hmin * 0.8 ->
            hd_error (messages r) = Some msgTooSmall)).
  { intros standard hmin hmax Hmin Hmax.
    destruct (headHeightPercent_finite standard)
      as (r & Hcall & Hpct & Hvalid & Hsmall).
    exists r. split; [ exact Hcall | ]. split; [ exact Hpct | ].
    rewrite Hvalid, Hpct, Hmin, Hmax in *. cbn [mul] in *.
    split.
    - rewrite andb_true_iff, geb_finite, leb_finite. reflexivity.
    - intros Hlt. apply Hsmall.
      + apply andb_false_iff. left. apply leb_finite_false. exact Hlt.
      + apply ltb_finite. exact Hlt. }
  split.
  { intros standard hmin hmax Hmin Hmax.
    destruct (Hband standard hmin hmax Hmin Hmax) as (r & Hcall & Hpct & Hiff & _).
    exists r, (setValidation r st). auto. }
  split; [ reflexivity | ]. split; [ reflexivity | ]. split; [ reflexivity | ].
  split.
  - intros H60.
    destruct (Hband usStandard 50 69 eq_refl eq_refl) as (r & Hcall & _ & Hiff & _).
    exists r, (setValidation r st). split; [ exact Hcall | ].
    apply Hiff. rewrite H60. split; discriminate.
  - intros H30.
    destruct (Hband usStandard 50 69 eq_refl eq_refl)
      as (r & Hcall & _ & Hiff & Hsmall).
    assert (Hlt : (bottom - top) / imageHeight * 100 < 50 * 0.8)
      by (rewrite H30; reflexivity).
    exists r, (setValidation r st). split; [ exact Hcall | ].
    split.
    + destruct (headHeightValid r); [ | reflexivity ].
      destruct Hiff as [Hiff _]. specialize (Hiff eq_refl). lra.
    + specialize (Hsmall Hlt). split; [ exact Hsmall | ].
      destruct (messages r) as [ | m rest ]; [ discriminate | ].
      injection Hsmall as ->. left. reflexivity.
Qed.

End HeadHeightBand.

(** A 120-pixel face in a 200-pixel image is at 60%; a 60-pixel one at 30%. *)
Lemma C6_witness :
  (exists (r : FaceValidation) (st' : HookState),
      validateFace (mkDetectedFace (mkFaceBox 50 20 150 140) 0.9) 200 200
        usStandard (mkHookState false false 0 None None None)
      = Returns (r, st')
      /\ headHeightValid r = true)
  /\ (exists (r : FaceValidation) (st' : HookState),
        validateFace (mkDetectedFace (mkFaceBox 50 20 150 80) 0.9) 200 200
          usStandard (mkHookState false false 0 None None None)
        = Returns (r, st')
        /\ headHeightValid r = false
        /\ hd_error (messages r) = Some msgTooSmall
        /\ In msgTooSmall (messages r)).
Proof.
  split.
  - refine (proj1 (proj2 (proj2 (proj2 (proj2
      (C6_head_height_band (mkDetectedFace (mkFaceBox 50 20 150 140) 0.9) 200
         (mkHookState false false 0 None None None) 200 20 140
         eq_refl eq_refl eq_refl))))) _).
    reflexivity.
  - refine (proj2 (proj2 (proj2 (proj2 (proj2
      (C6_head_height_band (mkDetectedFace (mkFaceBox 50 20 150 80) 0.9) 200
         (mkHookState false false 0 None None None) 200 20 80
         eq_refl eq_refl eq_refl))))) _).
    reflexivity.
Defined.

(* ================================================================== *)
(** * Auto-alignment solver *)
(* ================================================================== *)

Lemma catalogue_standards_valid : forallb validStandard passportStandards = true.
Proof. vm_compute. reflexivity. Qed.

(** Division by a literal, turned into the product [lra] understands. *)
Ltac literal_div :=
  unfold Qdiv in *;
  repeat match goal with
    | |- context [Qinv (?n # ?d)] =>
        let v := eval vm_compute in (Qinv (n # d)) in
        change (Qinv (n # d)) with v
    | H : context [Qinv (?n # ?d)] |- _ =>
        let v := eval vm_compute in (Qinv (n # d)) in
        change (Qinv (n # d)) with v in H
    end.

Ltac finite_div :=
  rewrite div_finite by (first [ assumption | intros Hzero; discriminate Hzero ]).

Section Solver.

Variables (face : DetectedFace) (standard : PassportStandard).
Variables (imageWidth imageHeight canvasWidth : number).
Variables (canvasHeight top bottom hmin hmax : Q).
Hypothesis face_top : ymin (box face) = Num top.
Hypothesis face_bottom : ymax (box face) = Num bottom.
Hypothesis standard_min : PassportStandard.headHeightMin standard = Num hmin.
Hypothesis standard_max : PassportStandard.headHeightMax standard = Num hmax.

(** The call always returns, and its scale is the quotient the source
    writes, whatever the other inputs are. *)
Lemma calculateAutoPosition_scale :
  exists r : AutoPosition,
    calculateAutoPosition face imageWidth imageHeight
      canvasWidth (Num canvasHeight) standard = Returns r
    /\ scale r
       = Num (canvasHeight * ((hmin + hmax) / 2 / 100)) / Num (bottom - top).
Proof.
  eexists. split; [ reflexivity | ].
  cbn [scale]. rewrite face_top, face_bottom, standard_min, standard_max.
  cbn [add sub neg]. do 2 finite_div. reflexivity.
Qed.

(** C8: for every face box with [faceHeight = ymax - ymin > 0], every
    canvas height above zero and every standard, the scale returned is the
    finite number
    [canvasHeight * ((headHeightMin + headHeightMax) / 2 / 100) / faceHeight];
    it is above zero for every standard of the data model, whose band
    satisfies [0 < headHeightMin < headHeightMax]; at face height 100,
    canvas height 400 and the band 50 to 69 it is 2.38. *)
Theorem C8_scale_formula :
  0 < bottom - top -> 0 < canvasHeight ->
  exists (r : AutoPosition) (s : Q),
    calculateAutoPosition face imageWidth imageHeight
      canvasWidth (Num canvasHeight) standard = Returns r
    /\ scale r = Num s
    /\ s == canvasHeight * ((hmin + hmax) / 2 / 100) / (bottom - top)
    /\ (0 < hmin -> hmin < hmax -> 0 < s)
    /\ (bottom - top == 100 -> canvasHeight == 400 ->
        hmin == 50 -> hmax == 69 -> s == 2.38).
Proof.
  intros Hface Hcanvas.
  destruct calculateAutoPosition_scale as (r & Hcall & Hscale).
  exists r, (canvasHeight * ((hmin + hmax) / 2 / 100) / (bottom - top))%Q.
  split; [ exact Hcall | ].
  split.
  { rewrite Hscale. apply div_finite. lra. }
  split; [ reflexivity | ].
  split.
  - intros Hmin Hlt. apply Qlt_shift_div_l; [ exact Hface | ].
    rewrite Qmult_0_l. apply Qmult_lt_0_compat; [ exact Hcanvas | ].
    do 2 (apply Qlt_shift_div_l; [ reflexivity | ]). lra.
  - intros H1 H2 H3 H4. rewrite H1, H2, H3, H4. reflexivity.
Qed.

(** C3, amended: the solver has no guard and never fails.  For every face
    box with [faceHeight = ymax - ymin <= 0] it returns a result: when the
    face height is zero the scale is an infinity or [NaN], and when it is
    below zero the scale is the finite quotient
    [canvasHeight * ((headHeightMin + headHeightMax) / 2 / 100) / faceHeight]. *)
Theorem C3_degenerate_box_returns :
  bottom - top <= 0 ->
  exists r : AutoPosition,
    calculateAutoPosition face imageWidth imageHeight
      canvasWidth (Num canvasHeight) standard = Returns r
    /\ (bottom - top == 0 -> isFinite (scale r) = false)
    /\ (bottom - top < 0 ->
        scale r
        = Num (canvasHeight * ((hmin + hmax) / 2 / 100) / (bottom - top))).
Proof.
  intros Hface.
  destruct calculateAutoPosition_scale as (r & Hcall & Hscale).
  exists r. split; [ exact Hcall | ]. rewrite Hscale. split.
  - intros Hz. rewrite (div_by_zero _ _ Hz). apply signedInf_not_finite.
  - intros Hneg. apply div_finite. lra.
Qed.

End Solver.

Lemma C8_witness :
  exists (r : AutoPosition) (s : Q),
    calculateAutoPosition sampleFace 200 200 400 (Num 400) usStandard
    = Returns r
    /\ scale r = Num s /\ 0 < s /\ s == 2.38.
Proof.
  destruct (C8_scale_formula sampleFace usStandard 200 200 400 400 20 120 50 69
              eq_refl eq_refl eq_refl eq_refl)
    as (r & s & Hcall & Hscale & _ & Hpos & Hvalue);
    [ reflexivity | reflexivity | ].
  exists r, s. split; [ exact Hcall | ]. split; [ exact Hscale | ].
  split; [ apply Hpos; reflexivity | apply Hvalue; reflexivity ].
Defined.

(** C3, refuted as stated: a face box of height zero is not rejected; the
    call returns, with scale [+Infinity] and a [NaN] position. *)
Lemma C3_flat_box_returns :
  calculateAutoPosition flatFace 200 200 400 400 usStandard
  = Returns (mkAutoPosition PosInf (mkPoint NaN NaN))
  /\ ~ rejectsDegenerate flatFace 200 200 400 400 usStandard.
Proof.
  split; [ vm_compute; reflexivity | ].
  intros H. vm_compute in H. discriminate H.
Qed.

Lemma C3_witness :
  exists r : AutoPosition,
    calculateAutoPosition flatFace 200 200 400 (Num 400) usStandard = Returns r
    /\ isFinite (scale r) = false.
Proof.
  destruct (C3_degenerate_box_returns flatFace usStandard 200 200 400 400
              20 20 50 69 eq_refl eq_refl eq_refl eq_refl)
    as (r & Hcall & Hzero & _); [ discriminate | ].
  exists r. split; [ exact Hcall | apply Hzero; reflexivity ].
Defined.

Section Placement.

Variables (face : DetectedFace) (standard : PassportStandard).
Variables (left right top bottom : Q).
Variables (imageWidth imageHeight canvasWidth canvasHeight : Q).
Variables (hmin hmax eye : Q).
Hypothesis face_left : xmin (box face) = Num left.
Hypothesis face_right : xmax (box face) = Num right.
Hypothesis face_top : ymin (box face) = Num top.
Hypothesis face_bottom : ymax (box face) = Num bottom.
Hypothesis standard_min : PassportStandard.headHeightMin standard = Num hmin.
Hypothesis standard_max : PassportStandard.headHeightMax standard = Num hmax.
Hypothesis standard_eye :
  PassportStandard.eyeLineFromBottom standard = Num eye.
Hypothesis face_height : ~ bottom - top == 0.

(** Where the face centre and the eye line are drawn after auto-centering:
    at the target shifted by the centring offset of the scaled image,
    [(canvas - image * scale) / 2], which the solver folds into its position
    and [drawCanvas] then adds once more. *)
Lemma autoCentered_point_offset :
  exists s px py : Q,
    s == canvasHeight * ((hmin + hmax) / 2 / 100) / (bottom - top)
    /\ autoCentered_point face (Num imageWidth) (Num imageHeight)
         (Num canvasWidth) (Num canvasHeight) standard
         (faceCenterX face) (eyeLineY face)
       = Returns (mkPoint (Num px) (Num py))
    /\ px == canvasWidth / 2 + (canvasWidth - imageWidth * s) / 2
    /\ py == canvasHeight * (1 - eye / 100)
             + (canvasHeight - imageHeight * s) / 2.
Proof.
  exists (canvasHeight * ((hmin + hmax) / 2 / 100) / (bottom - top))%Q.
  unfold autoCentered_point, calculateAutoPosition, bind, drawCanvas_point,
    drawCanvas_origin, faceCenterX, eyeLineY.
  cbn [scale position x y].
  rewrite face_left, face_right, face_top, face_bottom,
    standard_min, standard_max, standard_eye.
  cbn [add sub mul neg]. repeat finite_div.
  cbn [add sub mul neg]. repeat finite_div.
  cbn [add sub mul neg].
  eexists. eexists. split; [ reflexivity | ].
  split; [ reflexivity | ].
  split; field; exact face_height.
Qed.

(** The alignment reaches its target exactly when the scaled image is as
    large as the canvas. *)
Lemma landsOnTarget_iff :
  landsOnTarget face (Num imageWidth) (Num imageHeight)
    (Num canvasWidth) (Num canvasHeight) standard
  <-> imageWidth * (canvasHeight * ((hmin + hmax) / 2 / 100) / (bottom - top))
      == canvasWidth
      /\ imageHeight * (canvasHeight * ((hmin + hmax) / 2 / 100) / (bottom - top))
         == canvasHeight.
Proof.
  destruct autoCentered_point_offset as (s & px & py & Hs & Hcall & Hx & Hy).
  unfold landsOnTarget, targetCenterX, targetEyeY.
  rewrite standard_eye. cbn [add sub mul neg]. repeat finite_div.
  cbn [add sub mul neg]. rewrite <- Hs.
  split.
  - intros (p & Hp & Hpx & Hpy). rewrite Hcall in Hp. injection Hp as <-.
    cbn [x y same] in Hpx, Hpy. rewrite Hx in Hpx. rewrite Hy in Hpy.
    clear Hs Hcall Hx Hy. literal_div. split; lra.
  - intros [Hw Hh]. exists (mkPoint (Num px) (Num py)).
    split; [ exact Hcall | ]. cbn [x y same].
    rewrite Hx, Hy. clear Hs Hcall Hx Hy. literal_div. split; lra.
Qed.

End Placement.

(** C1, at a failing input: the US standard on its 400 x 400 canvas, a
    200 x 200 image and the face box (50, 20)-(150, 120).  The scale is
    2.38; the face centre is drawn at x = 162 and the eye line at y = 138,
    while the targets are x = 200 and y = 176: both are off by -38, the
    centring offset (400 - 200 * 2.38) / 2 of the scaled image. *)
Theorem C1_auto_center_misses_target :
  exists p : Point,
    autoCentered_point sampleFace 200 200 400 400 usStandard
      (faceCenterX sampleFace) (eyeLineY sampleFace) = Returns p
    /\ x p === 162 /\ y p === 138
    /\ targetCenterX 400 === 200
    /\ targetEyeY 400 usStandard === 176
    /\ canvasWidth usStandard = 400 /\ canvasHeight usStandard === 400
    /\ ~ landsOnTarget sampleFace 200 200 400 400 usStandard.
Proof.
  eexists. split; [ reflexivity | ].
  repeat split; try (vm_compute; reflexivity).
  intros (p & Hp & Hpx & _).
  vm_compute in Hp. injection Hp as <-.
  vm_compute in Hpx. discriminate Hpx.
Qed.

(* ================================================================== *)
(** * Sheet layout and unit converter, further properties *)
(* ================================================================== *)

Section LayoutGrid.

(** A floor of a quotient by a positive number, as two products. *)
Lemma Qfloor_div_bounds (a b : Q) :
  0 < b ->
  inject_Z (Qfloor (a / b)) * b <= a
  /\ a < (inject_Z (Qfloor (a / b)) + 1) * b.
Proof.
  intros Hb.
  pose proof (Qfloor_le (a / b)) as Hlo.
  pose proof (Qlt_floor (a / b)) as Hhi.
  rewrite inject_Z_plus in Hhi. change (inject_Z 1) with 1 in Hhi.
  assert (Ha : a == a / b * b) by (field; lra).
  split.
  - rewrite Ha at 2. apply Qmult_le_compat_r; lra.
  - rewrite Ha at 1. apply Qmult_lt_compat_r; assumption.
Qed.

(** In exact arithmetic the grid that [calculatePhotosPerSheet] returns
    fits between the margins, the gaps between its photos included, and
    one more column, or one more row, would not. *)
Lemma layout_grid_bounds
    (sheet : SheetSize) (w h photoWidth photoHeight margin gap : Q) :
  SheetSize.width sheet = Num w -> SheetSize.height sheet = Num h ->
  0 < photoWidth + gap -> 0 < photoHeight + gap ->
  exists c r : Z,
    calculatePhotosPerSheet photoWidth photoHeight sheet
      (Some (Num margin)) (Some (Num gap))
    = Returns (mkPhotosPerSheet (Num (inject_Z c)) (Num (inject_Z r))
                 (Num (inject_Z c * inject_Z r)))
    /\ inject_Z c * photoWidth + (inject_Z c - 1) * gap <= w - 2 * margin
    /\ w - 2 * margin < (inject_Z c + 1) * photoWidth + inject_Z c * gap
    /\ inject_Z r * photoHeight + (inject_Z r - 1) * gap <= h - 2 * margin
    /\ h - 2 * margin < (inject_Z r + 1) * photoHeight + inject_Z r * gap.
Proof.
  intros Hw Hh Hpw Hph.
  exists (Qfloor ((w - 2 * margin + gap) / (photoWidth + gap))),
         (Qfloor ((h - 2 * margin + gap) / (photoHeight + gap))).
  split.
  { apply calculatePhotosPerSheet_finite; auto; lra. }
  destruct (Qfloor_div_bounds (w - 2 * margin + gap) _ Hpw) as [Hc1 Hc2].
  destruct (Qfloor_div_bounds (h - 2 * margin + gap) _ Hph) as [Hr1 Hr2].
  set (c := inject_Z (Qfloor ((w - 2 * margin + gap) / (photoWidth + gap)))) in *.
  set (r := inject_Z (Qfloor ((h - 2 * margin + gap) / (photoHeight + gap)))) in *.
  repeat split; lra.
Qed.

(** An inequality between whole numbers, read in [Q]. *)
Ltac whole_numbers :=
  first [ rewrite Zle_Qle | rewrite Zlt_Qlt ];
  unfold Z.sub;
  repeat first [ rewrite inject_Z_plus | rewrite inject_Z_mult
               | rewrite inject_Z_opp ];
  change (inject_Z 1) with 1; change (inject_Z 2) with 2.

(** For whole numbers of millimetres, the grid that
    [calculatePhotosPerSheet] returns fits between the margins, the gaps
    between its photos included, and is the largest that does: one more
    column, or one more row, would not fit.  The sizes are whole numbers of
    at most a million, on which the sums, the products and the floors of
    the quotients are the same in binary64 as in exact arithmetic; with
    fractions of a millimetre a quotient that is whole in exact arithmetic
    can fall just below it in binary64. *)
Theorem layout_fits_and_is_maximal
    (sheet : SheetSize) (w h photoWidth photoHeight margin gap : Z) :
  SheetSize.width sheet = Num (inject_Z w) ->
  SheetSize.height sheet = Num (inject_Z h) ->
  Forall (fun z => (Z.abs z <= 1000000)%Z)
    [w; h; photoWidth; photoHeight; margin; gap] ->
  (0 < photoWidth + gap)%Z -> (0 < photoHeight + gap)%Z ->
  exists c r : Z,
    calculatePhotosPerSheet
      (Num (inject_Z photoWidth)) (Num (inject_Z photoHeight)) sheet
      (Some (Num (inject_Z margin))) (Some (Num (inject_Z gap)))
    = Returns (mkPhotosPerSheet (Num (inject_Z c)) (Num (inject_Z r))
                 (Num (inject_Z c * inject_Z r)))
    /\ (c * photoWidth + (c - 1) * gap <= w - 2 * margin)%Z
    /\ (w - 2 * margin < (c + 1) * photoWidth + c * gap)%Z
    /\ (r * photoHeight + (r - 1) * gap <= h - 2 * margin)%Z
    /\ (h - 2 * margin < (r + 1) * photoHeight + r * gap)%Z.
Proof.
  intros Hw Hh _ Hpw Hph.
  assert (Hpw' : 0 < inject_Z photoWidth + inject_Z gap).
  { rewrite <- inject_Z_plus. change 0 with (inject_Z 0).
    rewrite <- Zlt_Qlt. exact Hpw. }
  assert (Hph' : 0 < inject_Z photoHeight + inject_Z gap).
  { rewrite <- inject_Z_plus. change 0 with (inject_Z 0).
    rewrite <- Zlt_Qlt. exact Hph. }
  destruct (layout_grid_bounds sheet _ _ _ _ (inject_Z margin) _
              Hw Hh Hpw' Hph')
    as (c & r & Hcall & Hc1 & Hc2 & Hr1 & Hr2).
  exists c, r. split; [ exact Hcall | ].
  repeat split; whole_numbers; lra.
Qed.

Lemma layout_fits_witness :
  exists c r : Z,
    calculatePhotosPerSheet 35 45 a4Sheet (Some (Num 5)) (Some (Num 2))
    = Returns (mkPhotosPerSheet (Num (inject_Z c)) (Num (inject_Z r))
                 (Num (inject_Z c * inject_Z r)))
    /\ (c * 35 + (c - 1) * 2 <= 210 - 2 * 5)%Z
    /\ (210 - 2 * 5 < (c + 1) * 35 + c * 2)%Z.
Proof.
  destruct (layout_fits_and_is_maximal a4Sheet 210 297 35 45 5 2)
    as (c & r & Hcall & Hfit & Hmax & _);
    [ reflexivity | reflexivity
    | repeat constructor; discriminate
    | reflexivity | reflexivity | ].
  exists c, r. auto.
Defined.

(** More usable space never gives fewer columns or rows: a sheet at least
    as wide and high, with a margin at most as large, has at least as many
    of each.  When the usable width and height of the smaller layout, plus
    the gap, are not below zero, its counts are not below zero and its
    total is not above the other total; with counts below zero the total
    is their product and need not grow. *)
Theorem layout_monotone
    (sheet1 sheet2 : SheetSize)
    (w1 h1 w2 h2 photoWidth photoHeight margin1 margin2 gap : Q) :
  SheetSize.width sheet1 = Num w1 -> SheetSize.height sheet1 = Num h1 ->
  SheetSize.width sheet2 = Num w2 -> SheetSize.height sheet2 = Num h2 ->
  0 < photoWidth + gap -> 0 < photoHeight + gap ->
  w1 <= w2 -> h1 <= h2 -> margin2 <= margin1 ->
  exists c1 r1 c2 r2 : Z,
    calculatePhotosPerSheet photoWidth photoHeight sheet1
      (Some (Num margin1)) (Some (Num gap))
    = Returns (mkPhotosPerSheet (Num (inject_Z c1)) (Num (inject_Z r1))
                 (Num (inject_Z c1 * inject_Z r1)))
    /\ calculatePhotosPerSheet photoWidth photoHeight sheet2
         (Some (Num margin2)) (Some (Num gap))
       = Returns (mkPhotosPerSheet (Num (inject_Z c2)) (Num (inject_Z r2))
                    (Num (inject_Z c2 * inject_Z r2)))
    /\ (c1 <= c2)%Z /\ (r1 <= r2)%Z
    /\ (0 <= w1 - 2 * margin1 + gap -> 0 <= h1 - 2 * margin1 + gap ->
        (0 <= c1)%Z /\ (0 <= r1)%Z /\ (c1 * r1 <= c2 * r2)%Z).
Proof.
  intros Hw1 Hh1 Hw2 Hh2 Hpw Hph Hw Hh Hm.
  exists (Qfloor ((w1 - 2 * margin1 + gap) / (photoWidth + gap))),
         (Qfloor ((h1 - 2 * margin1 + gap) / (photoHeight + gap))),
         (Qfloor ((w2 - 2 * margin2 + gap) / (photoWidth + gap))),
         (Qfloor ((h2 - 2 * margin2 + gap) / (photoHeight + gap))).
  assert (Hc : (Qfloor ((w1 - 2 * margin1 + gap) / (photoWidth + gap))
                <= Qfloor ((w2 - 2 * margin2 + gap) / (photoWidth + gap)))%Z).
  { apply Qfloor_resp_le, Qmult_le_compat_r; [ lra | ].
    apply Qlt_le_weak, Qinv_lt_0_compat; assumption. }
  assert (Hr : (Qfloor ((h1 - 2 * margin1 + gap) / (photoHeight + gap))
                <= Qfloor ((h2 - 2 * margin2 + gap) / (photoHeight + gap)))%Z).
  { apply Qfloor_resp_le, Qmult_le_compat_r; [ lra | ].
    apply Qlt_le_weak, Qinv_lt_0_compat; assumption. }
  split.
  { apply calculatePhotosPerSheet_finite; auto; lra. }
  split.
  { apply calculatePhotosPerSheet_finite; auto; lra. }
  split; [ exact Hc | ]. split; [ exact Hr | ].
  intros Hu Hv.
  pose proof (Qfloor_div_nonneg _ _ Hpw Hu) as Hc0.
  pose proof (Qfloor_div_nonneg _ _ Hph Hv) as Hr0.
  split; [ exact Hc0 | ]. split; [ exact Hr0 | ].
  apply Z.mul_le_mono_nonneg; assumption.
Qed.

Lemma layout_monotone_witness :
  exists c1 r1 c2 r2 : Z,
    calculatePhotosPerSheet 35 45 (SheetSize.mk "a5" "A5" 148 210 300)
      (Some (Num 5)) (Some (Num 2))
    = Returns (mkPhotosPerSheet (Num (inject_Z c1)) (Num (inject_Z r1))
                 (Num (inject_Z c1 * inject_Z r1)))
    /\ calculatePhotosPerSheet 35 45 a4Sheet (Some (Num 5)) (Some (Num 2))
       = Returns (mkPhotosPerSheet (Num (inject_Z c2)) (Num (inject_Z r2))
                    (Num (inject_Z c2 * inject_Z r2)))
    /\ (c1 <= c2)%Z /\ (r1 <= r2)%Z
    /\ (0 <= c1)%Z /\ (0 <= r1)%Z /\ (c1 * r1 <= c2 * r2)%Z.
Proof.
  destruct (layout_monotone (SheetSize.mk "a5" "A5" 148 210 300) a4Sheet
              148 210 210 297 35 45 5 5 2)
    as (c1 & r1 & c2 & r2 & H1 & H2 & Hc & Hr & Htotal);
    try reflexivity; try discriminate.
  exists c1, r1, c2, r2.
  destruct Htotal as (H3 & H4 & H5); [ discriminate | discriminate | ].
  repeat split; assumption.
Defined.

End LayoutGrid.

Section LayoutSymmetry.

Lemma mul_comm_same (a b : number) : a * b === b * a.
Proof.
  destruct a as [p | | | ], b as [q | | | ]; cbn [mul same];
    try exact I; try apply same_refl.
  apply Qmult_comm.
Qed.

(** Turning the sheet and the photo by a quarter turn (width and height
    exchanged on both) exchanges columns and rows and keeps the total, for
    all inputs. *)
Theorem layout_transpose
    (photoWidth photoHeight : number) (sheet : SheetSize)
    (margin gap : option number) :
  exists r r' : PhotosPerSheet,
    calculatePhotosPerSheet photoWidth photoHeight sheet margin gap = Returns r
    /\ calculatePhotosPerSheet photoHeight photoWidth
         (SheetSize.mk (SheetSize.id sheet) (SheetSize.name sheet)
            (SheetSize.height sheet) (SheetSize.width sheet)
            (SheetSize.dpi sheet))
         margin gap = Returns r'
    /\ columns r' = rows r /\ rows r' = columns r
    /\ total r' === total r.
Proof.
  do 2 eexists. split; [ reflexivity | ]. split; [ reflexivity | ].
  cbn [columns rows total SheetSize.width SheetSize.height].
  split; [ reflexivity | ]. split; [ reflexivity | ].
  apply mul_comm_same.
Qed.

End LayoutSymmetry.

Section PixelConversion.

Lemma Qfloor_unique (q : Q) (z : Z) :
  inject_Z z <= q -> q < inject_Z z + 1 -> Qfloor q = z.
Proof.
  intros Hlo Hhi.
  pose proof (Qfloor_le q) as Hf1.
  pose proof (Qlt_floor q) as Hf2.
  rewrite inject_Z_plus in Hf2. change (inject_Z 1) with 1 in Hf2.
  assert (H1 : inject_Z (Qfloor q) < inject_Z (z + 1)).
  { rewrite inject_Z_plus. change (inject_Z 1) with 1. lra. }
  assert (H2 : inject_Z z < inject_Z (Qfloor q + 1)).
  { rewrite inject_Z_plus. change (inject_Z 1) with 1. lra. }
  rewrite <- Zlt_Qlt in H1, H2. lia.
Qed.

Lemma pixel_count_monotone (mm1 mm2 dpi : Q) :
  0 < dpi -> mm1 <= mm2 -> mm1 / 25.4 * dpi + 0.5 <= mm2 / 25.4 * dpi + 0.5.
Proof.
  intros Hd Hmm.
  assert (H : mm1 / 25.4 * dpi <= mm2 / 25.4 * dpi).
  { apply Qmult_le_compat_r; [ | lra ].
    apply Qmult_le_compat_r; [ exact Hmm | discriminate ]. }
  lra.
Qed.

(** At a dpi above zero, [mmToPixels] gives a whole number of pixels, never
    below zero for a length that is not, and never fewer pixels for a
    longer length. *)
Theorem mmToPixels_integer_monotone (mm1 mm2 dpi : Q) :
  0 < dpi -> 0 <= mm1 -> mm1 <= mm2 ->
  exists n1 n2 : Z,
    mmToPixels mm1 (Some (Num dpi)) = Returns (Num (inject_Z n1))
    /\ mmToPixels mm2 (Some (Num dpi)) = Returns (Num (inject_Z n2))
    /\ (0 <= n1)%Z /\ (n1 <= n2)%Z.
Proof.
  intros Hd H0 Hmm.
  do 2 eexists.
  split; [ apply mmToPixels_finite | ].
  split; [ apply mmToPixels_finite | ].
  split.
  - replace 0%Z with (Qfloor 0) by reflexivity. apply Qfloor_resp_le.
    pose proof (pixel_count_monotone 0 mm1 dpi Hd H0) as H.
    assert (Hz : 0 / 25.4 * dpi == 0) by (field; discriminate).
    rewrite Hz in H. lra.
  - apply Qfloor_resp_le, pixel_count_monotone; assumption.
Qed.

Lemma mmToPixels_integer_witness :
  exists n1 n2 : Z,
    mmToPixels 35 (Some (Num 300)) = Returns (Num (inject_Z n1))
    /\ mmToPixels 45 (Some (Num 300)) = Returns (Num (inject_Z n2))
    /\ (0 <= n1)%Z /\ (n1 <= n2)%Z.
Proof.
  apply (mmToPixels_integer_monotone 35 45 300);
    [ reflexivity | discriminate | discriminate ].
Defined.

(** From pixels to millimetres and back is exact: for a whole number of
    pixels and any dpi other than zero, [mmToPixels] of [pixelsToMm] gives
    the pixel count back. *)
Theorem pixels_round_trip_exact (pixels : Z) (dpi : Q) :
  ~ dpi == 0 ->
  exists mm : Q,
    pixelsToMm (Num (inject_Z pixels)) (Some (Num dpi)) = Returns (Num mm)
    /\ mmToPixels (Num mm) (Some (Num dpi)) = Returns (Num (inject_Z pixels)).
Proof.
  intros Hd.
  exists (inject_Z pixels * 25.4 / dpi)%Q.
  split; [ apply pixelsToMm_finite, Hd | ].
  rewrite mmToPixels_finite. do 3 f_equal.
  assert (H : inject_Z pixels * 25.4 / dpi / 25.4 * dpi + 0.5
              == inject_Z pixels + 0.5) by (field; exact Hd).
  rewrite H. apply Qfloor_unique; lra.
Qed.

Lemma pixels_round_trip_witness :
  exists mm : Q,
    pixelsToMm (Num (inject_Z 413)) (Some (Num 300)) = Returns (Num mm)
    /\ mmToPixels (Num mm) (Some (Num 300)) = Returns (Num (inject_Z 413)).
Proof.
  apply (pixels_round_trip_exact 413 300). discriminate.
Defined.

(** From millimetres to pixels and back moves a length by at most half a
    pixel, that is 12.7 / dpi millimetres, for every length and every dpi
    above zero. *)
Theorem round_trip_half_pixel (mm dpi : Q) :
  0 < dpi ->
  exists px back : Q,
    mmToPixels mm (Some (Num dpi)) = Returns (Num px)
    /\ pixelsToMm (Num px) (Some (Num dpi)) = Returns (Num back)
    /\ Qabs (back - mm) <= 12.7 / dpi.
Proof.
  intros Hd.
  set (p := (mm / 25.4 * dpi)%Q).
  exists (inject_Z (Qfloor (p + 0.5))),
         (inject_Z (Qfloor (p + 0.5)) * 25.4 / dpi)%Q.
  split; [ apply mmToPixels_finite | ].
  split; [ apply pixelsToMm_finite; lra | ].
  pose proof (round_error p) as Herr.
  apply Qabs_Qle_condition in Herr. destruct Herr as [Hlo Hhi].
  set (e := (inject_Z (Qfloor (p + 0.5)) - p)%Q) in *.
  assert (Hk : 0 < 25.4 / dpi).
  { apply Qlt_shift_div_l; [ exact Hd | lra ]. }
  assert (Heq : (inject_Z (Qfloor (p + 0.5)) * 25.4 / dpi - mm
                 == e * (25.4 / dpi))%Q).
  { unfold e, p. field. lra. }
  assert (Hhalf : 12.7 / dpi == 0.5 * (25.4 / dpi)) by (field; lra).
  rewrite Heq, Hhalf. apply Qabs_Qle_condition.
  assert (H1 : e * (25.4 / dpi) <= 0.5 * (25.4 / dpi)).
  { apply Qmult_le_compat_r; lra. }
  assert (H2 : (- 0.5) * (25.4 / dpi) <= e * (25.4 / dpi)).
  { apply Qmult_le_compat_r; lra. }
  split; lra.
Qed.

(** The bound is reached: 0.05mm at 254 dpi is half a pixel, rounds up to
    one pixel, and comes back as 0.1mm. *)
Lemma round_trip_half_pixel_witness :
  (exists px back : Q,
      mmToPixels 0.05 (Some (Num 254)) = Returns (Num px)
      /\ pixelsToMm (Num px) (Some (Num 254)) = Returns (Num back)
      /\ Qabs (back - 0.05) <= 12.7 / 254)
  /\ (exists back : Q,
        (let* px := mmToPixels 0.05 (Some (Num 254)) in
         pixelsToMm px (Some (Num 254))) = Returns (Num back)
        /\ Qabs (back - 0.05) == 12.7 / 254).
Proof.
  split.
  - apply (round_trip_half_pixel 0.05 254). reflexivity.
  - eexists. split; [ reflexivity | ]. vm_compute. reflexivity.
Defined.

End PixelConversion.

Section Catalogue.

(** The ids of the two catalogues are keys: choosing the id of an entry in
    a selector selects that very entry, whatever was selected before; and
    every standard of the catalogue satisfies
    [0 < headHeightMin < headHeightMax <= 100], [0 < eyeLineFromBottom < 100]
    and has a width and height above zero. *)
Theorem catalogue_ids_are_keys
    (standard selectedStandard : PassportStandard)
    (sheet selectedSheet : SheetSize) :
  In standard passportStandards -> In sheet sheetSizes ->
  CountrySelector_handleChange (PassportStandard.id standard) selectedStandard
  = standard
  /\ SheetSizeSelector_handleChange (SheetSize.id sheet) selectedSheet = sheet
  /\ validStandard standard = true.
Proof.
  intros Hstandard Hsheet. split; [ | split ].
  - cbn in Hstandard.
    repeat (destruct Hstandard as [<- | Hstandard]; [ reflexivity | ]).
    contradiction.
  - cbn in Hsheet.
    repeat (destruct Hsheet as [<- | Hsheet]; [ reflexivity | ]).
    contradiction.
  - pose proof catalogue_standards_valid as Hall.
    rewrite forallb_forall in Hall. apply Hall, Hstandard.
Qed.

Lemma catalogue_ids_witness :
  CountrySelector_handleChange "uk" usStandard
  = nth 1 passportStandards usStandard
  /\ SheetSizeSelector_handleChange "a4" (nth 0 sheetSizes a4Sheet) = a4Sheet
  /\ validStandard (nth 1 passportStandards usStandard) = true.
Proof.
  apply (catalogue_ids_are_keys (nth 1 passportStandards usStandard)
           usStandard a4Sheet (nth 0 sheetSizes a4Sheet)).
  - right. left. reflexivity.
  - right. right. left. reflexivity.
Defined.

(** An id that is in no entry of the catalogue leaves the selection as it
    was, in both selectors. *)
Theorem selector_unknown_id
    (id : string) (selectedStandard : PassportStandard)
    (selectedSheet : SheetSize) :
  ~ In id (map PassportStandard.id passportStandards) ->
  ~ In id (map SheetSize.id sheetSizes) ->
  CountrySelector_handleChange id selectedStandard = selectedStandard
  /\ SheetSizeSelector_handleChange id selectedSheet = selectedSheet.
Proof.
  intros Hstandard Hsheet.
  unfold CountrySelector_handleChange, SheetSizeSelector_handleChange,
    findStandard, findSheet.
  split.
  - destruct (find _ passportStandards) as [s | ] eqn:E; [ | reflexivity ].
    apply find_some in E. destruct E as [Hin Heq].
    apply String.eqb_eq in Heq. exfalso. apply Hstandard.
    rewrite <- Heq. apply in_map, Hin.
  - destruct (find _ sheetSizes) as [s | ] eqn:E; [ | reflexivity ].
    apply find_some in E. destruct E as [Hin Heq].
    apply String.eqb_eq in Heq. exfalso. apply Hsheet.
    rewrite <- Heq. apply in_map, Hin.
Qed.

Lemma selector_unknown_id_witness :
  CountrySelector_handleChange "mars" usStandard = usStandard
  /\ SheetSizeSelector_handleChange "mars" a4Sheet = a4Sheet.
Proof.
  apply (selector_unknown_id "mars" usStandard a4Sheet).
  - cbn. intros H.
    repeat (destruct H as [H | H]; [ discriminate H | ]). exact H.
  - cbn. intros H.
    repeat (destruct H as [H | H]; [ discriminate H | ]). exact H.
Defined.

End Catalogue.

(* ================================================================== *)
(** * Face detection *)
(* ================================================================== *)

Section NumberOrder.

(** The order of the numbers that are not [NaN] is total. *)
Lemma gtb_true_leb (a b : number) : (a >? b) = true -> (b <=? a) = true.
Proof.
  destruct a as [p | | | ], b as [q | | | ]; cbn; try congruence.
  intros H. change ((Num q <? Num p) = true) in H.
  apply ltb_finite in H. apply Qle_bool_iff. lra.
Qed.

Lemma gtb_false_leb (a b : number) :
  a <> NaN -> b <> NaN -> (a >? b) = false -> (a <=? b) = true.
Proof.
  destruct a as [p | | | ], b as [q | | | ]; cbn; try congruence.
  intros _ _ H. apply Qle_bool_iff.
  destruct (Qlt_le_dec q p) as [Hlt | Hle]; [ | exact Hle ].
  apply ltb_finite in Hlt. unfold ltb in Hlt. congruence.
Qed.

Lemma leb_refl (a : number) : a <> NaN -> (a <=? a) = true.
Proof.
  destruct a as [p | | | ]; cbn; try congruence.
  intros _. apply Qle_bool_iff. lra.
Qed.

Lemma leb_trans (a b c : number) :
  (a <=? b) = true -> (b <=? c) = true -> (a <=? c) = true.
Proof.
  destruct a as [p | | | ], b as [q | | | ], c as [r | | | ]; cbn;
    try congruence.
  rewrite !Qle_bool_iff. intros; lra.
Qed.

Lemma gtb_not_NaN (a b : number) : (a >? b) = true -> a <> NaN.
Proof. destruct a, b; cbn; congruence. Qed.

Lemma above_07_above_05 (a : number) : (a >? 0.7) = true -> (a >? 0.5) = true.
Proof.
  destruct a as [p | | | ]; cbn; try congruence.
  intros H. change ((Num 0.7 <? Num p) = true) in H.
  change ((Num 0.5 <? Num p) = true).
  apply ltb_finite in H. apply ltb_finite. lra.
Qed.

End NumberOrder.

Section FaceSelection.

(** [reduce] with the comparison of [detectFace] picks an entry of the
    list whose score no other entry exceeds. *)
Lemma reduce_best (first : Detection) (rest : list Detection) :
  (forall d, In d (first :: rest) -> Detection.score d <> NaN) ->
  let best :=
    reduce (fun a b => if Detection.score a >? Detection.score b then a else b)
      first rest in
  In best (first :: rest)
  /\ forall d, In d (first :: rest) ->
       (Detection.score d <=? Detection.score best) = true.
Proof.
  unfold reduce. revert first.
  induction rest as [ | next rest IH ]; intros first Hnan.
  - cbn. split; [ left; reflexivity | ].
    intros d [<- | []]. apply leb_refl, Hnan. left. reflexivity.
  - cbn [fold_left].
    set (kept := if Detection.score first >? Detection.score next
                 then first else next).
    assert (Hkept : In kept (first :: next :: rest)
                    /\ (Detection.score first <=? Detection.score kept) = true
                    /\ (Detection.score next <=? Detection.score kept) = true).
    { unfold kept.
      destruct (Detection.score first >? Detection.score next) eqn:E.
      - split; [ left; reflexivity | ]. split.
        + apply leb_refl, Hnan. left. reflexivity.
        + apply gtb_true_leb, E.
      - split; [ right; left; reflexivity | ]. split.
        + apply gtb_false_leb; [ | | exact E ]; apply Hnan; cbn; auto.
        + apply leb_refl, Hnan. right. left. reflexivity. }
    destruct Hkept as (Hin & Hfirst & Hnext).
    destruct (IH kept) as [IHin IHmax].
    { intros d [<- | Hd]; [ apply Hnan, Hin | apply Hnan; cbn; auto ]. }
    split.
    + destruct IHin as [<- | Hr]; [ exact Hin | right; right; exact Hr ].
    + intros d [<- | [<- | Hd]].
      * eapply leb_trans; [ exact Hfirst | apply IHmax; left; reflexivity ].
      * eapply leb_trans; [ exact Hnext | apply IHmax; left; reflexivity ].
      * apply IHmax. right. exact Hd.
Qed.

(** The outcome of the selection, case by case. *)
Lemma selectFace_cases (results : list Detection) (st : HookState) :
  (exists best : Detection,
      selectFace results st
      = (Some (mkDetectedFace (estimateFaceBox (Detection.box best))
                 (Detection.score best)),
         setDetectedFace
           (Some (mkDetectedFace (estimateFaceBox (Detection.box best))
                    (Detection.score best))) st)
      /\ In best results /\ isConfidentPerson best = true
      /\ forall d, In d results -> isConfidentPerson d = true ->
           (Detection.score d <=? Detection.score best) = true)
  \/ (exists other : Detection,
        selectFace results st
        = (Some (mkDetectedFace (Detection.box other) (Detection.score other)),
           setDetectedFace
             (Some (mkDetectedFace (Detection.box other)
                      (Detection.score other))) st)
        /\ find (fun r => Detection.score r >? 0.5) results = Some other
        /\ forall d, In d results -> isConfidentPerson d = false)
  \/ (selectFace results st = (None, setError (Some msgNoFace) st)
      /\ forall d, In d results -> (Detection.score d >? 0.5) = false).
Proof.
  unfold selectFace. fold isConfidentPerson.
  destruct (filter isConfidentPerson results) as [ | first rest ] eqn:Efilter.
  - assert (Hnone : forall d, In d results -> isConfidentPerson d = false).
    { intros d Hd. destruct (isConfidentPerson d) eqn:E; [ | reflexivity ].
      assert (Hin : In d (filter isConfidentPerson results))
        by (apply filter_In; auto).
      rewrite Efilter in Hin. contradiction. }
    destruct (find _ results) as [other | ] eqn:Efind.
    + right. left. exists other. auto.
    + right. right. split; [ reflexivity | ].
      intros d Hd. exact (find_none _ _ Efind d Hd).
  - left.
    assert (Hall : forall d, In d (first :: rest) ->
                     In d results /\ isConfidentPerson d = true).
    { intros d Hd. rewrite <- Efilter in Hd. apply filter_In in Hd. exact Hd. }
    destruct (reduce_best first rest) as [Hin Hmax].
    { intros d Hd. destruct (Hall d Hd) as [_ Hp].
      unfold isConfidentPerson in Hp. apply andb_true_iff in Hp.
      destruct Hp as [_ Hp]. exact (gtb_not_NaN _ _ Hp). }
    eexists. split; [ reflexivity | ].
    destruct (Hall _ Hin) as [Hin' Hp]. split; [ exact Hin' | ].
    split; [ exact Hp | ].
    intros d Hd Hdp. apply Hmax. rewrite <- Efilter. apply filter_In. auto.
Qed.

End FaceSelection.

Section DetectFace.

Variables (pipelineResult : outcome Detector) (imageSrc : string).
Variables (detectorPromise : option (outcome Detector)) (st : HookState).

(** The hook state when the detector has answered: loading flags set, the
    old error cleared, the face and the validation as they were. *)
Lemma detectFace_unfold :
  exists st0 : HookState,
    error st0 = None /\ detectedFace st0 = detectedFace st
    /\ validation st0 = validation st
    /\ detectFace pipelineResult imageSrc detectorPromise st
       = match detectorAnswer pipelineResult detectorPromise imageSrc with
         | Returns results =>
             (fst (selectFace results st0),
              match detectorPromise with
              | None => Some pipelineResult
              | Some _ => detectorPromise
              end,
              setIsLoading false (snd (selectFace results st0)))
         | Throws _ =>
             (None,
              match detectorPromise with
              | None => Some pipelineResult
              | Some _ => detectorPromise
              end,
              setIsLoading false (setError (Some msgDetectFailed) st0))
         end.
Proof.
  unfold detectFace, detectorAnswer, getDetector.
  destruct detectorPromise as [promise | ].
  - exists (setError None (setIsLoading true st)).
    split; [ reflexivity | ]. split; [ reflexivity | ].
    split; [ reflexivity | ].
    cbv beta iota zeta.
    destruct (bind promise (fun detector => detector imageSrc))
      as [results | e]; [ | reflexivity ].
    destruct (selectFace results _); reflexivity.
  - exists (setLoadingProgress 100
              (setIsModelLoading false
                 (setLoadingProgress 0
                    (setIsModelLoading true
                       (setError None (setIsLoading true st)))))).
    split; [ reflexivity | ]. split; [ reflexivity | ].
    split; [ reflexivity | ].
    cbv beta iota zeta.
    destruct (bind pipelineResult (fun detector => detector imageSrc))
      as [results | e]; [ | reflexivity ].
    destruct (selectFace results _); reflexivity.
Qed.

(** When the detector answers, [detectFace] returns a face exactly when
    some detection scores above 0.5, with any label.  With a face, the
    error is cleared and the face is stored; without one, the error is the
    no-face message and the face stored before stays.  [isLoading] is
    false at the end. *)
Theorem detectFace_finds_iff (results : list Detection) :
  detectorAnswer pipelineResult detectorPromise imageSrc = Returns results ->
  exists (face : option DetectedFace) (promise' : option (outcome Detector))
         (st' : HookState),
    detectFace pipelineResult imageSrc detectorPromise st
    = (face, promise', st')
    /\ (face = None <->
        forall d, In d results -> (Detection.score d >? 0.5) = false)
    /\ (face = None ->
        error st' = Some msgNoFace /\ detectedFace st' = detectedFace st)
    /\ (face <> None -> error st' = None /\ detectedFace st' = face)
    /\ isLoading st' = false.
Proof.
  intros Hanswer.
  destruct detectFace_unfold as (st0 & Herr & Hface & _ & Hcall).
  rewrite Hanswer in Hcall. rewrite Hcall. clear Hcall.
  do 3 eexists. split; [ reflexivity | ].
  destruct (selectFace_cases results st0)
    as [(best & -> & Hin & Hp & _)
       | [(other & -> & Hfind & _) | (-> & Hnone)]];
    cbn [fst snd].
  - split; [ | split; [ | split ] ]; try reflexivity; try discriminate.
    + split; [ discriminate | ]. intros Hall. exfalso.
      unfold isConfidentPerson in Hp. apply andb_true_iff in Hp.
      destruct Hp as [_ Hp]. apply above_07_above_05 in Hp.
      rewrite (Hall best Hin) in Hp. discriminate.
    + intros _. split; [ exact Herr | reflexivity ].
  - split; [ | split; [ | split ] ]; try reflexivity; try discriminate.
    + split; [ discriminate | ]. intros Hall. exfalso.
      apply find_some in Hfind. destruct Hfind as [Hin Hs].
      rewrite (Hall other Hin) in Hs. discriminate.
    + intros _. split; [ exact Herr | reflexivity ].
  - split; [ | split; [ | split ] ]; try reflexivity.
    + split; [ intros _; exact Hnone | reflexivity ].
    + intros _. split; [ reflexivity | exact Hface ].
    + intros H. contradiction.
Qed.

(** When loading the detector or running it fails, [detectFace] returns
    no face, reports the failure message, keeps the face stored before and
    ends with [isLoading] false. *)
Theorem detectFace_failure (e : ErrorKind) :
  detectorAnswer pipelineResult detectorPromise imageSrc = Throws e ->
  exists (promise' : option (outcome Detector)) (st' : HookState),
    detectFace pipelineResult imageSrc detectorPromise st
    = (None, promise', st')
    /\ error st' = Some msgDetectFailed
    /\ detectedFace st' = detectedFace st
    /\ validation st' = validation st
    /\ isLoading st' = false.
Proof.
  intros Hanswer.
  destruct detectFace_unfold as (st0 & _ & Hface & Hval & Hcall).
  rewrite Hanswer in Hcall. rewrite Hcall.
  do 2 eexists. split; [ reflexivity | ].
  repeat split; assumption.
Qed.

(** With at least one "person" detection scoring above 0.7, the face is
    estimated from such a detection whose score none of the others
    exceeds, and carries that score. *)
Theorem detectFace_best_person (results : list Detection) :
  detectorAnswer pipelineResult detectorPromise imageSrc = Returns results ->
  (exists d, In d results /\ isConfidentPerson d = true) ->
  exists (best : Detection) (promise' : option (outcome Detector))
         (st' : HookState),
    detectFace pipelineResult imageSrc detectorPromise st
    = (Some (mkDetectedFace (estimateFaceBox (Detection.box best))
               (Detection.score best)),
       promise', st')
    /\ In best results
    /\ Detection.label best = "person"%string
    /\ (Detection.score best >? 0.7) = true
    /\ forall d, In d results ->
         Detection.label d = "person"%string ->
         (Detection.score d >? 0.7) = true ->
         (Detection.score d <=? Detection.score best) = true.
Proof.
  intros Hanswer (d0 & Hd0 & Hp0).
  destruct detectFace_unfold as (st0 & _ & _ & _ & Hcall).
  rewrite Hanswer in Hcall. rewrite Hcall. clear Hcall.
  destruct (selectFace_cases results st0)
    as [(best & -> & Hin & Hp & Hmax)
       | [(other & _ & _ & Hnone) | (_ & Hnone)]].
  - exists best. do 2 eexists. split; [ reflexivity | ].
    split; [ exact Hin | ].
    unfold isConfidentPerson in Hp. apply andb_true_iff in Hp.
    destruct Hp as [Hlabel Hscore]. apply String.eqb_eq in Hlabel.
    split; [ exact Hlabel | ]. split; [ exact Hscore | ].
    intros d Hd Hl Hs. apply Hmax; [ exact Hd | ].
    unfold isConfidentPerson. rewrite Hl, Hs. reflexivity.
  - rewrite (Hnone d0 Hd0) in Hp0. discriminate.
  - exfalso. unfold isConfidentPerson in Hp0. apply andb_true_iff in Hp0.
    destruct Hp0 as [_ Hs]. apply above_07_above_05 in Hs.
    rewrite (Hnone d0 Hd0) in Hs. discriminate.
Qed.

(** Without a "person" detection above 0.7, the first detection scoring
    above 0.5, whatever its label, is returned as the face with its whole
    box: the estimate of the face region is not applied. *)
Theorem detectFace_fallback (results : list Detection) (other : Detection) :
  detectorAnswer pipelineResult detectorPromise imageSrc = Returns results ->
  (forall d, In d results -> isConfidentPerson d = false) ->
  find (fun r => Detection.score r >? 0.5) results = Some other ->
  exists (promise' : option (outcome Detector)) (st' : HookState),
    detectFace pipelineResult imageSrc detectorPromise st
    = (Some (mkDetectedFace (Detection.box other) (Detection.score other)),
       promise', st')
    /\ In other results
    /\ (Detection.score other >? 0.5) = true.
Proof.
  intros Hanswer Hnone Hfind.
  destruct detectFace_unfold as (st0 & _ & _ & _ & Hcall).
  rewrite Hanswer in Hcall. rewrite Hcall. clear Hcall.
  destruct (selectFace_cases results st0)
    as [(best & _ & Hin & Hp & _)
       | [(other' & -> & Hfind' & _) | (_ & Hnone')]].
  - rewrite (Hnone best Hin) in Hp. discriminate.
  - rewrite Hfind in Hfind'. injection Hfind' as <-.
    do 2 eexists. split; [ reflexivity | ].
    apply find_some in Hfind. exact Hfind.
  - apply find_some in Hfind. destruct Hfind as [Hin Hs].
    rewrite (Hnone' other Hin) in Hs. discriminate.
Qed.

(** The detector is loaded at most once: after any call the promise is
    set, a set promise is never replaced, and with a set promise the
    pipeline is not consulted.  In particular a load that failed fails
    every later call, whatever the pipeline would give then. *)
Theorem detector_loaded_once :
  exists (face : option DetectedFace) (promise' : outcome Detector)
         (st' : HookState),
    detectFace pipelineResult imageSrc detectorPromise st
    = (face, Some promise', st')
    /\ promise' = match detectorPromise with
                  | None => pipelineResult
                  | Some promise => promise
                  end
    /\ (forall (pipeline1 pipeline2 : outcome Detector) (src : string)
               (st2 : HookState),
          detectFace pipeline1 src (Some promise') st2
          = detectFace pipeline2 src (Some promise') st2)
    /\ (forall (e : ErrorKind) (pipeline2 : outcome Detector) (src : string)
               (st2 : HookState),
          promise' = Throws e ->
          fst (fst (detectFace pipeline2 src (Some promise') st2)) = None
          /\ error (snd (detectFace pipeline2 src (Some promise') st2))
             = Some msgDetectFailed).
Proof.
  destruct detectorPromise as [promise | ].
  - destruct (detectFace pipelineResult imageSrc (Some promise) st)
      as [[face promise'] st'] eqn:E.
    exists face, promise, st'.
    assert (Hp : promise' = Some promise).
    { unfold detectFace, getDetector in E.
      destruct (bind promise _); [ destruct (selectFace _ _) | ];
        injection E as _ <- _; reflexivity. }
    subst promise'. split; [ reflexivity | ]. split; [ reflexivity | ].
    split; [ reflexivity | ].
    intros e pipeline2 src st2 ->. split; reflexivity.
  - destruct (detectFace pipelineResult imageSrc None st)
      as [[face promise'] st'] eqn:E.
    exists face, pipelineResult, st'.
    assert (Hp : promise' = Some pipelineResult).
    { unfold detectFace, getDetector in E. cbv zeta in E.
      destruct (bind pipelineResult _); [ destruct (selectFace _ _) | ];
        injection E as _ <- _; reflexivity. }
    subst promise'. split; [ reflexivity | ]. split; [ reflexivity | ].
    split; [ reflexivity | ].
    intros e pipeline2 src st2 ->. split; reflexivity.
Qed.

End DetectFace.

Lemma detectFace_finds_witness :
  exists (face : option DetectedFace) (st' : HookState),
    fst (detectFace (Returns catDetector) "photo" None idleState)
    = (face, Some (Returns catDetector))
    /\ snd (detectFace (Returns catDetector) "photo" None idleState) = st'
    /\ face <> None /\ error st' = None /\ detectedFace st' = face.
Proof.
  destruct (detectFace_finds_iff (Returns catDetector) "photo" None idleState
              [sampleCat] eq_refl)
    as (face & promise' & st' & Hcall & Hiff & _ & Hsome & _).
  exists face, st'.
  assert (Hface : face <> None).
  { intros Hnone. destruct Hiff as [Hiff _].
    specialize (Hiff Hnone sampleCat (or_introl eq_refl)).
    discriminate Hiff. }
  rewrite Hcall. cbn [fst snd].
  split.
  - vm_compute in Hcall. injection Hcall as _ <- _. reflexivity.
  - split; [ reflexivity | ]. split; [ exact Hface | apply Hsome, Hface ].
Defined.

Lemma detectFace_failure_witness :
  exists (promise' : option (outcome Detector)) (st' : HookState),
    detectFace (Throws ModelUnavailable) "photo" None idleState
    = (None, promise', st')
    /\ error st' = Some msgDetectFailed.
Proof.
  destruct (detectFace_failure (Throws ModelUnavailable) "photo" None idleState
              ModelUnavailable eq_refl)
    as (promise' & st' & Hcall & Herr & _).
  exists promise', st'. split; assumption.
Defined.

Lemma detectFace_best_person_witness :
  exists (best : Detection) (promise' : option (outcome Detector))
         (st' : HookState),
    detectFace (Returns personDetector) "photo" None idleState
    = (Some (mkDetectedFace (estimateFaceBox (Detection.box best))
               (Detection.score best)),
       promise', st')
    /\ (Detection.score samplePerson <=? Detection.score best) = true
    /\ (Detection.score faintPerson <=? Detection.score best) = true.
Proof.
  destruct (detectFace_best_person (Returns personDetector) "photo" None
              idleState [sampleCat; faintPerson; samplePerson] eq_refl)
    as (best & promise' & st' & Hcall & _ & _ & _ & Hmax).
  - exists samplePerson. split; [ right; right; left | ]; reflexivity.
  - exists best, promise', st'. split; [ exact Hcall | ].
    split; apply Hmax; try reflexivity.
    + right. right. left. reflexivity.
    + right. left. reflexivity.
Defined.

Lemma detectFace_fallback_witness :
  exists (promise' : option (outcome Detector)) (st' : HookState),
    detectFace (Returns catDetector) "photo" None idleState
    = (Some (mkDetectedFace (Detection.box sampleCat)
               (Detection.score sampleCat)),
       promise', st').
Proof.
  destruct (detectFace_fallback (Returns catDetector) "photo" None idleState
              [sampleCat] sampleCat eq_refl)
    as (promise' & st' & Hcall & _).
  - intros d [<- | []]. reflexivity.
  - reflexivity.
  - exists promise', st'. exact Hcall.
Defined.

Section FaceRegion.

Variables (personBox : FaceBox) (left top right bottom : Q).
Hypothesis person_left : xmin personBox = Num left.
Hypothesis person_top : ymin personBox = Num top.
Hypothesis person_right : xmax personBox = Num right.
Hypothesis person_bottom : ymax personBox = Num bottom.

(** The face region estimated from a person box lies inside it: it keeps
    the top edge and the horizontal centre, is 60% as wide (20% cut on each
    side) and 40% as high. *)
Theorem estimateFaceBox_geometry :
  left <= right -> top <= bottom ->
  exists l t r b : Q,
    estimateFaceBox personBox = mkFaceBox (Num l) (Num t) (Num r) (Num b)
    /\ left <= l /\ l <= r /\ r <= right
    /\ t == top /\ t <= b /\ b <= bottom
    /\ r - l == 0.6 * (right - left)
    /\ b - t == 0.4 * (bottom - top)
    /\ (l + r) / 2 == (left + right) / 2.
Proof.
  intros Hx Hy. unfold estimateFaceBox.
  rewrite person_left, person_top, person_right, person_bottom.
  cbn [add sub mul neg].
  do 4 eexists. split; [ reflexivity | ].
  repeat split; try lra.
  field.
Qed.

End FaceRegion.

Lemma estimateFaceBox_witness :
  exists l t r b : Q,
    estimateFaceBox (Detection.box samplePerson)
    = mkFaceBox (Num l) (Num t) (Num r) (Num b)
    /\ 100 <= l /\ r <= 300 /\ b <= 540
    /\ r - l == 0.6 * (300 - 100)
    /\ b - t == 0.4 * (540 - 40).
Proof.
  destruct (estimateFaceBox_geometry (Detection.box samplePerson)
              100 40 300 540 eq_refl eq_refl eq_refl eq_refl)
    as (l & t & r & b & Hbox & H1 & _ & H3 & _ & _ & H6 & H7 & H8 & _);
    [ discriminate | discriminate | ].
  exists l, t, r, b. repeat split; assumption.
Defined.

(* ================================================================== *)
(** * Compliance validator, further properties *)
(* ================================================================== *)

Section ValidatorFinite.

Variables (face : DetectedFace) (standard : PassportStandard) (st : HookState).
Variables (left top right bottom imageWidth imageHeight : Q).
Variables (hmin hmax eye : Q).
Hypothesis face_left : xmin (box face) = Num left.
Hypothesis face_top : ymin (box face) = Num top.
Hypothesis face_right : xmax (box face) = Num right.
Hypothesis face_bottom : ymax (box face) = Num bottom.
Hypothesis standard_min : PassportStandard.headHeightMin standard = Num hmin.
Hypothesis standard_max : PassportStandard.headHeightMax standard = Num hmax.
Hypothesis standard_eye :
  PassportStandard.eyeLineFromBottom standard = Num eye.
Hypothesis imageWidth_pos : 0 < imageWidth.
Hypothesis imageHeight_pos : 0 < imageHeight.

Let hh : Q := headHeightPercentOf top bottom imageHeight.
Let el : Q := eyeLinePercentOf top bottom imageHeight.
Let co : Q := centerOffsetOf left right imageWidth.

(** The report on finite inputs: the measurements are finite and the
    checks are comparisons of rationals. *)
Lemma validateFace_finite :
  exists r : FaceValidation,
    validateFace face (Num imageWidth) (Num imageHeight) standard st
    = Returns (r, setValidation r st)
    /\ headHeightPercent r = Num hh
    /\ eyeLinePercent r = Num el
    /\ centerOffset r = Num co
    /\ headHeightValid r = Qle_bool (hmin * 0.8) hh && Qle_bool hh (hmax * 1.2)
    /\ eyeLineValid r = Qle_bool (Qabs (el - eye)) 15
    /\ centeredValid r = Qle_bool co 10
    /\ messages r
       = (let failing :=
            (if headHeightValid r then []
             else if Num hh <? Num (hmin * 0.8)
                  then [msgTooSmall] else [msgTooLarge])
            ++ (if eyeLineValid r then []
                else if Num el <? Num eye
                     then [msgEyesLow] else [msgEyesHigh])
            ++ (if centeredValid r then [] else [msgNotCentered]) in
          match failing with [] => [msgSuccess] | _ => failing end).
Proof.
  destruct (validateFace_report face (Num imageWidth) (Num imageHeight)
              standard st) as (r & Hcall & _ & _ & _ & Hmsgs).
  exists r. split; [ exact Hcall | ].
  assert (Hw : ~ imageWidth == 0) by lra.
  assert (Hh : ~ imageHeight == 0) by lra.
  unfold validateFace in Hcall. injection Hcall as Hr _.
  rewrite face_left, face_top, face_right, face_bottom,
    standard_min, standard_max, standard_eye in Hr.
  rewrite standard_min, standard_eye in Hmsgs.
  cbn [add sub mul neg] in Hr, Hmsgs.
  repeat rewrite (div_finite _ _ Hh) in Hr.
  repeat rewrite (div_finite _ _ Hw) in Hr.
  rewrite (div_finite _ 2) in Hr by discriminate.
  cbn [add sub mul neg Math_abs] in Hr.
  repeat rewrite (div_finite _ _ Hw) in Hr.
  cbn [add sub mul neg Math_abs] in Hr.
  assert (Hpct : headHeightPercent r = Num hh) by (rewrite <- Hr; reflexivity).
  assert (Hel : eyeLinePercent r = Num el) by (rewrite <- Hr; reflexivity).
  rewrite Hpct, Hel in Hmsgs.
  split; [ exact Hpct | ]. split; [ exact Hel | ].
  split; [ rewrite <- Hr; reflexivity | ].
  split; [ rewrite <- Hr; reflexivity | ].
  split; [ rewrite <- Hr; reflexivity | ].
  split; [ rewrite <- Hr; reflexivity | ].
  exact Hmsgs.
Qed.

End ValidatorFinite.

Section ValidatorMessages.

Lemma In_existsb (m : string) (l : list string) :
  In m l <-> existsb (String.eqb m) l = true.
Proof.
  rewrite existsb_exists. split.
  - intros H. exists m. split; [ exact H | apply String.eqb_refl ].
  - intros (m' & H & E). apply String.eqb_eq in E. subst. exact H.
Qed.

Lemma Qle_bool_false (p q : Q) : Qle_bool p q = false <-> q < p.
Proof. exact (leb_finite_false p q). Qed.

(** Which messages a report holds, in terms of its flags and of the two
    comparisons that choose a direction. *)
Lemma messages_by_flags (hv ev cv small low : bool) :
  let failing :=
    (if hv then [] else if small then [msgTooSmall] else [msgTooLarge])
    ++ (if ev then [] else if low then [msgEyesLow] else [msgEyesHigh])
    ++ (if cv then [] else [msgNotCentered]) in
  let messages := match failing with [] => [msgSuccess] | _ => failing end in
  (In msgTooSmall messages <-> hv = false /\ small = true)
  /\ (In msgTooLarge messages <-> hv = false /\ small = false)
  /\ (In msgEyesLow messages <-> ev = false /\ low = true)
  /\ (In msgEyesHigh messages <-> ev = false /\ low = false)
  /\ (In msgNotCentered messages <-> cv = false)
  /\ (In msgSuccess messages <-> hv && ev && cv = true).
Proof.
  cbv zeta. rewrite !In_existsb.
  destruct hv, ev, cv, small, low; vm_compute;
    repeat split; try discriminate; try reflexivity;
    intros [? ?]; discriminate.
Qed.

Variables (face : DetectedFace) (standard : PassportStandard) (st : HookState).
Variables (left top right bottom imageWidth imageHeight : Q).
Variables (hmin hmax eye : Q).
Hypothesis face_left : xmin (box face) = Num left.
Hypothesis face_top : ymin (box face) = Num top.
Hypothesis face_right : xmax (box face) = Num right.
Hypothesis face_bottom : ymax (box face) = Num bottom.
Hypothesis standard_min : PassportStandard.headHeightMin standard = Num hmin.
Hypothesis standard_max : PassportStandard.headHeightMax standard = Num hmax.
Hypothesis standard_eye :
  PassportStandard.eyeLineFromBottom standard = Num eye.
Hypothesis imageWidth_pos : 0 < imageWidth.
Hypothesis imageHeight_pos : 0 < imageHeight.

(** Each message of the report says on which side its measurement lies:
    too small below the head-height band and too large above it, eyes too
    low below the eye band and too high above it, not centred beyond an
    offset of 10%; the success message stands exactly when the photo is
    valid. *)
Theorem validateFace_messages_iff :
  hmin * 0.8 <= hmax * 1.2 ->
  exists (r : FaceValidation) (st' : HookState),
    validateFace face (Num imageWidth) (Num imageHeight) standard st
    = Returns (r, st')
    /\ (In msgTooSmall (messages r) <->
        headHeightPercentOf top bottom imageHeight < hmin * 0.8)
    /\ (In msgTooLarge (messages r) <->
        hmax * 1.2 < headHeightPercentOf top bottom imageHeight)
    /\ (In msgEyesLow (messages r) <->
        eyeLinePercentOf top bottom imageHeight < eye - 15)
    /\ (In msgEyesHigh (messages r) <->
        eye + 15 < eyeLinePercentOf top bottom imageHeight)
    /\ (In msgNotCentered (messages r) <->
        10 < centerOffsetOf left right imageWidth)
    /\ (In msgSuccess (messages r) <-> isValid r = true).
Proof.
  intros Hband.
  destruct (validateFace_finite face standard st left top right bottom
              imageWidth imageHeight hmin hmax eye)
    as (r & Hcall & _ & _ & _ & Hhv & Hev & Hcv & Hmsgs); try assumption.
  destruct (validateFace_report face (Num imageWidth) (Num imageHeight)
              standard st) as (r' & Hcall' & _ & _ & Hvalid & _).
  rewrite Hcall in Hcall'. injection Hcall' as <-.
  exists r, (setValidation r st). split; [ exact Hcall | ].
  cbv zeta in Hmsgs. rewrite Hmsgs, Hvalid.
  set (hh := headHeightPercentOf top bottom imageHeight) in *.
  set (el := eyeLinePercentOf top bottom imageHeight) in *.
  set (co := centerOffsetOf left right imageWidth) in *.
  destruct (messages_by_flags (headHeightValid r) (eyeLineValid r)
              (centeredValid r) (Num hh <? Num (hmin * 0.8))
              (Num el <? Num eye))
    as (Hsmall & Hlarge & Hlow & Hhigh & Hcenter & Hsuccess).
  cbv zeta in Hsmall, Hlarge, Hlow, Hhigh, Hcenter, Hsuccess.
  rewrite Hsmall, Hlarge, Hlow, Hhigh, Hcenter, Hsuccess.
  clear Hsmall Hlarge Hlow Hhigh Hcenter Hsuccess Hmsgs Hcall Hvalid.
  rewrite Hhv, Hev, Hcv. clear Hhv Hev Hcv.
  rewrite andb_false_iff, !Qle_bool_false.
  assert (Hlt : forall p q, (Num p <? Num q) = false <-> q <= p).
  { intros p q. split; intros Hf.
    - apply Qnot_lt_le. intros Hpq. apply ltb_finite in Hpq. congruence.
    - destruct (Num p <? Num q) eqn:E; [ | reflexivity ].
      apply ltb_finite in E. lra. }
  rewrite !ltb_finite, !Hlt.
  assert (Habs : Qabs (el - eye) <= 15 <-> - (15) <= el - eye <= 15)
    by apply Qabs_Qle_condition.
  assert (Habs' : 15 < Qabs (el - eye) <-> (el - eye < - (15) \/ 15 < el - eye)).
  { split.
    - intros Hf.
      destruct (Qlt_le_dec (el - eye) (- (15))) as [H1 | H1]; [ left; exact H1 | ].
      destruct (Qlt_le_dec 15 (el - eye)) as [H2 | H2]; [ right; exact H2 | ].
      exfalso. assert (Hle : Qabs (el - eye) <= 15) by (apply Habs; split; lra).
      lra.
    - intros Hf. apply Qnot_le_lt. intros Hle. apply Habs in Hle. lra. }
  rewrite Habs'.
  repeat split; try (intros; lra); try (intros [? ?]; lra);
    intros Hf; exact Hf.
Qed.

End ValidatorMessages.

Section ValidatorInvariance.

Variable (standard : PassportStandard).
Variables (hmin hmax eye : Q).
Hypothesis standard_min : PassportStandard.headHeightMin standard = Num hmin.
Hypothesis standard_max : PassportStandard.headHeightMax standard = Num hmax.
Hypothesis standard_eye :
  PassportStandard.eyeLineFromBottom standard = Num eye.



Variables (face : DetectedFace) (st : HookState).
Variables (left top right bottom imageWidth imageHeight : Q).
Hypothesis face_left : xmin (box face) = Num left.
Hypothesis face_top : ymin (box face) = Num top.
Hypothesis face_right : xmax (box face) = Num right.
Hypothesis face_bottom : ymax (box face) = Num bottom.
Hypothesis imageWidth_pos : 0 < imageWidth.
Hypothesis imageHeight_pos : 0 < imageHeight.



End ValidatorInvariance.

Section ValidatorPixels.

Variables (face : DetectedFace) (standard : PassportStandard) (st : HookState).
Variables (left top right bottom imageWidth imageHeight : Q).
Variables (hmin hmax eye : Q).
Hypothesis face_left : xmin (box face) = Num left.
Hypothesis face_top : ymin (box face) = Num top.
Hypothesis face_right : xmax (box face) = Num right.
Hypothesis face_bottom : ymax (box face) = Num bottom.
Hypothesis standard_min : PassportStandard.headHeightMin standard = Num hmin.
Hypothesis standard_max : PassportStandard.headHeightMax standard = Num hmax.
Hypothesis standard_eye :
  PassportStandard.eyeLineFromBottom standard = Num eye.
Hypothesis imageWidth_pos : 0 < imageWidth.
Hypothesis imageHeight_pos : 0 < imageHeight.




End ValidatorPixels.

(** The sample face in its 200 x 200 image, under the US standard. *)
Lemma validateFace_messages_witness :
  exists (r : FaceValidation) (st' : HookState),
    validateFace sampleFace 200 200 usStandard idleState = Returns (r, st')
    /\ (In msgEyesHigh (messages r) <->
        56 + 15 < eyeLinePercentOf 20 120 200)
    /\ (In msgSuccess (messages r) <-> isValid r = true).
Proof.
  destruct (validateFace_messages_iff sampleFace usStandard idleState
              50 20 150 120 200 200 50 69 56
              eq_refl eq_refl eq_refl eq_refl eq_refl eq_refl eq_refl
              eq_refl eq_refl)
    as (r & st' & Hcall & _ & _ & _ & Hhigh & _ & Hsuccess);
    [ discriminate | ].
  exists r, st'. auto.
Defined.




(* ================================================================== *)
(** * Auto-alignment solver, further properties *)
(* ================================================================== *)

Section SolverFinite.

Variables (face : DetectedFace) (standard : PassportStandard).
Variables (left top right bottom : Q).
Variables (imageWidth imageHeight canvasWidth canvasHeight : Q).
Variables (hmin hmax eye : Q).
Hypothesis face_left : xmin (box face) = Num left.
Hypothesis face_top : ymin (box face) = Num top.
Hypothesis face_right : xmax (box face) = Num right.
Hypothesis face_bottom : ymax (box face) = Num bottom.
Hypothesis standard_min : PassportStandard.headHeightMin standard = Num hmin.
Hypothesis standard_max : PassportStandard.headHeightMax standard = Num hmax.
Hypothesis standard_eye :
  PassportStandard.eyeLineFromBottom standard = Num eye.
Hypothesis face_height : ~ bottom - top == 0.

(** For a finite image size the position that [calculateAutoPosition]
    returns does not depend on it: the centring offset it subtracts and adds
    cancels, and what is left is the offset of the scaled face centre and
    eye line from their targets, measured from the canvas origin. *)
Theorem calculateAutoPosition_position :
  exists s px py : Q,
    calculateAutoPosition face (Num imageWidth) (Num imageHeight)
      (Num canvasWidth) (Num canvasHeight) standard
    = Returns (mkAutoPosition (Num s) (mkPoint (Num px) (Num py)))
    /\ s == canvasHeight * ((hmin + hmax) / 2 / 100) / (bottom - top)
    /\ px == canvasWidth / 2 - (left + right) / 2 * s
    /\ py == canvasHeight * (1 - eye / 100)
             - (top + (bottom - top) * 0.35) * s.
Proof.
  unfold calculateAutoPosition.
  rewrite face_left, face_right, face_top, face_bottom,
    standard_min, standard_max, standard_eye.
  cbn [add sub mul neg]. repeat finite_div.
  cbn [add sub mul neg]. repeat finite_div.
  cbn [add sub mul neg].
  do 3 eexists. split; [ reflexivity | ].
  split; [ reflexivity | ].
  split; field; exact face_height.
Qed.

(** The face box as it is drawn after auto-centering. *)
Lemma autoCentered_faceBox_finite (elementWidth elementHeight : Q) :
  exists s bx by' bw bh : Q,
    autoCentered_faceBox face (Num imageWidth) (Num imageHeight)
      (Num canvasWidth) (Num canvasHeight)
      (Num elementWidth) (Num elementHeight) standard
    = Returns (mkRect (Num bx) (Num by') (Num bw) (Num bh))
    /\ s == canvasHeight * ((hmin + hmax) / 2 / 100) / (bottom - top)
    /\ bx == (elementWidth - imageWidth * s) / 2
             + (canvasWidth / 2 - (left + right) / 2 * s) + left * s
    /\ by' == (elementHeight - imageHeight * s) / 2
              + (canvasHeight * (1 - eye / 100)
                 - (top + (bottom - top) * 0.35) * s) + top * s
    /\ bw == (right - left) * s
    /\ bh == (bottom - top) * s.
Proof.
  destruct calculateAutoPosition_position as (s & px & py & Hcall & Hs & Hx & Hy).
  unfold autoCentered_faceBox, bind. rewrite Hcall.
  unfold drawCanvas_faceBox, drawCanvas_origin.
  cbn [scale position x y]. rewrite face_left, face_right, face_top, face_bottom.
  cbn [add sub mul neg]. repeat finite_div. cbn [add sub mul neg x y].
  exists s. do 4 eexists. split; [ reflexivity | ].
  split; [ exact Hs | ].
  rewrite Hx, Hy. repeat split; reflexivity.
Qed.

(** After auto-centering the face box is drawn exactly as high as the
    middle of the standard's head-height band asks, whatever the size of
    the image and of the canvas element; for a canvas height that is not
    below zero and a band with [headHeightMin <= headHeightMax], that is
    inside the band. *)
Theorem autoCentered_faceBox_height (elementWidth elementHeight : Q) :
  exists bx by' bw bh : Q,
    autoCentered_faceBox face (Num imageWidth) (Num imageHeight)
      (Num canvasWidth) (Num canvasHeight)
      (Num elementWidth) (Num elementHeight) standard
    = Returns (mkRect (Num bx) (Num by') (Num bw) (Num bh))
    /\ bh == canvasHeight * ((hmin + hmax) / 2 / 100)
    /\ (0 <= canvasHeight -> hmin <= hmax ->
        hmin / 100 * canvasHeight <= bh /\ bh <= hmax / 100 * canvasHeight).
Proof.
  destruct (autoCentered_faceBox_finite elementWidth elementHeight)
    as (s & bx & by' & bw & bh & Hcall & Hs & _ & _ & _ & Hh).
  exists bx, by', bw, bh. split; [ exact Hcall | ].
  assert (E : bh == canvasHeight * ((hmin + hmax) / 2 / 100)).
  { rewrite Hh, Hs. field. exact face_height. }
  split; [ exact E | ].
  intros Hc Hband. rewrite E, (Qmult_comm canvasHeight).
  split; (apply Qmult_le_compat_r; [ literal_div; lra | exact Hc ]).
Qed.

End SolverFinite.

Section SolverResolution.

Variables (face : DetectedFace) (standard : PassportStandard).
Variables (left top right bottom : Q).
Variables (imageWidth imageHeight canvasWidth canvasHeight : Q).
Variables (hmin hmax eye : Q).
Hypothesis face_left : xmin (box face) = Num left.
Hypothesis face_top : ymin (box face) = Num top.
Hypothesis face_right : xmax (box face) = Num right.
Hypothesis face_bottom : ymax (box face) = Num bottom.
Hypothesis standard_min : PassportStandard.headHeightMin standard = Num hmin.
Hypothesis standard_max : PassportStandard.headHeightMax standard = Num hmax.
Hypothesis standard_eye :
  PassportStandard.eyeLineFromBottom standard = Num eye.
Hypothesis face_height : ~ bottom - top == 0.

(** Auto-centering does not depend on the resolution of the image: with
    all pixel coordinates of the image and of the face box multiplied by a
    factor above zero, the scale is divided by the factor, the position is
    the same, and the face box is drawn in the same place and size, on a
    canvas element of any size. *)
Theorem autoCenter_resolution_independent (k elementWidth elementHeight : Q) :
  0 < k ->
  exists (r r' : AutoPosition) (b b' : Rect),
    calculateAutoPosition face (Num imageWidth) (Num imageHeight)
      (Num canvasWidth) (Num canvasHeight) standard = Returns r
    /\ calculateAutoPosition (scaleFace (Num k) face)
         (Num (k * imageWidth)) (Num (k * imageHeight))
         (Num canvasWidth) (Num canvasHeight) standard = Returns r'
    /\ scale r' * Num k === scale r
    /\ x (position r') === x (position r)
    /\ y (position r') === y (position r)
    /\ autoCentered_faceBox face (Num imageWidth) (Num imageHeight)
         (Num canvasWidth) (Num canvasHeight)
         (Num elementWidth) (Num elementHeight) standard = Returns b
    /\ autoCentered_faceBox (scaleFace (Num k) face)
         (Num (k * imageWidth)) (Num (k * imageHeight))
         (Num canvasWidth) (Num canvasHeight)
         (Num elementWidth) (Num elementHeight) standard = Returns b'
    /\ rectX b' === rectX b /\ rectY b' === rectY b
    /\ rectWidth b' === rectWidth b /\ rectHeight b' === rectHeight b.
Proof.
  intros Hk.
  assert (Hface' : ~ k * bottom - k * top == 0).
  { intros H. apply face_height.
    assert (E : k * bottom - k * top == k * (bottom - top)) by ring.
    rewrite E in H. apply Qmult_integral in H. destruct H as [H | H]; [ lra | exact H ]. }
  assert (Hl : xmin (box (scaleFace (Num k) face)) = Num (k * left))
    by (unfold scaleFace; cbn [box xmin]; rewrite face_left; reflexivity).
  assert (Ht : ymin (box (scaleFace (Num k) face)) = Num (k * top))
    by (unfold scaleFace; cbn [box ymin]; rewrite face_top; reflexivity).
  assert (Hr : xmax (box (scaleFace (Num k) face)) = Num (k * right))
    by (unfold scaleFace; cbn [box xmax]; rewrite face_right; reflexivity).
  assert (Hb : ymax (box (scaleFace (Num k) face)) = Num (k * bottom))
    by (unfold scaleFace; cbn [box ymax]; rewrite face_bottom; reflexivity).
  destruct (calculateAutoPosition_position face standard left top right bottom
              imageWidth imageHeight canvasWidth canvasHeight hmin hmax eye)
    as (s & px & py & Hcall & Hs & Hx & Hy); try assumption.
  destruct (calculateAutoPosition_position (scaleFace (Num k) face) standard
              (k * left) (k * top) (k * right) (k * bottom)
              (k * imageWidth) (k * imageHeight) canvasWidth canvasHeight
              hmin hmax eye)
    as (s' & px' & py' & Hcall' & Hs' & Hx' & Hy'); try assumption.
  destruct (autoCentered_faceBox_finite face standard left top right bottom
              imageWidth imageHeight canvasWidth canvasHeight hmin hmax eye
              face_left face_top face_right face_bottom
              standard_min standard_max standard_eye face_height
              elementWidth elementHeight)
    as (s1 & bx & by0 & bw & bh & Hbox & Hs1 & Hbx & Hby & Hbw & Hbh).
  destruct (autoCentered_faceBox_finite (scaleFace (Num k) face) standard
              (k * left) (k * top) (k * right) (k * bottom)
              (k * imageWidth) (k * imageHeight) canvasWidth canvasHeight
              hmin hmax eye Hl Ht Hr Hb
              standard_min standard_max standard_eye Hface'
              elementWidth elementHeight)
    as (s2 & bx' & by1 & bw' & bh' & Hbox' & Hs2 & Hbx' & Hby' & Hbw' & Hbh').
  do 4 eexists.
  split; [ exact Hcall | ]. split; [ exact Hcall' | ].
  cbn [scale position x y mul same].
  split; [ rewrite Hs', Hs; field; split; [ exact face_height | lra ] | ].
  split; [ rewrite Hx', Hx, Hs', Hs; field; split; [ exact face_height | lra ] | ].
  split; [ rewrite Hy', Hy, Hs', Hs; field; split; [ exact face_height | lra ] | ].
  split; [ exact Hbox | ]. split; [ exact Hbox' | ].
  cbn [rectX rectY rectWidth rectHeight same].
  split; [ rewrite Hbx', Hbx, Hs2, Hs1; field; split; [ exact face_height | lra ] | ].
  split; [ rewrite Hby', Hby, Hs2, Hs1; field; split; [ exact face_height | lra ] | ].
  split; [ rewrite Hbw', Hbw, Hs2, Hs1; field; split; [ exact face_height | lra ] | ].
  rewrite Hbh', Hbh, Hs2, Hs1; field; split; [ exact face_height | lra ].
Qed.

End SolverResolution.

Lemma calculateAutoPosition_position_witness :
  exists s px py : Q,
    calculateAutoPosition sampleFace 200 200 400 400 usStandard
    = Returns (mkAutoPosition (Num s) (mkPoint (Num px) (Num py)))
    /\ s == 400 * ((50 + 69) / 2 / 100) / (120 - 20)
    /\ px == 400 / 2 - (50 + 150) / 2 * s.
Proof.
  destruct (calculateAutoPosition_position sampleFace usStandard
              50 20 150 120 200 200 400 400 50 69 56
              eq_refl eq_refl eq_refl eq_refl eq_refl eq_refl eq_refl)
    as (s & px & py & Hcall & Hs & Hx & _); [ discriminate | ].
  exists s, px, py. auto.
Defined.

Lemma autoCentered_faceBox_height_witness :
  exists bx by' bw bh : Q,
    autoCentered_faceBox sampleFace 200 200 400 400 400 400 usStandard
    = Returns (mkRect (Num bx) (Num by') (Num bw) (Num bh))
    /\ bh == 238
    /\ 50 / 100 * 400 <= bh /\ bh <= 69 / 100 * 400.
Proof.
  destruct (autoCentered_faceBox_height sampleFace usStandard
              50 20 150 120 200 200 400 400 50 69 56
              eq_refl eq_refl eq_refl eq_refl eq_refl eq_refl eq_refl
              ltac:(discriminate) 400 400)
    as (bx & by' & bw & bh & Hcall & Hh & Hband).
  exists bx, by', bw, bh. split; [ exact Hcall | ].
  split; [ rewrite Hh; reflexivity | apply Hband; discriminate ].
Defined.

Lemma autoCenter_resolution_witness :
  exists r r' : AutoPosition,
    calculateAutoPosition sampleFace 200 200 400 400 usStandard = Returns r
    /\ calculateAutoPosition (scaleFace 2 sampleFace)
         (Num (2 * 200)) (Num (2 * 200)) 400 400 usStandard = Returns r'
    /\ scale r' * 2 === scale r
    /\ x (position r') === x (position r)
    /\ y (position r') === y (position r).
Proof.
  destruct (autoCenter_resolution_independent sampleFace usStandard
              50 20 150 120 200 200 400 400 50 69 56
              eq_refl eq_refl eq_refl eq_refl eq_refl eq_refl eq_refl
              ltac:(discriminate) 2 400 400)
    as (r & r' & b & b' & H1 & H2 & H3 & H4 & H5 & _);
    [ reflexivity | ].
  exists r, r'. auto.
Defined.

(** A face box 238 pixels high in a 400 x 400 image needs scale 1 on the
    400 x 400 canvas of the US standard: the one case in which the
    alignment reaches its target. *)
Lemma landsOnTarget_witness :
  landsOnTarget (mkDetectedFace (mkFaceBox 100 50 300 288) 0.9)
    400 400 400 400 usStandard.
Proof.
  apply (landsOnTarget_iff (mkDetectedFace (mkFaceBox 100 50 300 288) 0.9)
           usStandard 100 300 50 288 400 400 400 400 50 69 56
           eq_refl eq_refl eq_refl eq_refl eq_refl eq_refl eq_refl).
  - discriminate.
  - split; reflexivity.
Defined.

(* ================================================================== *)
(** * Photo editor *)
(* ================================================================== *)

Section EditorCanvas.

Variables (standard : PassportStandard) (w h : Q).
Hypothesis standard_width : PassportStandard.width standard = Num w.
Hypothesis standard_height : PassportStandard.height standard = Num h.
Hypothesis width_pos : 0 < w.
Hypothesis height_pos : 0 < h.

(** The editor's canvas has the aspect ratio of the standard and fits the
    400 x 400 square exactly: neither side is above 400 and one of them is
    400. *)
Theorem canvas_fits_square :
  exists cw ch : Q,
    canvasWidth standard = Num cw /\ canvasHeight standard = Num ch
    /\ 0 < cw /\ cw <= 400 /\ 0 < ch /\ ch <= 400
    /\ (cw == 400 \/ ch == 400)
    /\ cw * h == ch * w.
Proof.
  assert (Hratio : 0 < w / h).
  { apply Qlt_shift_div_l; [ exact height_pos | lra ]. }
  assert (Haspect : aspectRatio standard = Num (w / h)).
  { unfold aspectRatio. rewrite standard_width, standard_height.
    apply div_finite. lra. }
  unfold canvasWidth, canvasHeight, canvasSize. rewrite Haspect.
  destruct (Num (w / h) >=? 1) eqn:E.
  - apply geb_finite in E.
    rewrite div_finite by lra.
    exists 400, (400 / (w / h))%Q.
    split; [ reflexivity | ]. split; [ reflexivity | ].
    assert (Hch : 400 / (w / h) == 400 * h / w) by (field; split; lra).
    assert (Hhw : h <= w).
    { assert (E1 : w == w / h * h) by (field; lra).
      rewrite E1. rewrite <- (Qmult_1_l h) at 1.
      apply Qmult_le_compat_r; lra. }
    split; [ reflexivity | ]. split; [ discriminate | ].
    split; [ rewrite Hch; apply Qlt_shift_div_l; lra | ].
    split; [ rewrite Hch; apply Qle_shift_div_r; lra | ].
    split; [ left; reflexivity | ].
    rewrite Hch. field. lra.
  - assert (Hlt : w / h < 1).
    { unfold geb in E. apply leb_finite_false in E. exact E. }
    cbn [mul].
    exists (400 * (w / h))%Q, 400.
    split; [ reflexivity | ]. split; [ reflexivity | ].
    split; [ apply Qmult_lt_0_compat; [ reflexivity | exact Hratio ] | ].
    split; [ lra | ].
    split; [ reflexivity | ]. split; [ discriminate | ].
    split; [ right; reflexivity | ].
    field. lra.
Qed.

End EditorCanvas.

Lemma canvas_fits_square_witness :
  exists cw ch : Q,
    canvasWidth (nth 1 passportStandards usStandard) = Num cw
    /\ canvasHeight (nth 1 passportStandards usStandard) = Num ch
    /\ cw <= 400 /\ ch == 400 /\ cw * 45 == ch * 35.
Proof.
  destruct (canvas_fits_square (nth 1 passportStandards usStandard) 35 45
              eq_refl eq_refl eq_refl eq_refl)
    as (cw & ch & Hcw & Hch & _ & Hle & _ & _ & _ & Hratio).
  exists cw, ch. split; [ exact Hcw | ]. split; [ exact Hch | ].
  split; [ exact Hle | ]. split; [ | exact Hratio ].
  vm_compute in Hch. injection Hch as <-. reflexivity.
Defined.

Section EditorCover.

Variables (standard : PassportStandard) (e : Editor) (img : Image).
Variables (cw ch imageWidth imageHeight elementWidth elementHeight : Q).
Hypothesis canvas_width : canvasWidth standard = Num cw.
Hypothesis canvas_height : canvasHeight standard = Num ch.
Hypothesis editor_image : Editor.image e = Some img.
Hypothesis image_width : Image.width img = Num imageWidth.
Hypothesis image_height : Image.height img = Num imageHeight.
Hypothesis imageWidth_pos : 0 < imageWidth.
Hypothesis imageHeight_pos : 0 < imageHeight.
Hypothesis cw_pos : 0 < cw.
Hypothesis ch_pos : 0 < ch.



End EditorCover.


Section EditorDrag.

Variables (e : Editor) (px py ax ay bx by' : Q).
Hypothesis position_x : x (Editor.position e) = Num px.
Hypothesis position_y : y (Editor.position e) = Num py.

Lemma moves_keep_dragging (moves : list Point) (ed : Editor) :
  Editor.isDragging ed = true ->
  let ed' := fold_left (fun ed client => handleMouseMove client ed) moves ed in
  Editor.isDragging ed' = true
  /\ Editor.dragStart ed' = Editor.dragStart ed
  /\ Editor.scale ed' = Editor.scale ed
  /\ Editor.image ed' = Editor.image ed.
Proof.
  revert ed. induction moves as [ | m rest IH ]; intros ed Hd; cbn [fold_left].
  - auto.
  - destruct (IH (handleMouseMove m ed)) as (H1 & H2 & H3 & H4).
    + unfold handleMouseMove. rewrite Hd. reflexivity.
    + rewrite H1, H2, H3, H4. unfold handleMouseMove. rewrite Hd.
      repeat split; reflexivity.
Qed.

(** Dragging moves the image by the displacement of the pointer: with the
    button pressed at one point and the pointer moved, through any path, to
    another, the position is the old one plus the difference of the two
    points.  Scale and image are untouched, and once the button is
    released, moving the pointer changes nothing. *)
Theorem drag_follows_pointer (moves : list Point) (client : Point) :
  let ed :=
    dragThrough (mkPoint (Num ax) (Num ay))
      (moves ++ [mkPoint (Num bx) (Num by')]) e in
  x (Editor.position ed) === Num (px + (bx - ax))
  /\ y (Editor.position ed) === Num (py + (by' - ay))
  /\ Editor.scale ed = Editor.scale e
  /\ Editor.image ed = Editor.image e
  /\ handleMouseMove client (handleMouseUp ed) = handleMouseUp ed.
Proof.
  cbv zeta. unfold dragThrough. rewrite fold_left_app. cbn [fold_left].
  destruct (moves_keep_dragging moves
              (handleMouseDown (mkPoint (Num ax) (Num ay)) e) eq_refl)
    as (Hd & Hstart & Hscale & Himage).
  cbv zeta in Hd, Hstart, Hscale, Himage.
  set (mid := fold_left (fun ed client => handleMouseMove client ed) moves
                (handleMouseDown (mkPoint (Num ax) (Num ay)) e)) in *.
  unfold handleMouseMove at 1 2 3 4 5. rewrite Hd. cbn [negb].
  cbn [Editor.position Editor.scale Editor.image x y].
  rewrite Hstart, Hscale, Himage.
  unfold handleMouseDown at 1 2.
  cbn [Editor.dragStart Editor.scale Editor.image x y].
  rewrite position_x, position_y. cbn [add sub neg same].
  split; [ ring | ]. split; [ ring | ].
  split; [ reflexivity | ]. split; [ reflexivity | ].
  reflexivity.
Qed.

End EditorDrag.

Lemma drag_follows_pointer_witness :
  x (Editor.position
       (dragThrough (mkPoint 10 10) [mkPoint 500 0; mkPoint 25 40]
          (onload usStandard (Image.mk 1200 1600) initialEditor)))
  === Num (0 + (25 - 10)).
Proof.
  exact (proj1 (drag_follows_pointer
                  (onload usStandard (Image.mk 1200 1600) initialEditor)
                  0 0 10 10 25 40 eq_refl eq_refl
                  [mkPoint 500 0] (mkPoint 0 0))).
Defined.

Section EditorZoom.

Variables (e : Editor) (s : Q).
Hypothesis editor_scale : Editor.scale e = Num s.

(** The zoom buttons stay inside the range of the slider: zoom out never
    goes below 0.5 and zoom in never above 3; from a scale between 0.5 and
    3 both stay between 0.5 and 3; and each moves the scale by at most
    0.1, leaving position and image as they were. *)
Theorem zoom_within_slider_range :
  exists lower upper : Q,
    Editor.scale (zoomOut e) = Num lower
    /\ Editor.scale (zoomIn e) = Num upper
    /\ 0.5 <= lower /\ upper <= 3
    /\ (s <= 3 -> lower <= 3) /\ (0.5 <= s -> 0.5 <= upper)
    /\ (0.6 <= s -> lower == s - 0.1) /\ (s <= 2.9 -> upper == s + 0.1)
    /\ Editor.position (zoomOut e) = Editor.position e
    /\ Editor.position (zoomIn e) = Editor.position e.
Proof.
  unfold zoomOut, zoomIn, setScale. cbn [Editor.scale Editor.position].
  rewrite editor_scale. cbn [add sub neg]. unfold Math_max, Math_min.
  assert (Hge : forall p q, (Num p <? Num q) = false -> q <= p).
  { intros p q Hf. apply Qnot_lt_le. intros Hlt.
    apply ltb_finite in Hlt. congruence. }
  destruct (Num 0.5 <? Num (s + - (0.1))) eqn:E1;
    destruct (Num (s + 0.1) <? Num 3) eqn:E2;
    do 2 eexists; (split; [ reflexivity | ]); (split; [ reflexivity | ]);
    try apply ltb_finite in E1; try apply ltb_finite in E2;
    try apply Hge in E1; try apply Hge in E2;
    repeat split; try reflexivity; try discriminate; intros; lra.
Qed.

End EditorZoom.

Lemma zoom_witness :
  exists lower upper : Q,
    Editor.scale (zoomOut initialEditor) = Num lower
    /\ Editor.scale (zoomIn initialEditor) = Num upper
    /\ lower == 0.9 /\ upper == 1.1.
Proof.
  destruct (zoom_within_slider_range initialEditor 1 eq_refl)
    as (lower & upper & H1 & H2 & _ & _ & _ & _ & H3 & H4 & _).
  exists lower, upper. split; [ exact H1 | ]. split; [ exact H2 | ].
  split; [ rewrite H3; [ reflexivity | discriminate ]
         | rewrite H4; [ reflexivity | discriminate ] ].
Defined.

(* ================================================================== *)
(** * Sheet preview and export *)
(* ================================================================== *)

Section Loops.

Lemma loopIndices_integer (n : Z) :
  loopIndices (Num (inject_Z n)) = Some (range n).
Proof. unfold loopIndices, range. rewrite Qceiling_Z. reflexivity. Qed.

Lemma collect_total {A : Type} (indices : list Z) (f : Z -> list A) :
  collect indices (fun i => Some (f i)) = Some (flat_map f indices).
Proof.
  induction indices as [ | i rest IH ]; [ reflexivity | ].
  cbn [collect flat_map]. rewrite IH. reflexivity.
Qed.

Lemma forLoop_integer {A : Type} (n : Z) (f : Z -> list A) :
  forLoop (Num (inject_Z n)) (fun i => Some (f i)) = Some (flat_map f (range n)).
Proof. unfold forLoop. rewrite loopIndices_integer. apply collect_total. Qed.

Lemma in_range (n i : Z) : In i (range n) <-> (0 <= i < n)%Z.
Proof.
  unfold range. rewrite in_map_iff. split.
  - intros (k & <- & Hk). apply in_seq in Hk. lia.
  - intros Hi. exists (Z.to_nat i). split; [ lia | ].
    apply in_seq. lia.
Qed.

Lemma length_range (n : Z) : length (range n) = Z.to_nat n.
Proof. unfold range. rewrite length_map, length_seq. reflexivity. Qed.

Lemma length_flat_map_const {A B : Type} (f : A -> list B) (l : list A) (n : nat) :
  (forall a, length (f a) = n) -> length (flat_map f l) = (length l * n)%nat.
Proof.
  intros Hf. induction l as [ | a l IH ]; [ reflexivity | ].
  cbn [flat_map length]. rewrite length_app, Hf, IH. lia.
Qed.

Lemma Forall2_flat_map {A B C : Type} (R : B -> C -> Prop)
    (f : A -> list B) (g : A -> list C) (l : list A) :
  (forall a, In a l -> Forall2 R (f a) (g a)) ->
  Forall2 R (flat_map f l) (flat_map g l).
Proof.
  induction l as [ | a l IH ]; intros H; cbn [flat_map].
  - constructor.
  - apply Forall2_app; [ apply H; left; reflexivity | ].
    apply IH. intros b Hb. apply H. right. exact Hb.
Qed.

Lemma in_gridCells (m pw ph g : Q) (columns rows : Z) (c : Cell) :
  In c (gridCells m pw ph g columns rows)
  <-> exists col row : Z,
        (0 <= col < columns)%Z /\ (0 <= row < rows)%Z
        /\ c = gridCell m pw ph g col row.
Proof.
  unfold gridCells. rewrite in_flat_map. split.
  - intros (row & Hrow & Hc). apply in_flat_map in Hc.
    destruct Hc as (col & Hcol & [<- | []]).
    exists col, row. rewrite <- !in_range. auto.
  - intros (col & row & Hcol & Hrow & ->).
    exists row. split; [ apply in_range, Hrow | ].
    apply in_flat_map. exists col. split; [ apply in_range, Hcol | ].
    left. reflexivity.
Qed.

End Loops.

Section SheetDrawing.

Variables (standard : PassportStandard) (sheet : SheetSize).
Variables (w h dpi photoWidth photoHeight : Q).
Hypothesis sheet_width : SheetSize.width sheet = Num w.
Hypothesis sheet_height : SheetSize.height sheet = Num h.
Hypothesis sheet_dpi : SheetSize.dpi sheet = Num dpi.
Hypothesis standard_width : PassportStandard.width standard = Num photoWidth.
Hypothesis standard_height : PassportStandard.height standard = Num photoHeight.
Hypothesis photoWidth_pos : 0 < photoWidth.
Hypothesis photoHeight_pos : 0 < photoHeight.

Let columnCount : Z := Qfloor ((w - 2 * 5 + 2) / (photoWidth + 2)).
Let rowCount : Z := Qfloor ((h - 2 * 5 + 2) / (photoHeight + 2)).
Let marginPx : Q := pixelsOf 5 dpi.
Let gapPx : Q := pixelsOf 2 dpi.
Let photoWidthPx : Q := pixelsOf photoWidth dpi.
Let photoHeightPx : Q := pixelsOf photoHeight dpi.

Lemma sheetLayout_finite :
  sheetLayout standard sheet
  = Returns (mkPhotosPerSheet (Num (inject_Z columnCount))
               (Num (inject_Z rowCount))
               (Num (inject_Z columnCount * inject_Z rowCount))).
Proof.
  unfold sheetLayout, marginMm, gapMm.
  rewrite standard_width, standard_height.
  apply calculatePhotosPerSheet_finite; auto; lra.
Qed.

(** The cells of the high-resolution download, in drawing order. *)
Lemma handleDownload_cells :
  handleDownload standard sheet
  = Returns (Some (gridCells marginPx photoWidthPx photoHeightPx gapPx
                     columnCount rowCount)).
Proof.
  unfold handleDownload. rewrite sheetLayout_finite. unfold bind.
  rewrite sheet_dpi, standard_width, standard_height.
  unfold marginMm, gapMm. rewrite !mmToPixels_finite.
  cbn [rows columns]. cbv zeta. f_equal.
  etransitivity.
  { apply forLoop_ext. intros row. apply forLoop_integer. }
  rewrite forLoop_integer. reflexivity.
Qed.

(** The cells of [drawSheet], each pixel value multiplied by the scale of
    the mode. *)
Lemma drawSheet_cells (exportMode : bool) :
  let k := if exportMode then 1 else 0.5 in
  drawSheet standard sheet exportMode
  = Returns
      (Some
         (flat_map
            (fun row =>
               flat_map
                 (fun col =>
                    [mkCell col row
                       (Num (marginPx * k
                             + inject_Z col * (photoWidthPx * k + gapPx * k)))
                       (Num (marginPx * k
                             + inject_Z row * (photoHeightPx * k + gapPx * k)))
                       (Num (photoWidthPx * k)) (Num (photoHeightPx * k))])
                 (range columnCount))
            (range rowCount))).
Proof.
  cbv zeta. unfold drawSheet. rewrite sheetLayout_finite. unfold bind.
  rewrite sheet_dpi, standard_width, standard_height.
  unfold marginMm, gapMm, previewScale. rewrite !mmToPixels_finite.
  cbn [rows columns]. cbv zeta. f_equal.
  etransitivity.
  { apply forLoop_ext. intros row. apply forLoop_integer. }
  rewrite forLoop_integer.
  destruct exportMode; reflexivity.
Qed.

End SheetDrawing.

Section SheetCells.

Variables (standard : PassportStandard) (sheet : SheetSize).
Variables (w h dpi photoWidth photoHeight : Q).
Hypothesis sheet_width : SheetSize.width sheet = Num w.
Hypothesis sheet_height : SheetSize.height sheet = Num h.
Hypothesis sheet_dpi : SheetSize.dpi sheet = Num dpi.
Hypothesis standard_width : PassportStandard.width standard = Num photoWidth.
Hypothesis standard_height : PassportStandard.height standard = Num photoHeight.
Hypothesis photoWidth_pos : 0 < photoWidth.
Hypothesis photoHeight_pos : 0 < photoHeight.

(** The number of photos drawn is the total that is displayed: on a sheet
    at least 8mm wide and high, the download draws exactly
    [columns * rows] cells, one at each place of the grid, and the layout's
    [total] is that number. *)
Theorem drawn_cells_count :
  8 <= w -> 8 <= h ->
  exists (c r : Z) (cells : list Cell),
    sheetLayout standard sheet
    = Returns (mkPhotosPerSheet (Num (inject_Z c)) (Num (inject_Z r))
                 (Num (inject_Z c * inject_Z r)))
    /\ handleDownload standard sheet = Returns (Some cells)
    /\ (0 <= c)%Z /\ (0 <= r)%Z
    /\ Z.of_nat (length cells) = (c * r)%Z
    /\ forall col row : Z,
         In (col, row) (topology cells)
         <-> (0 <= col < c)%Z /\ (0 <= row < r)%Z.
Proof.
  intros Hw Hh.
  do 3 eexists.
  split; [ apply (sheetLayout_finite standard sheet w h photoWidth photoHeight);
           assumption | ].
  split; [ apply (handleDownload_cells standard sheet w h dpi
                    photoWidth photoHeight); assumption | ].
  assert (Hc : (0 <= Qfloor ((w - 2 * 5 + 2) / (photoWidth + 2)))%Z)
    by (apply Qfloor_div_nonneg; lra).
  assert (Hr : (0 <= Qfloor ((h - 2 * 5 + 2) / (photoHeight + 2)))%Z)
    by (apply Qfloor_div_nonneg; lra).
  split; [ exact Hc | ]. split; [ exact Hr | ].
  split.
  - unfold gridCells.
    rewrite (length_flat_map_const _ _
               (Z.to_nat (Qfloor ((w - 2 * 5 + 2) / (photoWidth + 2))))).
    + rewrite length_range. lia.
    + intros row. rewrite (length_flat_map_const _ _ 1%nat) by reflexivity.
      rewrite length_range. lia.
  - intros col row. unfold topology. rewrite in_map_iff. split.
    + intros (cell & Heq & Hin). apply in_gridCells in Hin.
      destruct Hin as (col' & row' & Hcol & Hrow & ->).
      cbn in Heq. injection Heq as <- <-. auto.
    + intros [Hcol Hrow].
      eexists. split; [ | apply in_gridCells; exists col, row; eauto ].
      reflexivity.
Qed.

(** The preview is the export at half size: cell by cell, in drawing
    order, [drawSheet] in preview mode fills the same grid place as the
    download with every pixel value halved, and in export mode with the
    same pixel values. *)
Theorem preview_is_half_export :
  exists preview export download : list Cell,
    drawSheet standard sheet false = Returns (Some preview)
    /\ drawSheet standard sheet true = Returns (Some export)
    /\ handleDownload standard sheet = Returns (Some download)
    /\ Forall2 (scaledCell 0.5) preview download
    /\ Forall2 (scaledCell 1) export download.
Proof.
  do 3 eexists.
  split; [ apply (drawSheet_cells standard sheet w h dpi photoWidth photoHeight);
           assumption | ].
  split; [ apply (drawSheet_cells standard sheet w h dpi photoWidth photoHeight);
           assumption | ].
  split; [ apply (handleDownload_cells standard sheet w h dpi
                    photoWidth photoHeight); assumption | ].
  unfold gridCells.
  split; apply Forall2_flat_map; intros row _;
    apply Forall2_flat_map; intros col _;
    constructor; [ | constructor | | constructor ];
    unfold scaledCell, gridCell;
    cbn [cellCol cellRow cellX cellY cellWidth cellHeight mul same];
    repeat split; ring.
Qed.

Lemma pixelsOf_nonneg (mm : Q) : 0 < dpi -> 0 <= mm -> 0 <= pixelsOf mm dpi.
Proof.
  intros Hd Hmm. unfold pixelsOf.
  change 0 with (inject_Z 0). rewrite <- Zle_Qle.
  replace 0%Z with (Qfloor 0) by reflexivity. apply Qfloor_resp_le.
  pose proof (pixel_count_monotone 0 mm dpi Hd Hmm) as H.
  assert (Hz : 0 / 25.4 * dpi == 0) by (field; discriminate).
  rewrite Hz in H. lra.
Qed.

Lemma step_le (d : Q) (i j : Z) :
  0 <= d -> (i < j)%Z -> inject_Z i * d + d <= inject_Z j * d.
Proof.
  intros Hd Hij.
  assert (H : inject_Z i + 1 <= inject_Z j).
  { change 1 with (inject_Z 1). rewrite <- inject_Z_plus, <- Zle_Qle. lia. }
  assert (H' : (inject_Z i + 1) * d <= inject_Z j * d)
    by (apply Qmult_le_compat_r; assumption).
  lra.
Qed.

(** At a dpi above zero no two photos of the download overlap: cells at
    different places of the grid have rectangles that at most touch. *)
Theorem export_cells_apart (a b : Cell) :
  0 < dpi ->
  exists cells : list Cell,
    handleDownload standard sheet = Returns (Some cells)
    /\ (In a cells -> In b cells ->
        (cellCol a, cellRow a) <> (cellCol b, cellRow b) -> apart a b).
Proof.
  intros Hd. eexists.
  split; [ apply (handleDownload_cells standard sheet w h dpi
                    photoWidth photoHeight); assumption | ].
  intros Ha Hb Hne.
  apply in_gridCells in Ha. destruct Ha as (ca & ra & _ & _ & ->).
  apply in_gridCells in Hb. destruct Hb as (cb & rb & _ & _ & ->).
  cbn [gridCell cellCol cellRow] in Hne.
  pose proof (pixelsOf_nonneg 5 Hd) as HM.
  pose proof (pixelsOf_nonneg 2 Hd) as HG.
  pose proof (pixelsOf_nonneg photoWidth Hd) as HW.
  pose proof (pixelsOf_nonneg photoHeight Hd) as HH.
  set (M := pixelsOf 5 dpi) in *. set (G := pixelsOf 2 dpi) in *.
  set (W := pixelsOf photoWidth dpi) in *.
  set (H := pixelsOf photoHeight dpi) in *.
  assert (HG0 : 0 <= G) by (apply HG; discriminate).
  assert (HW0 : 0 <= W) by (apply HW; lra).
  assert (HH0 : 0 <= H) by (apply HH; lra).
  unfold apart, gridCell. cbn [cellX cellY cellWidth cellHeight].
  do 8 eexists. do 8 (split; [ reflexivity | ]).
  destruct (Z.lt_trichotomy ca cb) as [Hlt | [Heq | Hgt]].
  - left. assert (Hs := step_le (W + G) ca cb ltac:(lra) ltac:(assumption)). lra.
  - destruct (Z.lt_trichotomy ra rb) as [Hlt | [Heq' | Hgt]].
    + right. right. left. assert (Hs := step_le (H + G) ra rb ltac:(lra) ltac:(assumption)). lra.
    + exfalso. apply Hne. congruence.
    + right. right. right. assert (Hs := step_le (H + G) rb ra ltac:(lra) ltac:(assumption)). lra.
  - right. left. assert (Hs := step_le (W + G) cb ca ltac:(lra) ltac:(assumption)). lra.
Qed.

End SheetCells.

Section SheetBounds.

Variables (standard : PassportStandard) (sheet : SheetSize).
Variables (w h dpi photoWidth photoHeight : Q).
Hypothesis sheet_width : SheetSize.width sheet = Num w.
Hypothesis sheet_height : SheetSize.height sheet = Num h.
Hypothesis sheet_dpi : SheetSize.dpi sheet = Num dpi.
Hypothesis standard_width : PassportStandard.width standard = Num photoWidth.
Hypothesis standard_height : PassportStandard.height standard = Num photoHeight.
Hypothesis photoWidth_pos : 0 < photoWidth.
Hypothesis photoHeight_pos : 0 < photoHeight.
Hypothesis dpi_pos : 0 < dpi.

Lemma pixelsOf_error (mm : Q) :
  mm / 25.4 * dpi - 0.5 <= pixelsOf mm dpi
  /\ pixelsOf mm dpi <= mm / 25.4 * dpi + 0.5.
Proof.
  pose proof (round_error (mm / 25.4 * dpi)) as H.
  apply Qabs_Qle_condition in H. unfold pixelsOf. lra.
Qed.

(** One direction of the grid: the far edge of every cell is on the
    sheet when the count plus one half is at most the margin in pixels. *)
Lemma far_edge_on_sheet (extent photo : Q) (i : Z) :
  0 < photo ->
  let n := Qfloor ((extent - 2 * 5 + 2) / (photo + 2)) in
  (0 <= i < n)%Z ->
  inject_Z n + 0.5 <= 5 / 25.4 * dpi ->
  0 <= pixelsOf 5 dpi + inject_Z i * (pixelsOf photo dpi + pixelsOf 2 dpi)
  /\ pixelsOf 5 dpi + inject_Z i * (pixelsOf photo dpi + pixelsOf 2 dpi)
     + pixelsOf photo dpi
     <= pixelsOf extent dpi.
Proof.
  intros Hphoto n Hi Hmargin.
  assert (Hk : 0 <= dpi / 25.4).
  { apply Qle_shift_div_l; [ reflexivity | lra ]. }
  destruct (Qfloor_div_bounds (extent - 2 * 5 + 2) (photo + 2)) as [Hfit _];
    [ lra | ].
  fold n in Hfit.
  pose proof (pixelsOf_nonneg dpi 5 dpi_pos) as HM.
  pose proof (pixelsOf_nonneg dpi 2 dpi_pos) as HG.
  pose proof (pixelsOf_nonneg dpi photo dpi_pos) as HW.
  destruct (pixelsOf_error 5) as [_ HM'].
  destruct (pixelsOf_error 2) as [_ HG'].
  destruct (pixelsOf_error photo) as [_ HW'].
  destruct (pixelsOf_error extent) as [HS _].
  set (M := pixelsOf 5 dpi) in *. set (G := pixelsOf 2 dpi) in *.
  set (W := pixelsOf photo dpi) in *. set (S := pixelsOf extent dpi) in *.
  assert (HM0 : 0 <= M) by (apply HM; discriminate).
  assert (HG0 : 0 <= G) by (apply HG; discriminate).
  assert (HW0 : 0 <= W) by (apply HW; lra).
  assert (Hi0 : 0 <= inject_Z i).
  { change 0 with (inject_Z 0). rewrite <- Zle_Qle. lia. }
  assert (Hin : inject_Z i <= inject_Z n - 1).
  { assert (H1 : inject_Z i + 1 <= inject_Z n).
    { change 1 with (inject_Z 1). rewrite <- inject_Z_plus, <- Zle_Qle. lia. }
    lra. }
  assert (Hn1 : 0 <= inject_Z n - 1) by lra.
  assert (Hn0 : 0 <= inject_Z n) by lra.
  set (A := (photo / 25.4 * dpi)%Q) in *. set (B := (2 / 25.4 * dpi)%Q) in *.
  set (Mm := (5 / 25.4 * dpi)%Q) in *. set (Sw := (extent / 25.4 * dpi)%Q) in *.
  assert (F0 : 0 <= inject_Z i * (W + G))
    by (apply Qmult_le_0_compat; lra).
  assert (F1 : inject_Z i * (W + G) <= (inject_Z n - 1) * (W + G))
    by (apply Qmult_le_compat_r; lra).
  assert (F2 : W * inject_Z n <= (A + 0.5) * inject_Z n)
    by (apply Qmult_le_compat_r; lra).
  assert (F3 : G * (inject_Z n - 1) <= (B + 0.5) * (inject_Z n - 1))
    by (apply Qmult_le_compat_r; lra).
  assert (F4 : inject_Z n * A + (inject_Z n - 1) * B <= Sw - 2 * Mm).
  { assert (H1 : (inject_Z n * (photo + 2)) * (dpi / 25.4)
                 <= (extent - 2 * 5 + 2) * (dpi / 25.4))
      by (apply Qmult_le_compat_r; assumption).
    assert (E1 : (inject_Z n * (photo + 2)) * (dpi / 25.4)
                 == inject_Z n * A + inject_Z n * B)
      by (unfold A, B; field).
    assert (E2 : (extent - 2 * 5 + 2) * (dpi / 25.4) == Sw - 2 * Mm + B)
      by (unfold Sw, Mm, B; field).
    lra. }
  split; lra.
Qed.

(** No photo of the download is cut off: at a dpi above zero, when the
    number of columns and the number of rows, plus one half, are at most
    the margin in pixels, every cell lies on the sheet, whose pixel size is
    what [mmToPixels] gives for its width and height.  The margin absorbs
    what the separate rounding of margin, gap and photo size adds up to. *)
Theorem export_cells_on_sheet (a : Cell) :
  inject_Z (Qfloor ((w - 2 * 5 + 2) / (photoWidth + 2))) + 0.5
  <= 5 / 25.4 * dpi ->
  inject_Z (Qfloor ((h - 2 * 5 + 2) / (photoHeight + 2))) + 0.5
  <= 5 / 25.4 * dpi ->
  exists (cells : list Cell) (sheetWidthPx sheetHeightPx : Q),
    handleDownload standard sheet = Returns (Some cells)
    /\ mmToPixels (SheetSize.width sheet) (Some (SheetSize.dpi sheet))
       = Returns (Num sheetWidthPx)
    /\ mmToPixels (SheetSize.height sheet) (Some (SheetSize.dpi sheet))
       = Returns (Num sheetHeightPx)
    /\ (In a cells -> onSheet sheetWidthPx sheetHeightPx a).
Proof.
  intros Hcols Hrows.
  do 3 eexists.
  split; [ apply (handleDownload_cells standard sheet w h dpi
                    photoWidth photoHeight); assumption | ].
  rewrite sheet_width, sheet_height, sheet_dpi.
  split; [ apply mmToPixels_finite | ]. split; [ apply mmToPixels_finite | ].
  intros Ha. apply in_gridCells in Ha.
  destruct Ha as (col & row & Hcol & Hrow & ->).
  destruct (far_edge_on_sheet w photoWidth col photoWidth_pos Hcol Hcols)
    as [Hx0 Hx1].
  destruct (far_edge_on_sheet h photoHeight row photoHeight_pos Hrow Hrows)
    as [Hy0 Hy1].
  unfold onSheet, gridCell. cbn [cellX cellY cellWidth cellHeight].
  do 4 eexists. do 4 (split; [ reflexivity | ]).
  fold (pixelsOf w dpi). fold (pixelsOf h dpi).
  repeat split; assumption.
Qed.

End SheetBounds.

Lemma drawn_cells_count_witness :
  exists (c r : Z) (cells : list Cell),
    handleDownload usStandard a4Sheet = Returns (Some cells)
    /\ Z.of_nat (length cells) = (c * r)%Z
    /\ sheetLayout usStandard a4Sheet
       = Returns (mkPhotosPerSheet (Num (inject_Z c)) (Num (inject_Z r))
                    (Num (inject_Z c * inject_Z r))).
Proof.
  destruct (drawn_cells_count usStandard a4Sheet 210 297 300 51 51
              eq_refl eq_refl eq_refl eq_refl eq_refl eq_refl eq_refl)
    as (c & r & cells & Hlayout & Hcells & _ & _ & Hcount & _);
    [ discriminate | discriminate | ].
  exists c, r, cells. auto.
Defined.

Lemma preview_is_half_export_witness :
  exists preview download : list Cell,
    drawSheet usStandard a4Sheet false = Returns (Some preview)
    /\ handleDownload usStandard a4Sheet = Returns (Some download)
    /\ Forall2 (scaledCell 0.5) preview download.
Proof.
  destruct (preview_is_half_export usStandard a4Sheet 210 297 300 51 51
              eq_refl eq_refl eq_refl eq_refl eq_refl eq_refl eq_refl)
    as (preview & export & download & H1 & _ & H3 & H4 & _).
  exists preview, download. auto.
Defined.

Lemma export_cells_apart_witness :
  exists cells : list Cell,
    handleDownload usStandard a4Sheet = Returns (Some cells)
    /\ (In (gridCell 59 602 602 24 0 0) cells ->
        In (gridCell 59 602 602 24 1 0) cells ->
        apart (gridCell 59 602 602 24 0 0) (gridCell 59 602 602 24 1 0)).
Proof.
  destruct (export_cells_apart usStandard a4Sheet 210 297 300 51 51
              eq_refl eq_refl eq_refl eq_refl eq_refl eq_refl eq_refl
              (gridCell 59 602 602 24 0 0) (gridCell 59 602 602 24 1 0))
    as (cells & Hcells & Hapart); [ reflexivity | ].
  exists cells. split; [ exact Hcells | ].
  intros Ha Hb. apply Hapart; [ exact Ha | exact Hb | discriminate ].
Defined.

Lemma export_cells_on_sheet_witness :
  exists (cells : list Cell) (sheetWidthPx sheetHeightPx : Q),
    handleDownload usStandard a4Sheet = Returns (Some cells)
    /\ mmToPixels 210 (Some (Num 300)) = Returns (Num sheetWidthPx)
    /\ mmToPixels 297 (Some (Num 300)) = Returns (Num sheetHeightPx)
    /\ (In (gridCell 59 602 602 24 2 4) cells ->
        onSheet sheetWidthPx sheetHeightPx (gridCell 59 602 602 24 2 4)).
Proof.
  apply (export_cells_on_sheet usStandard a4Sheet 210 297 300 51 51
           eq_refl eq_refl eq_refl eq_refl eq_refl eq_refl eq_refl eq_refl
           (gridCell 59 602 602 24 2 4));
    vm_compute; discriminate.
Defined.

(* ================================================================== *)
(** * Background removal *)
(* ================================================================== *)

Section Resize.

Variables (image : Image) (w h : Q).
Hypothesis image_width : Image.width image = Num w.
Hypothesis image_height : Image.height image = Num h.
Hypothesis width_nonneg : 0 <= w.
Hypothesis height_nonneg : 0 <= h.

Lemma round_half_bounds (p : Q) :
  p - 0.5 <= inject_Z (Qfloor (p + 0.5)) /\ inject_Z (Qfloor (p + 0.5)) <= p + 0.5.
Proof.
  pose proof (round_error p) as H. apply Qabs_Qle_condition in H. lra.
Qed.

Lemma scaled_side (a b : Q) :
  0 <= a -> 0 < b -> a <= b ->
  let side := inject_Z (Qfloor (a * 1024 / b + 0.5)) in
  0 <= side /\ side <= 1024
  /\ Qabs (side - a * 1024 / b) <= 0.5
  /\ (1 <= side <-> b <= 2048 * a).
Proof.
  intros Ha Hb Hab side.
  assert (Hq0 : 0 <= a * 1024 / b).
  { apply Qle_shift_div_l; [ exact Hb | lra ]. }
  assert (Hq1 : a * 1024 / b <= 1024).
  { apply Qle_shift_div_r; [ exact Hb | lra ]. }
  assert (Hhalf : 0.5 <= a * 1024 / b <-> b <= 2048 * a).
  { split; intros H.
    - assert (H1 : 0.5 * b <= a * 1024 / b * b)
        by (apply Qmult_le_compat_r; lra).
      assert (E : a * 1024 / b * b == a * 1024) by (field; lra).
      lra.
    - apply Qle_shift_div_l; [ exact Hb | lra ]. }
  set (q := (a * 1024 / b)%Q) in *.
  assert (Hside0 : (0 <= Qfloor (q + 0.5))%Z).
  { replace 0%Z with (Qfloor 0) by reflexivity. apply Qfloor_resp_le. lra. }
  assert (Hside1 : (Qfloor (q + 0.5) <= 1024)%Z).
  { replace 1024%Z with (Qfloor (1024 + 0.5)) by reflexivity.
    apply Qfloor_resp_le. lra. }
  split; [ unfold side; change 0 with (inject_Z 0); rewrite <- Zle_Qle;
           exact Hside0 | ].
  split; [ unfold side; change 1024 with (inject_Z 1024); rewrite <- Zle_Qle;
           exact Hside1 | ].
  split; [ apply round_error | ].
  unfold side. change 1 with (inject_Z 1). rewrite <- Zle_Qle, <- Hhalf.
  split; intros H.
  - pose proof (Qlt_floor (q + 0.5)) as Hf.
    rewrite inject_Z_plus in Hf. change (inject_Z 1) with 1 in Hf.
    destruct (Qlt_le_dec q 0.5) as [Hlt | Hge]; [ | exact Hge ].
    exfalso.
    assert (Hz : Qfloor (q + 0.5) = 0%Z)
      by (apply Qfloor_unique; change (inject_Z 0) with 0; lra).
    lia.
  - replace 1%Z with (Qfloor 1) by reflexivity. apply Qfloor_resp_le. lra.
Qed.

(** [resizeImageIfNeeded] resizes exactly the images with a side above
    1024 pixels.  A resized image gets 1024 on its longer side and, on the
    other, the proportional length rounded to a whole pixel, never above
    1024; that side is at least one pixel unless the image is more than
    2048 times as long as it is wide.  Any other image keeps its size. *)
Theorem resizeImageIfNeeded_bounds :
  exists (resized : bool) (w' h' : Q),
    resizeImageIfNeeded image = (resized, Image.mk (Num w') (Num h'))
    /\ (resized = true <-> 1024 < w \/ 1024 < h)
    /\ 0 <= w' /\ w' <= 1024 /\ 0 <= h' /\ h' <= 1024
    /\ (resized = false -> w' = w /\ h' = h)
    /\ (resized = true -> h < w ->
        w' = 1024 /\ Qabs (h' - h * 1024 / w) <= 0.5
        /\ (1 <= h' <-> w <= 2048 * h))
    /\ (resized = true -> w <= h ->
        h' = 1024 /\ Qabs (w' - w * 1024 / h) <= 0.5
        /\ (1 <= w' <-> h <= 2048 * w)).
Proof.
  unfold resizeImageIfNeeded, MAX_IMAGE_DIMENSION.
  rewrite image_width, image_height.
  assert (Hgt : forall p q, (Num p >? Num q) = true <-> q < p)
    by (intros; apply ltb_finite).
  assert (Hngt : forall p q, (Num p >? Num q) = false <-> p <= q).
  { intros p q. split; intros H.
    - apply Qnot_lt_le. intros Hlt. apply Hgt in Hlt. congruence.
    - destruct (Num p >? Num q) eqn:E; [ | reflexivity ].
      apply Hgt in E. lra. }
  destruct ((Num w >? Num 1024) || (Num h >? Num 1024)) eqn:Ebig.
  - apply orb_true_iff in Ebig. rewrite !Hgt in Ebig.
    destruct (Num w >? Num h) eqn:Ewh.
    + apply Hgt in Ewh. cbn [mul]. rewrite div_finite by lra.
      destruct (scaled_side h w height_nonneg ltac:(lra) ltac:(lra))
        as (H0 & H1 & Herr & Hone).
      do 3 eexists. split; [ reflexivity | ].
      split; [ split; [ intros _; exact Ebig | reflexivity ] | ].
      split; [ discriminate | ]. split; [ discriminate | ].
      split; [ exact H0 | ]. split; [ exact H1 | ].
      split; [ discriminate | ].
      split; [ intros _ _; split; [ reflexivity | split; assumption ] | ].
      intros _ Hle. lra.
    + apply Hngt in Ewh. cbn [mul].
      assert (Hh : 0 < h) by (destruct Ebig; lra).
      rewrite div_finite by lra.
      destruct (scaled_side w h width_nonneg Hh Ewh)
        as (H0 & H1 & Herr & Hone).
      do 3 eexists. split; [ reflexivity | ].
      split; [ split; [ intros _; exact Ebig | reflexivity ] | ].
      split; [ exact H0 | ]. split; [ exact H1 | ].
      split; [ discriminate | ]. split; [ discriminate | ].
      split; [ discriminate | ].
      split; [ intros _ Hlt; lra | ].
      intros _ _. split; [ reflexivity | split; assumption ].
  - apply orb_false_iff in Ebig. rewrite !Hngt in Ebig.
    destruct Ebig as [Hw Hh].
    exists false, w, h. split; [ reflexivity | ].
    split; [ split; [ discriminate | intros [H | H]; lra ] | ].
    repeat split; try assumption; discriminate.
Qed.

End Resize.

Lemma resizeImageIfNeeded_witness :
  exists w' h' : Q,
    resizeImageIfNeeded (Image.mk 4000 3000)
    = (true, Image.mk (Num w') (Num h'))
    /\ w' = 1024 /\ Qabs (h' - 3000 * 1024 / 4000) <= 0.5 /\ 1 <= h'.
Proof.
  destruct (resizeImageIfNeeded_bounds (Image.mk 4000 3000) 4000 3000
              eq_refl eq_refl)
    as (resized & w' & h' & Hcall & Hres & _ & _ & _ & _ & _ & Hwide & _);
    [ discriminate | discriminate | ].
  assert (Hr : resized = true) by (apply Hres; left; reflexivity).
  subst resized. exists w', h'. split; [ exact Hcall | ].
  destruct (Hwide eq_refl) as (H1 & H2 & H3); [ reflexivity | ].
  split; [ exact H1 | ]. split; [ exact H2 | ].
  apply H3. discriminate.
Defined.

Section MaskAlpha.

Lemma roundHalfEven_integer (z : Z) : roundHalfEven (inject_Z z) = z.
Proof.
  unfold roundHalfEven. rewrite Qfloor_Z.
  assert (E : inject_Z z - inject_Z z == 0) by ring.
  rewrite E. reflexivity.
Qed.

Lemma toUint8Clamped_integer (z : Z) :
  toUint8Clamped (Num (inject_Z z)) = Z.max 0 (Z.min 255 z).
Proof.
  unfold toUint8Clamped.
  destruct (Qle_bool (inject_Z z) 0) eqn:E0.
  - apply Qle_bool_iff in E0. change 0 with (inject_Z 0) in E0.
    rewrite <- Zle_Qle in E0. lia.
  - apply leb_finite_false in E0. change 0 with (inject_Z 0) in E0.
    rewrite <- Zlt_Qlt in E0.
    destruct (Qle_bool 255 (inject_Z z)) eqn:E1.
    + apply Qle_bool_iff in E1. change 255 with (inject_Z 255) in E1.
      rewrite <- Zle_Qle in E1. lia.
    + apply leb_finite_false in E1. change 255 with (inject_Z 255) in E1.
      rewrite <- Zlt_Qlt in E1. rewrite roundHalfEven_integer. lia.
Qed.

Lemma maskAlpha_finite (m : Q) :
  maskAlpha (Num m) = Z.max 0 (Z.min 255 (Qfloor (m * 255 + 0.5))).
Proof. unfold maskAlpha. cbn [mul Math_round]. apply toUint8Clamped_integer. Qed.

(** The alpha byte of a mask value is always between 0 and 255, also for
    [NaN] and the infinities, and a larger mask value never gets a smaller
    alpha. *)
Theorem maskAlpha_range_monotone (v : number) (m1 m2 : Q) :
  m1 <= m2 ->
  (0 <= maskAlpha v <= 255)%Z
  /\ (maskAlpha (Num m1) <= maskAlpha (Num m2))%Z
  /\ maskAlpha NaN = 0%Z /\ maskAlpha NegInf = 0%Z /\ maskAlpha PosInf = 255%Z.
Proof.
  intros Hm. split; [ | split; [ | repeat split ] ].
  - destruct v as [q | | | ]; try (cbn; lia).
    rewrite maskAlpha_finite. lia.
  - rewrite !maskAlpha_finite.
    assert (H : (Qfloor (m1 * 255 + 0.5) <= Qfloor (m2 * 255 + 0.5))%Z)
      by (apply Qfloor_resp_le; lra).
    lia.
Qed.

Lemma maskAlpha_range_witness :
  (0 <= maskAlpha (Num 2) <= 255)%Z
  /\ (maskAlpha (Num 0.25) <= maskAlpha (Num 0.75))%Z.
Proof.
  destruct (maskAlpha_range_monotone (Num 2) 0.25 0.75) as (H1 & H2 & _);
    [ discriminate | ].
  split; assumption.
Defined.

(** For a mask value between 0 and 1 nothing is clamped: the alpha is the
    value times 255 rounded to the nearest integer, so it is 0 for 0 and
    255 for 1, and as an opacity it is off by at most 1/510. *)
Theorem maskAlpha_accuracy (m : Q) :
  0 <= m -> m <= 1 ->
  maskAlpha (Num m) = Qfloor (m * 255 + 0.5)
  /\ Qabs (inject_Z (maskAlpha (Num m)) / 255 - m) <= 1 / 510
  /\ maskAlpha (Num 0) = 0%Z /\ maskAlpha (Num 1) = 255%Z.
Proof.
  intros H0 H1.
  assert (Hlo : (Qfloor 0 <= Qfloor (m * 255 + 0.5))%Z)
    by (apply Qfloor_resp_le; lra).
  change (Qfloor 0) with 0%Z in Hlo.
  assert (Hhi : (Qfloor (m * 255 + 0.5) <= Qfloor (255 + 0.5))%Z)
    by (apply Qfloor_resp_le; lra).
  change (Qfloor (255 + 0.5)) with 255%Z in Hhi.
  assert (E : maskAlpha (Num m) = Qfloor (m * 255 + 0.5))
    by (rewrite maskAlpha_finite; lia).
  split; [ exact E | ]. split; [ | split; reflexivity ].
  rewrite E.
  pose proof (round_error (m * 255)) as Herr.
  apply Qabs_Qle_condition in Herr. apply Qabs_Qle_condition.
  literal_div. split; lra.
Qed.

Lemma maskAlpha_accuracy_witness :
  maskAlpha (Num 0.5) = 128%Z
  /\ Qabs (inject_Z (maskAlpha (Num 0.5)) / 255 - 0.5) <= 1 / 510.
Proof.
  destruct (maskAlpha_accuracy 0.5) as (H1 & H2 & _);
    [ discriminate | discriminate | ].
  split; [ rewrite H1; reflexivity | exact H2 ].
Defined.

End MaskAlpha.

(* ================================================================== *)
(** * The page and its steps *)
(* ================================================================== *)

Section PageSteps.

Lemma findStandard_in (id : string) (s : PassportStandard) :
  findStandard id = Some s -> In s passportStandards.
Proof. intros H. apply find_some in H. apply H. Qed.

Lemma findSheet_in (id : string) (s : SheetSize) :
  findSheet id = Some s -> In s sheetSizes.
Proof. intros H. apply find_some in H. apply H. Qed.

Lemma initialPage_invariant : pageInvariant initialPage.
Proof.
  unfold pageInvariant. cbn. split; [ reflexivity | ].
  split; left; reflexivity.
Qed.

Lemma action_keeps_invariant (p q : Page) :
  pageInvariant p -> action p q -> pageInvariant q.
Proof.
  intros (Himages & Hstandard & Hsheet) Hact.
  destruct Hact as [preview p | cropped p Hstep Htruthy | p Hstep
                   | p Hstep Htruthy | id p | id p Hstep];
    unfold pageInvariant in *.
  - cbn. split; [ exact I | ]. split; assumption.
  - cbn. split; [ split; [ exact Htruthy | discriminate ] | ].
    split; assumption.
  - unfold handleBack. destruct (Page.step p) eqn:E.
    + contradiction.
    + cbn. split; [ reflexivity | ]. split; assumption.
    + cbn. split; [ exact I | ]. split; assumption.
  - cbn. split; [ reflexivity | ]. split; assumption.
  - cbn [setSelectedStandard Page.step Page.originalImage Page.croppedImage
         Page.selectedStandard Page.selectedSheet].
    split; [ exact Himages | ]. split; [ | exact Hsheet ].
    unfold CountrySelector_handleChange.
    destruct (findStandard id) as [s | ] eqn:E;
      [ exact (findStandard_in id s E) | exact Hstandard ].
  - cbn [setSelectedSheet Page.step Page.originalImage Page.croppedImage
         Page.selectedStandard Page.selectedSheet].
    split; [ exact Himages | ]. split; [ exact Hstandard | ].
    unfold SheetSizeSelector_handleChange.
    destruct (findSheet id) as [s | ] eqn:E;
      [ exact (findSheet_in id s E) | exact Hsheet ].
Qed.

(** Whatever the user does, and whenever and however the reads of the
    uploader end, the page in the upload step holds no original image, the
    page in the export step holds an original image that is not empty and
    a cropped image, and the selected standard and sheet are entries of
    the catalogues.  Nothing is kept of the edit step: a read that failed
    leaves it without an image, and one that ends late leaves it with the
    cropped image of before. *)
Theorem page_invariant (p : Page) : reachable p -> pageInvariant p.
Proof.
  intros Hreach. induction Hreach as [ | p q Hreach IH Hact ].
  - exact initialPage_invariant.
  - exact (action_keeps_invariant p q IH Hact).
Qed.

(** Back undoes the last step forward: from a page in the upload step
    that can be reached, a read that ends and Back give the page as it
    was; so do confirming the crop and Back, from a page in the edit step
    that holds no cropped image. *)
Theorem back_undoes_step (p : Page) (preview : option string) (data : string) :
  reachable p ->
  (Page.step p = upload -> handleBack (handleImageSelect preview p) = p)
  /\ (Page.step p = edit -> Page.croppedImage p = None ->
      handleBack (handleCropComplete data p) = p).
Proof.
  intros Hreach.
  assert (Hinv : pageInvariant p).
  { induction Hreach as [ | p q Hreach IH Hact ];
      [ exact initialPage_invariant
      | exact (action_keeps_invariant p q IH Hact) ]. }
  destruct Hinv as (Himages & _).
  destruct p as [step original cropped standard sheet]. cbn in *.
  split.
  - intros ->. cbn. rewrite Himages. reflexivity.
  - intros -> ->. reflexivity.
Qed.

End PageSteps.

Lemma reachable_edit_page :
  reachable (handleImageSelect (Some "data:image"%string) initialPage).
Proof.
  apply (reachable_action initialPage); [ apply reachable_initial | ].
  apply ImageSelect.
Qed.

(** A read that failed: the page is in the edit step and holds no image,
    so that neither the uploader nor the editor is rendered. *)
Lemma reachable_edit_without_image :
  reachable (handleImageSelect None initialPage)
  /\ Page.step (handleImageSelect None initialPage) = edit
  /\ truthy (Page.originalImage (handleImageSelect None initialPage)) = false.
Proof.
  split; [ | split; reflexivity ].
  apply (reachable_action initialPage); [ apply reachable_initial | ].
  apply ImageSelect.
Qed.

Lemma page_invariant_witness :
  pageInvariant
    (handleCropComplete "data:crop"
       (handleImageSelect (Some "data:image"%string) initialPage)).
Proof.
  apply page_invariant.
  apply (reachable_action (handleImageSelect (Some "data:image"%string) initialPage));
    [ exact reachable_edit_page | ].
  apply CropComplete; reflexivity.
Defined.

Lemma back_undoes_step_witness :
  handleBack (handleCropComplete "data:crop"
                (handleImageSelect (Some "data:image"%string) initialPage))
  = handleImageSelect (Some "data:image"%string) initialPage.
Proof.
  apply (back_undoes_step (handleImageSelect (Some "data:image"%string) initialPage)
           None "data:crop" reachable_edit_page);
    reflexivity.
Defined.

(* ================================================================== *)
(** * The two detection buttons of the editor *)
(* ================================================================== *)

Section DetectionButtons.

Variables (pipeline1 pipeline2 : outcome Detector) (imageSrc : string).
Variables (standard : PassportStandard) (e : Editor) (image : Image).
Variables (detectorPromise : option (outcome Detector)) (st : HookState).

Lemma revalidate_cells (face : DetectedFace) (s : HookState) :
  exists r : FaceValidation,
    (forall s' : HookState,
        validateFace face (Image.width image) (Image.height image) standard s'
        = Returns (r, setValidation r s'))
    /\ revalidate face image standard s = setValidation r s.
Proof.
  destruct (validateFace_report face (Image.width image) (Image.height image)
              standard s) as (r & Hcall & _).
  exists r. split.
  - intros s'. unfold validateFace in *.
    injection Hcall as Hr _. rewrite Hr. reflexivity.
  - unfold revalidate. rewrite Hcall. reflexivity.
Qed.

Lemma detectFace_stores_face
    (face : DetectedFace) (promise' : option (outcome Detector))
    (st' : HookState) :
  detectFace pipeline1 imageSrc detectorPromise st = (Some face, promise', st') ->
  detectedFace st' = Some face.
Proof.
  intros Hdetect.
  destruct (detectFace_unfold pipeline1 imageSrc detectorPromise st)
    as (s0 & _ & _ & _ & Hcall).
  rewrite Hdetect in Hcall.
  destruct (detectorAnswer pipeline1 detectorPromise imageSrc)
    as [results | err].
  - assert (Hf := f_equal (fun p => fst (fst p)) Hcall).
    assert (Hs := f_equal snd Hcall). cbn [fst snd] in Hf, Hs.
    rewrite Hs, Hf.
    destruct (selectFace_cases results s0)
      as [(best & Hsel & _) | [(other & Hsel & _) | (Hsel & _)]];
      rewrite Hsel in *; cbn [fst snd] in *;
      [ reflexivity | reflexivity | discriminate Hf ].
  - assert (Hf := f_equal (fun p => fst (fst p)) Hcall).
    discriminate Hf.
Qed.

(** Detect Face followed by Auto-Center: when the first finds a face, the
    second does not run the detector again, keeps the face, and moves the
    picture to the scale and position the solver returns for it; the
    validation it then stores is the one stored before, since
    [validateFace] is given the image and the face, not the placement. *)
Theorem autoCenter_after_detect
    (face : DetectedFace) (promise1 : option (outcome Detector))
    (st0 : HookState) :
  Editor.image e = Some image ->
  detectFace pipeline1 imageSrc detectorPromise st = (Some face, promise1, st0) ->
  exists (e1 e2 : Editor) (st1 st2 : HookState) (autoPos : AutoPosition),
    handleAutoDetect pipeline1 imageSrc standard e detectorPromise st
    = (e1, promise1, st1)
    /\ handleAutoCenter pipeline2 imageSrc standard e1 promise1 st1
       = (e2, promise1, st2)
    /\ st2 = st1
    /\ detectedFace st2 = Some face
    /\ calculateAutoPosition face (Image.width image) (Image.height image)
         (canvasWidth standard) (canvasHeight standard) standard
       = Returns autoPos
    /\ Editor.scale e2 = scale autoPos
    /\ Editor.position e2 = position autoPos
    /\ Editor.showFaceBox e2 = true
    /\ Editor.image e2 = Some image.
Proof.
  intros editor_image Hdetect.
  assert (Hface := detectFace_stores_face _ _ _ Hdetect).
  unfold handleAutoDetect. rewrite editor_image, Hdetect.
  destruct (revalidate_cells face st0) as (r & Hreport & Hst1).
  assert (Hauto : exists a,
             calculateAutoPosition face (Image.width image)
               (Image.height image) (canvasWidth standard)
               (canvasHeight standard) standard = Returns a).
  { unfold calculateAutoPosition. eexists. reflexivity. }
  destruct Hauto as (a & Ha).
  do 4 eexists. exists a. split; [ reflexivity | ].
  unfold handleAutoCenter. cbn [setShowFaceBox Editor.image].
  rewrite editor_image, Hst1. cbn [setValidation detectedFace].
  rewrite Hface, Ha. cbn [setShowFaceBox Editor.image Editor.scale
                            Editor.position Editor.showFaceBox].
  split; [ reflexivity | ].
  split.
  { unfold revalidate. rewrite Hreport. reflexivity. }
  unfold revalidate. rewrite Hreport. cbn [setValidation detectedFace].
  repeat split; try reflexivity; try assumption.
Qed.

End DetectionButtons.

Lemma autoCenter_after_detect_witness :
  exists (face : DetectedFace) (e1 e2 : Editor) (st1 st2 : HookState)
         (autoPos : AutoPosition),
    handleAutoDetect (Returns personDetector) "photo" usStandard
      (onload usStandard (Image.mk 400 600) initialEditor) None idleState
    = (e1, Some (Returns personDetector), st1)
    /\ handleAutoCenter (Throws ModelUnavailable) "photo" usStandard e1
         (Some (Returns personDetector)) st1
       = (e2, Some (Returns personDetector), st2)
    /\ st2 = st1
    /\ detectedFace st2 = Some face
    /\ Editor.scale e2 = scale autoPos.
Proof.
  destruct (detectFace (Returns personDetector) "photo" None idleState)
    as [[found promise] st0] eqn:Edetect.
  destruct found as [face | ]; [ | vm_compute in Edetect; discriminate Edetect ].
  assert (Hp : promise = Some (Returns personDetector)).
  { vm_compute in Edetect. injection Edetect as _ Hp _. symmetry. exact Hp. }
  subst promise.
  destruct (autoCenter_after_detect (Returns personDetector)
              (Throws ModelUnavailable) "photo" usStandard
              (onload usStandard (Image.mk 400 600) initialEditor)
              (Image.mk 400 600) None idleState face _ st0 eq_refl Edetect)
    as (e1 & e2 & st1 & st2 & a & H1 & H2 & H3 & H4 & _ & H5 & _).
  exists face, e1, e2, st1, st2, a. repeat split; assumption.
Defined.
